(** * VdoPlayerAds: the playback scheduler and the video delegate

    A shallow embedding of [ads_player.py] (class [AdsPlayer]) and
    [video_player.py] (class [VideoPlayer]).

    Conventions of the embedding.
    - A Python [int] is a [Z]; a Python [float] is an IEEE 754 binary64
      value, [spec_float] with [prec = 53] and [emax = 1024], and the
      arithmetic on it is the correctly rounded one of [SpecFloat].
    - A Python [str] is a [string] of bytes, the UTF-8 encoding of its
      characters.  [str.lower] is modelled on strings of ASCII
      characters, where it acts on the letters [A] to [Z]; the bytes of
      other characters are left as they are, where Python lower-cases
      the letters among them.
    - An exception of class [Exception] is an [exn].  [KeyboardInterrupt]
      and [SystemExit], which are not of that class, are the interrupts
      of the video delegate.
    - A value read from the JSON configuration is a [json]; a Python
      [dict] with string keys is a [gmap string _].
    - A raised exception is [Raise e]; a method that mutates [self] takes
      the object's fields and returns the new ones.
    - What lies outside the program (the file system, the random
      generator, the process table, the clock, the keyboard) is an
      explicit argument. *)

From Stdlib Require Import ZArith List String Ascii Bool Lia Permutation.
From Stdlib Require Import DecimalString.
From Stdlib Require Import Floats.SpecFloat.
From stdpp Require Import gmap strings list fin_maps.

#[local] Set Warnings "-register-all".
#[local] Open Scope Z_scope.

(** ** Python values and exceptions *)

(** The exceptions of class [Exception] that the program meets. *)
Inductive exn :=
  | FileNotFoundError
  | IndexError
  | KeyError
  | TypeError
  | AttributeError
  | ZeroDivisionError
  | OverflowError
  | ValueError
  | TimeoutExpired
  | OSError
  | PygameError.

Inductive outcome (A : Type) :=
  | Ok (a : A)
  | Raise (e : exn).
Arguments Ok {A} a.
Arguments Raise {A} e.

Definition obind {A B} (m : outcome A) (k : A -> outcome B) : outcome B :=
  match m with
  | Ok a => k a
  | Raise e => Raise e
  end.

Notation "'let?' x := m 'in' k" := (obind m (fun x => k))
  (at level 10, x pattern, m at level 100, k at level 200).

Inductive json :=
  | JNull
  | JBool (b : bool)
  | JInt (n : Z)
  | JFloat (x : spec_float)
  | JStr (s : string)
  | JList (l : list json)
  | JDict (d : gmap string json).

(** ** Strings and paths *)

Module Str.

Definition is_upper (c : ascii) : bool :=
  let n := nat_of_ascii c in (65 <=? n)%nat && (n <=? 90)%nat.

Definition lower_ascii (c : ascii) : ascii :=
  if is_upper c then ascii_of_nat (nat_of_ascii c + 32) else c.

(** Every character of the string is an ASCII character. *)
Fixpoint is_ascii (s : string) : bool :=
  match s with
  | EmptyString => true
  | String c r => (nat_of_ascii c <? 128)%nat && is_ascii r
  end.

(** [s.lower()] for a string of ASCII characters.  The bytes of other
    characters are left as they are, where Python lower-cases the
    letters among them. *)
Fixpoint lower (s : string) : string :=
  match s with
  | EmptyString => EmptyString
  | String c r => String (lower_ascii c) (lower r)
  end.

(** [needle in hay] on two strings *)
Fixpoint contains (needle hay : string) : bool :=
  String.prefix needle hay ||
  match hay with
  | EmptyString => false
  | String _ r => contains needle r
  end.

(** The part of [s] from its last dot on, if it has a dot. *)
Fixpoint last_dot_tail (s : string) : option string :=
  match s with
  | EmptyString => None
  | String c r =>
      match last_dot_tail r with
      | Some t => Some t
      | None => if Ascii.eqb c "."%char then Some s else None
      end
  end.

(** [PurePath.suffix] of a file name: [i = name.rfind('.')], and
    [name[i:]] when [0 < i < len(name) - 1], else the empty string. *)
Definition suffix (name : string) : string :=
  match name with
  | EmptyString => EmptyString
  | String _ r =>
      match last_dot_tail r with
      | Some t => if (String.length t =? 1)%nat then EmptyString else t
      | None => EmptyString
      end
  end.

(** The part of [s] after its last slash. *)
Fixpoint after_last_slash (s : string) : option string :=
  match s with
  | EmptyString => None
  | String c r =>
      match after_last_slash r with
      | Some t => Some t
      | None => if Ascii.eqb c "/"%char then Some r else None
      end
  end.

(** [os.path.basename] *)
Definition basename (p : string) : string :=
  match after_last_slash p with
  | Some t => t
  | None => p
  end.

(** [str(Path(d) / name)], for a directory [d] written without a
    trailing slash. *)
Definition joinpath (d name : string) : string := d +:+ "/" +:+ name.

(** A relative path written as [pathlib] prints it, so that
    [str(Path(s))] is [s]: components separated by single slashes, none
    of them empty and none of them a single dot.  [fresh] tells that a
    component starts here. *)
Fixpoint is_normal_from (fresh : bool) (s : string) : bool :=
  match s with
  | EmptyString => negb fresh
  | String c r =>
      if Ascii.eqb c "/" then negb fresh && is_normal_from true r
      else if fresh && Ascii.eqb c "."
                && match r with
                   | EmptyString => true
                   | String c' _ => Ascii.eqb c' "/"
                   end
      then false
      else is_normal_from false r
  end.

Definition is_normal (s : string) : bool := is_normal_from true s.

End Str.

(** ** Operators of Python on JSON values *)

Module Py.

(** Truth value of an object. *)
Definition truthy (v : json) : bool :=
  match v with
  | JNull => false
  | JBool b => b
  | JInt n => negb (n =? 0)
  | JFloat (S754_zero _) => false
  | JFloat _ => true
  | JStr s => negb (String.eqb s "")
  | JList l => match l with [] => false | _ => true end
  | JDict d => negb (bool_decide (d = ∅))
  end.

(** [v == s] for a string [s]. *)
Definition eq_str (v : json) (s : string) : bool :=
  match v with
  | JStr t => String.eqb t s
  | _ => false
  end.

(** [s in v] for a string [s]. *)
Definition contains (v : json) (s : string) : outcome bool :=
  match v with
  | JDict d => Ok (bool_decide (is_Some (d !! s)))
  | JList l => Ok (existsb (fun x => eq_str x s) l)
  | JStr t => Ok (Str.contains s t)
  | _ => Raise TypeError
  end.

(** [v[s]] for a string [s]. *)
Definition getitem (v : json) (s : string) : outcome json :=
  match v with
  | JDict d => match d !! s with Some x => Ok x | None => Raise KeyError end
  | _ => Raise TypeError
  end.

(** [v[s] = x] for a string [s]. *)
Definition setitem (v : json) (s : string) (x : json) : outcome json :=
  match v with
  | JDict d => Ok (JDict (<[s := x]> d))
  | _ => Raise TypeError
  end.

(** [v.get(s)] *)
Definition get (v : json) (s : string) : outcome json :=
  match v with
  | JDict d => match d !! s with Some x => Ok x | None => Ok JNull end
  | _ => Raise AttributeError
  end.

(** [l[i]] on a list, with Python's negative indices. *)
Definition index {A} (l : list A) (i : Z) : outcome A :=
  let n := Z.of_nat (length l) in
  let j := if i <? 0 then i + n else i in
  if (0 <=? j) && (j <? n) then
    match l !! Z.to_nat j with
    | Some x => Ok x
    | None => Raise IndexError
    end
  else Raise IndexError.

End Py.

(** ** Python floats *)

Module PyFloat.

Definition prec : Z := 53.
Definition emax : Z := 1024.

(** An integer as a mantissa with exponent 0, not normalised. *)
Definition of_int_exact (z : Z) : spec_float :=
  match z with
  | Z0 => S754_zero false
  | Zpos p => S754_finite false p 0
  | Zneg p => S754_finite true p 0
  end.

Definition finite_or_overflow (x : spec_float) : outcome spec_float :=
  match x with
  | S754_infinity _ => Raise OverflowError
  | _ => Ok x
  end.

(** [float(z)]: the nearest float, ties to even. *)
Definition of_int (z : Z) : outcome spec_float :=
  finite_or_overflow (binary_normalize prec emax z 0 false).

Definition is_zero (x : spec_float) : bool :=
  match x with
  | S754_zero _ => true
  | _ => false
  end.

(** [a / b] on two ints: the correctly rounded quotient. *)
Definition int_truediv (a b : Z) : outcome spec_float :=
  if b =? 0 then Raise ZeroDivisionError
  else finite_or_overflow (SFdiv prec emax (of_int_exact a) (of_int_exact b)).

(** [a / y] for an int [a] and a float [y] *)
Definition int_div_float (a : Z) (y : spec_float) : outcome spec_float :=
  let? x := of_int a in
  if is_zero y then Raise ZeroDivisionError else Ok (SFdiv prec emax x y).

(** [a * y] for an int [a] and a float [y] *)
Definition int_mul_float (a : Z) (y : spec_float) : outcome spec_float :=
  let? x := of_int a in
  Ok (SFmul prec emax x y).

(** [x > y] *)
Definition gt (x y : spec_float) : bool := SFltb y x.

(** [x > n] for a float [x] and an int [n] that a float holds exactly *)
Definition gt_int (x : spec_float) (n : Z) : bool :=
  SFltb (binary_normalize prec emax n 0 false) x.

(** [x - y] on two floats *)
Definition sub (x y : spec_float) : spec_float := SFsub prec emax x y.

(** The number that a zero or a finite float is: [fst * 2^snd]. *)
Definition scaled (x : spec_float) : Z * Z :=
  match x with
  | S754_finite s m e => (if s then Z.neg m else Z.pos m, e)
  | _ => (0, 0)
  end.

(** [x >= y]: the comparison of the two numbers, false when one of
    them is not a number. *)
Definition ge (x y : spec_float) : bool :=
  match x, y with
  | S754_nan, _ | _, S754_nan => false
  | S754_infinity sx, S754_infinity sy => negb sx || sy
  | S754_infinity sx, _ => negb sx
  | _, S754_infinity sy => sy
  | _, _ =>
      let '(mx, ex) := scaled x in
      let '(my, ey) := scaled y in
      let e := Z.min ex ey in
      my * 2 ^ (ey - e) <=? mx * 2 ^ (ex - e)
  end.

(** [x >= n] for a float [x] and an int [n]: Python compares the two
    numbers as they are, without rounding [n]. *)
Definition ge_int (x : spec_float) (n : Z) : bool := ge x (of_int_exact n).

(** [int(x)]: truncation toward zero. *)
Definition to_int (x : spec_float) : outcome Z :=
  match x with
  | S754_zero _ => Ok 0
  | S754_infinity _ => Raise OverflowError
  | S754_nan => Raise ValueError
  | S754_finite s m e =>
      let a := if 0 <=? e then Z.shiftl (Zpos m) e else Z.shiftr (Zpos m) (- e) in
      Ok (if s then - a else a)
  end.

(** Where [num / den] lies in the unit interval: at 0, below the middle,
    at the middle, above it. *)
Definition location_of (num den : Z) : location :=
  if num =? 0 then loc_Exact else loc_Inexact (2 * num ?= den).

(** [mrs] holds the integer part of [X / den] and the location of its
    fractional part. *)
Definition holds (mrs : shr_record) (X den : Z) : Prop :=
  0 < den /\ 0 <= X /\ shr_m mrs = X / den /\
  loc_of_shr_record mrs = location_of (X mod den) den.

(** What [binary_round_aux] does after its first shift. *)
Definition finish_round (sx : bool) (mrs : shr_record) (e : Z) : spec_float :=
  let '(mrs1, e1) :=
    shr_fexp prec emax
      (round_nearest_even (shr_m mrs) (loc_of_shr_record mrs)) e loc_Exact in
  match shr_m mrs1 with
  | Z0 => S754_zero sx
  | Zpos m => if e1 <=? emax - prec then S754_finite sx m e1 else S754_infinity sx
  | Zneg _ => S754_nan
  end.

End PyFloat.

(** ** The events of pygame that the program looks at *)

Module Pygame.

Inductive key := K_ESCAPE | K_q | K_SPACE | K_r | K_s | K_other.

Inductive event :=
  | QUIT
  | KEYDOWN (k : key)
  | OtherEvent.

End Pygame.

(** ** ads_player.py: class AdsPlayer *)

Module AdsPlayer.
Import Pygame.

(** An entry of a directory: its name and whether it is a regular file. *)
Record dirent := { d_name : string; d_is_file : bool }.

(** The world around the player: the directories that exist, with
    their entries in iteration order, and the random generator, a
    stream of draws with the position of the next one. *)
Record world := {
  fs : gmap string (list dirent);
  rng : nat -> nat;
  rng_pos : nat
}.

(** The attributes of an [AdsPlayer] that the scheduler reads and writes. *)
Record player := {
  config : json;
  running : bool;
  current_ad_index : Z;
  ads_list : list string;
  screen_width : Z;
  screen_height : Z;
  orientation : json
}.

Definition set_running (b : bool) (p : player) : player :=
  {| config := config p; running := b;
     current_ad_index := current_ad_index p; ads_list := ads_list p;
     screen_width := screen_width p; screen_height := screen_height p;
     orientation := orientation p |}.

Definition set_current_ad_index (i : Z) (p : player) : player :=
  {| config := config p; running := running p;
     current_ad_index := i; ads_list := ads_list p;
     screen_width := screen_width p; screen_height := screen_height p;
     orientation := orientation p |}.

Definition set_ads_list (l : list string) (p : player) : player :=
  {| config := config p; running := running p;
     current_ad_index := current_ad_index p; ads_list := l;
     screen_width := screen_width p; screen_height := screen_height p;
     orientation := orientation p |}.

Definition set_screen (w h : Z) (o : json) (p : player) : player :=
  {| config := config p; running := running p;
     current_ad_index := current_ad_index p; ads_list := ads_list p;
     screen_width := w; screen_height := h; orientation := o |}.

(** *** load_config *)

(** What [open] and [json.load] make of the configuration file. *)
Inductive file_content :=
  | Unreadable
  | Malformed
  | Parsed (v : json).

(** The configuration file: [None] when it does not exist; and whether
    a new file can be written. *)
Record config_file := {
  content : option file_content;
  writable : bool
}.

(** 0.7 as a float *)
Definition float_0_7 : spec_float := S754_finite false 6305039478318694 (-53).

Definition default_items : list (string * json) :=
  [ ("ads_directory", JStr "ads");
    ("display_duration", JInt 10);
    ("transition_effect", JStr "fade");
    ("autodetect_orientation", JBool true);
    ("force_orientation", JNull);
    ("fullscreen", JBool true);
    ("background_color", JList [JInt 0; JInt 0; JInt 0]);
    ("supported_formats",
      JList [JStr ".jpg"; JStr ".jpeg"; JStr ".png"; JStr ".bmp";
             JStr ".mp4"; JStr ".avi"; JStr ".mov"]);
    ("hardware_acceleration", JBool true);
    ("fps", JInt 30);
    ("volume", JFloat float_0_7);
    ("loop_ads", JBool true);
    ("shuffle_ads", JBool false) ]%string.

Definition default_config : gmap string json := list_to_map default_items.

(** [for key, value in items: if key not in config: config[key] = value] *)
Fixpoint merge_defaults (items : list (string * json)) (config : json)
    : outcome json :=
  match items with
  | [] => Ok config
  | (key, value) :: rest =>
      let? present := Py.contains config key in
      if present then merge_defaults rest config
      else
        let? config1 := Py.setitem config key value in
        merge_defaults rest config1
  end.

(** The body of the [try] of [load_config]. *)
Definition load_config_body (f : config_file) : outcome (json * config_file) :=
  match content f with
  | Some c =>
      let? config :=
        match c with
        | Unreadable => Raise OSError
        | Malformed => Raise ValueError
        | Parsed v => Ok v
        end in
      let? merged := merge_defaults default_items config in
      Ok (merged, f)
  | None =>
      if writable f
      then Ok (JDict default_config,
               {| content := Some (Parsed (JDict default_config));
                  writable := writable f |})
      else Raise OSError
  end.

Definition load_config (f : config_file) : json * config_file :=
  match load_config_body f with
  | Ok r => r
  | Raise _ => (JDict default_config, f)
  end.

(** *** detect_screen_orientation *)

(** The body of the [try]; [display] is the size that
    [pygame.display.Info()] reports, [None] when it raises. *)
Definition detect_body (display : option (Z * Z)) (p : player) : outcome player :=
  let? forced := Py.get (config p) "force_orientation" in
  if Py.truthy forced then
    if Py.eq_str forced "16:9"
    then Ok (set_screen 1920 1080 forced p)
    else Ok (set_screen 1080 1920 forced p)
  else
    match display with
    | None => Raise PygameError
    | Some (w, h) =>
        let? aspect_ratio := PyFloat.int_truediv w h in
        if PyFloat.gt_int aspect_ratio 1
        then Ok (set_screen w h (JStr "16:9") p)
        else Ok (set_screen w h (JStr "6:19") p)
    end.

Definition detect_screen_orientation (display : option (Z * Z)) (p : player)
    : player :=
  match detect_body display p with
  | Ok p1 => p1
  | Raise _ => set_screen 1920 1080 (JStr "16:9") p
  end.

(** *** scale_image_to_fit *)

(** The size handed to [pygame.transform.scale], for an image of size
    [img_width] by [img_height]. *)
Definition scale_image_to_fit (p : player) (img_width img_height : Z)
    : outcome (Z * Z) :=
  let? screen_ratio := PyFloat.int_truediv (screen_width p) (screen_height p) in
  let? img_ratio := PyFloat.int_truediv img_width img_height in
  if PyFloat.gt img_ratio screen_ratio then
    let new_width := screen_width p in
    let? q := PyFloat.int_div_float (screen_width p) img_ratio in
    let? new_height := PyFloat.to_int q in
    Ok (new_width, new_height)
  else
    let new_height := screen_height p in
    let? q := PyFloat.int_mul_float (screen_height p) img_ratio in
    let? new_width := PyFloat.to_int q in
    Ok (new_width, new_height).

(** *** random.shuffle *)

(** [random._randbelow(n)]: the next draw, reduced below [n]. *)
Definition randbelow (w : world) (n : nat) : nat * world :=
  ((rng w (rng_pos w) mod n)%nat,
   {| fs := fs w; rng := rng w; rng_pos := S (rng_pos w) |}).

(** [x[i], x[j] = x[j], x[i]] *)
Definition swap {A} (x : list A) (i j : nat) : list A :=
  match x !! i, x !! j with
  | Some a, Some b => <[i := b]> (<[j := a]> x)
  | _, _ => x
  end.

(** [for i in reversed(range(1, len(x))): j = randbelow(i + 1); swap],
    started at [i]. *)
Fixpoint shuffle_from {A} (i : nat) (w : world) (x : list A) : list A * world :=
  match i with
  | O => (x, w)
  | S i' =>
      let '(j, w1) := randbelow w (i + 1) in
      shuffle_from i' w1 (swap x i j)
  end.

Definition shuffle {A} (w : world) (x : list A) : list A * world :=
  shuffle_from (length x - 1) w x.

(** *** load_ads_content *)

(** [Path(v)] *)
Definition as_path (v : json) : outcome string :=
  match v with
  | JStr s => Ok s
  | _ => Raise TypeError
  end.

Definition mkdir (w : world) (d : string) : world :=
  {| fs := <[d := []]> (fs w); rng := rng w; rng_pos := rng_pos w |}.

(** The loop over [ads_dir.iterdir()], appending to [acc]. *)
Fixpoint scan_entries (ads_dir : string) (supported : json)
    (entries : list dirent) (acc : list string) : outcome (list string) :=
  match entries with
  | [] => Ok acc
  | e :: rest =>
      let? keep :=
        (if d_is_file e
         then Py.contains supported (Str.lower (Str.suffix (d_name e)))
         else Ok false) in
      scan_entries ads_dir supported rest
        (if keep then acc ++ [Str.joinpath ads_dir (d_name e)] else acc)
  end.

Definition load_ads_content (w : world) (p : player) : outcome (world * player) :=
  let? v := Py.getitem (config p) "ads_directory" in
  let? ads_dir := as_path v in
  match fs w !! ads_dir with
  | None =>
      (* the directory is created and the method returns *)
      Ok (mkdir w ads_dir, p)
  | Some entries =>
      let? supported_formats := Py.getitem (config p) "supported_formats" in
      let? found := scan_entries ads_dir supported_formats entries [] in
      let? flag := Py.getitem (config p) "shuffle_ads" in
      if Py.truthy flag
      then let '(l, w1) := shuffle w found in Ok (w1, set_ads_list l p)
      else Ok (w, set_ads_list found p)
  end.

(** *** The scheduler *)

Definition video_extensions : list string :=
  [".mp4"; ".avi"; ".mov"; ".mkv"; ".wmv"]%string.

(** [Path(file_path).suffix.lower() in video_extensions], for a path
    that ends in the name of the file, as the paths of the playlist do:
    the suffix is taken from the part after the last slash, where
    [pathlib] first drops a trailing slash and the components [.]. *)
Definition is_video_file (file_path : string) : bool :=
  existsb (String.eqb (Str.lower (Str.suffix (Str.basename file_path))))
          video_extensions.

(** What [display_current_ad] hands to the renderer. *)
Inductive dispatch :=
  | NoAdsAvailable
  | DisplayImage (image_path : string)
  | DisplayVideo (video_path : string).

Definition display_current_ad (p : player) : outcome dispatch :=
  match ads_list p with
  | [] => Ok NoAdsAvailable
  | _ =>
      let? current_ad := Py.index (ads_list p) (current_ad_index p) in
      if is_video_file current_ad
      then Ok (DisplayVideo current_ad)
      else Ok (DisplayImage current_ad)
  end.

Definition next_ad (p : player) : player :=
  match ads_list p with
  | [] => p
  | _ => set_current_ad_index
           ((current_ad_index p + 1) mod Z.of_nat (length (ads_list p))) p
  end.

(** The body of the loop of [handle_events], for one event. *)
Definition handle_event (ev : event) (w : world) (p : player)
    : outcome (world * player) :=
  match ev with
  | QUIT => Ok (w, set_running false p)
  | KEYDOWN K_ESCAPE | KEYDOWN K_q => Ok (w, set_running false p)
  | KEYDOWN K_SPACE => Ok (w, next_ad p)
  | KEYDOWN K_r => load_ads_content w p
  | KEYDOWN K_s =>
      match ads_list p with
      | [] => Ok (w, p)
      | _ => let '(l, w1) := shuffle w (ads_list p) in
             Ok (w1, set_current_ad_index 0 (set_ads_list l p))
      end
  | KEYDOWN K_other | OtherEvent => Ok (w, p)
  end.

(** [handle_events], on the events that [pygame.event.get()] returned. *)
Fixpoint handle_events (evs : list event) (w : world) (p : player)
    : outcome (world * player) :=
  match evs with
  | [] => Ok (w, p)
  | ev :: rest =>
      let? wp := handle_event ev w p in
      handle_events rest (fst wp) (snd wp)
  end.

(** One turn of the loop of [run]: the events, the timed advance when
    [due] (the display duration has elapsed), the dispatch. *)
Definition tick (evs : list event) (due : bool) (w : world) (p : player)
    : outcome (world * player * dispatch) :=
  let? wp := handle_events evs w p in
  let p2 := if due then next_ad (snd wp) else snd wp in
  let? d := display_current_ad p2 in
  Ok (fst wp, p2, d).

(** [__init__]: the attributes are set, the screen is detected, the
    directory is scanned. *)
Definition init (f : config_file) (display : option (Z * Z)) (w : world)
    : outcome (world * player * config_file) :=
  let '(cfg, f1) := load_config f in
  let p0 := {| config := cfg; running := false; current_ad_index := 0;
               ads_list := []; screen_width := 0; screen_height := 0;
               orientation := JStr "16:9" |} in
  let p1 := detect_screen_orientation display p0 in
  let? wp := load_ads_content w p1 in
  Ok (fst wp, snd wp, f1).

(** The index invariant of the playback state. *)
Definition index_in_range (p : player) : Prop :=
  ads_list p <> [] ->
  0 <= current_ad_index p < Z.of_nat (length (ads_list p)).

(** [k] calls of [next_ad]. *)
Definition advance (k : nat) (p : player) : player := Nat.iter k next_ad p.

(** The indices shown during [n] successive advances: the index
    before the first one, then the index after each but the last. *)
Definition visited (n : nat) (p : player) : list Z :=
  map (fun k => current_ad_index (advance k p)) (seq 0 n).

(** The indices that [n] successive advances arrive at. *)
Definition reached (n : nat) (p : player) : list Z :=
  map (fun k => current_ad_index (advance (S k) p)) (seq 0 n).

(** *** display_image *)

(** What pygame is asked to put on the screen. *)
Inductive draw_op :=
  | Fill (color : json)
  | BlitImage (image_path : string) (width height x y : Z)
  | Flip.

(** The side of pygame that [display_image] relies on.  Once the
    display is set up, [blit] and [flip] do not fail. *)
Record renderer := {
  (** [pygame.image.load(path).get_size()]; [None] when the load raises *)
  image_size : string -> option (Z * Z);
  (** what the load raises then: [FileNotFoundError] for a missing
      file, [pygame.error] for a file that is not an image *)
  load_error : string -> exn;
  (** [screen.fill(color)] accepts the colour *)
  color_ok : json -> bool
}.

(** The outcome of [display_image]: the operations done and the line
    logged at level INFO, or the exception that the method caught and
    logged at level ERROR. *)
Inductive displayed :=
  | Drawn (ops : list draw_op) (info : string)
  | NotDrawn (e : exn).

(** The body of the [try] of [display_image], up to the flip. *)
Definition display_image_body (R : renderer) (p : player) (image_path : string)
    : outcome (list draw_op) :=
  match image_size R image_path with
  | None => Raise (load_error R image_path)
  | Some (img_width, img_height) =>
      let? size := scale_image_to_fit p img_width img_height in
      (* [pygame.transform.scale] refuses a negative size *)
      let? _ := (if (fst size <? 0) || (snd size <? 0)
                 then Raise ValueError else Ok tt) in
      let x := (screen_width p - fst size) / 2 in
      let y := (screen_height p - snd size) / 2 in
      let? color := Py.getitem (config p) "background_color" in
      if color_ok R color
      then Ok [Fill color; BlitImage image_path (fst size) (snd size) x y; Flip]
      else Raise ValueError
  end.

Definition display_image (R : renderer) (p : player) (image_path : string)
    : displayed :=
  match display_image_body R p image_path with
  | Ok ops => Drawn ops ("Displaying image: " +:+ Str.basename image_path)
  | Raise e => NotDrawn e
  end.

(** *** setup_display and run *)

Inductive display_mode := FullScreen | Windowed.

(** [setup_display]: [can_open w h mode] tells whether pygame opens a
    display of that size in that mode.  The result is [None] when the
    method ends the program with [sys.exit(1)]. *)
Definition setup_display (can_open : Z -> Z -> display_mode -> bool)
    (p : player) : option display_mode :=
  match Py.getitem (config p) "fullscreen" with
  | Ok v =>
      let mode := if Py.truthy v then FullScreen else Windowed in
      if can_open (screen_width p) (screen_height p) mode
      then Some mode else None
  | Raise _ => None
  end.

(** [elapsed >= display_duration], for the float [elapsed] and the
    duration that the configuration holds: an int, a bool or a float;
    another value cannot be compared with a number. *)
Definition at_least (elapsed : spec_float) (display_duration : json)
    : outcome bool :=
  match display_duration with
  | JInt n => Ok (PyFloat.ge_int elapsed n)
  | JBool b => Ok (PyFloat.ge_int elapsed (if b then 1 else 0))
  | JFloat y => Ok (PyFloat.ge elapsed y)
  | _ => Raise TypeError
  end.


(** [self.clock.tick(fps)] takes a number. *)
Definition clock_tick (fps : json) : outcome unit :=
  match fps with
  | JInt _ | JBool _ | JFloat _ => Ok tt
  | _ => Raise TypeError
  end.

(** One pass of the loop of [run]: the reading of [time.time()], a
    float of seconds, and what [pygame.event.get()] returns. *)
Record frame := { now : spec_float; pending : list event }.

(** How [run] ends on the frames it is given. *)
Inductive run_end :=
  (** the loop has ended and [pygame.quit()] is called *)
  | Stopped (w : world) (p : player)
  (** an exception leaves [run] *)
  | Failed (e : exn)
  (** [setup_display] has ended the program *)
  | Exit1
  (** the frames are used up and the loop goes on *)
  | Going (w : world) (p : player) (last_ad_change : spec_float).

(** The message for an empty playlist. *)
Definition is_message (d : dispatch) : bool :=
  match d with
  | NoAdsAvailable => true
  | _ => false
  end.

(** What a pass of the loop shows: the reading of the clock of the
    pass, the index, and what is handed to the renderer. *)
Record shown := { at_time : spec_float; index : Z; what : dispatch }.

(** [while self.running], with what each pass shows.  [display_image]
    and [display_video] catch what goes wrong in them; the message for
    an empty playlist is drawn outside of a [try], and [message_ok]
    tells whether pygame draws it. *)
Fixpoint run_loop (message_ok : bool) (frames : list frame)
    (display_duration : json) (last_ad_change : spec_float) (w : world)
    (p : player) : list shown * run_end :=
  if running p then
    match frames with
    | [] => ([], Going w p last_ad_change)
    | fr :: rest =>
        let current_time := now fr in
        match handle_events (pending fr) w p with
        | Raise e => ([], Failed e)
        | Ok (w1, p1) =>
            match at_least (PyFloat.sub current_time last_ad_change)
                    display_duration with
            | Raise e => ([], Failed e)
            | Ok due =>
                let p2 := if due then next_ad p1 else p1 in
                let last2 := if due then current_time else last_ad_change in
                match display_current_ad p2 with
                | Raise e => ([], Failed e)
                | Ok d =>
                    let s := {| at_time := current_time;
                                index := current_ad_index p2; what := d |} in
                    if is_message d && negb message_ok
                    then ([], Failed PygameError)
                    else
                      match obind (Py.getitem (config p2) "fps") clock_tick with
                      | Raise e => ([s], Failed e)
                      | Ok _ =>
                          let '(log, r) :=
                            run_loop message_ok rest display_duration last2 w1 p2 in
                          (s :: log, r)
                      end
                end
            end
        end
    end
  else ([], Stopped w p).

(** [run]: [start] is the reading of the clock before the loop. *)
Definition run (can_open : Z -> Z -> display_mode -> bool) (message_ok : bool)
    (start : spec_float) (frames : list frame) (w : world) (p : player)
    : list shown * run_end :=
  match setup_display can_open p with
  | None => ([], Exit1)
  | Some _ =>
      let p1 := set_running true p in
      match Py.getitem (config p1) "display_duration" with
      | Raise e => ([], Failed e)
      | Ok display_duration =>
          run_loop message_ok frames display_duration start w p1
      end
  end.

(** An event that ends the loop. *)
Definition is_quit (ev : event) : bool :=
  match ev with
  | QUIT | KEYDOWN K_ESCAPE | KEYDOWN K_q => true
  | _ => false
  end.

Definition is_reload (ev : event) : bool :=
  match ev with
  | KEYDOWN K_r => true
  | _ => false
  end.

(** An event that leaves the index and the playlist as they are. *)
Definition keeps_index (ev : event) : bool :=
  match ev with
  | KEYDOWN K_SPACE | KEYDOWN K_r | KEYDOWN K_s => false
  | _ => true
  end.

(** A reading of the clock: a normal float, from 1 up. *)
Definition is_reading (t : spec_float) : bool :=
  match t with
  | S754_finite false m e =>
      (2 ^ 52 <=? Z.pos m) && (Z.pos m <? 2 ^ 53) && (-52 <=? e) && (e <=? 970)
  | _ => false
  end.

(** A reading of the clock in units of [2^-52] seconds: a whole
    number. *)
Definition ticks (t : spec_float) : Z :=
  match t with
  | S754_finite false m e => Z.pos m * 2 ^ (e + 52)
  | _ => 0
  end.

(** In a log of what was shown, an index stays for [d] seconds, up to
    the rounding of one float operation: the index of a pass differs
    from the one before only when the reading of the pass lies at least
    [d * (1 - 2^-53)] seconds after [since], the reading of the pass in
    which the index last changed; [current] is the index since then. *)
Fixpoint spaced (d : Z) (since : spec_float) (current : Z) (log : list shown)
    : Prop :=
  match log with
  | [] => True
  | s :: rest =>
      if index s =? current then spaced d since current rest
      else (2 ^ 53 - 1) * (d * 2 ^ 52)
           <= 2 ^ 53 * (ticks (at_time s) - ticks since)
           /\ spaced d (at_time s) (index s) rest
  end.

(** What [display_current_ad] makes of the entry [a]. *)
Definition dispatch_of (a : string) : dispatch :=
  if is_video_file a then DisplayVideo a else DisplayImage a.

(** *** Properties of the configured formats *)

(** The file of the configuration holds none of the values that the
    merge of [load_config] would have to fill in. *)
Definition holds_all_names (v : json) : bool :=
  forallb (fun kv => match Py.contains v (fst kv) with
                     | Ok true => true
                     | _ => false
                     end) default_items.

(** The files that the scan keeps, for a list of formats. *)
Definition supported (formats : list json) (e : dirent) : bool :=
  d_is_file e
  && existsb (fun x => Py.eq_str x (Str.lower (Str.suffix (d_name e)))) formats.

Fixpoint has_upper (s : string) : bool :=
  match s with
  | EmptyString => false
  | String c r => Str.is_upper c || has_upper r
  end.

(** A format that is a string without upper-case letters. *)
Definition is_lower_case_format (x : json) : bool :=
  match x with
  | JStr f => negb (has_upper f)
  | _ => false
  end.

End AdsPlayer.

(** ** video_player.py: class VideoPlayer *)

Module VideoPlayer.
Import Pygame.

(** A [subprocess.Popen] object is named by a handle. *)
Definition handle := nat.

Inductive popen_result :=
  | Spawned (h : handle)
  | SpawnFails (e : exn).

Inductive wait_result :=
  | Exited
  | WaitFails (e : exn).

(** The world around the delegate.  Times are read in milliseconds;
    a duration is a whole number of seconds.  Starting a process and
    waiting for it can fail; [poll], [terminate] and [kill] on a child
    process do not. *)
Record env := {
  (** [os.path.exists] *)
  path_exists : string -> bool;
  (** [subprocess.Popen(cmd)]: a missing executable is
      [SpawnFails FileNotFoundError] *)
  popen : list string -> popen_result;
  (** [process.wait()] *)
  wait : handle -> wait_result;
  (** [process.poll() is None]: the process is still running *)
  running : handle -> bool;
  (** [process.wait(timeout=5)] after [terminate()] *)
  wait5 : handle -> wait_result;
  (** [pygame.font.Font(None, 48)] succeeds *)
  font_ok : bool;
  (** the readings of [time.time()] by the placeholder: number 0 is
      [start_time], number [S k] is [current_time] of frame [k] *)
  clock : nat -> Z;
  (** frame [k] is filled, rendered and flipped without an error *)
  draw_ok : nat -> bool;
  (** [pygame.event.get()] in frame [k] *)
  events : nat -> list event
}.

(** The exceptions that are not of class [Exception]: they are raised
    when a signal reaches the process, [except Exception] lets them
    pass, and a bare [except:] catches them. *)
Inductive interrupt := KeyboardInterrupt | SystemExit.

(** A machine is an environment and the signals that reach the process
    while it is blocked: in [process.wait()], in
    [process.wait(timeout=5)], in [time.sleep(seconds)] of
    [play_video_vlc], and in the pause of frame [k] of the placeholder. *)
Record machine := {
  backends : env;
  wait_signal : handle -> option interrupt;
  wait5_signal : handle -> option interrupt;
  sleep_signal : Z -> option interrupt;
  frame_signal : nat -> option interrupt
}.

(** The machine on which no signal arrives.  An environment is read as
    this machine wherever a machine is expected. *)
Definition quiet (E : env) : machine :=
  {| backends := E;
     wait_signal := fun _ => None;
     wait5_signal := fun _ => None;
     sleep_signal := fun _ => None;
     frame_signal := fun _ => None |}.

Coercion quiet : env >-> machine.

Inductive level := INFO | WARNING | ERROR.

(** What the delegate does to the world, in order. *)
Inductive action :=
  | Log (l : level) (msg : string)
  | Popen (cmd : list string)
  | Wait (h : handle)
  | Terminate (h : handle)
  | Wait5 (h : handle)
  | Kill (h : handle)
  | Sleep (ms : Z)
  | Draw (filename : string) (elapsed : Z).

(** The attributes [is_playing] and [current_process]. *)
Record vstate := {
  is_playing : bool;
  current_process : option handle
}.

(** A run of a method: it ends, returning or raising an exception of
    class [Exception], in a state and after a trace of actions; or a
    signal interrupts it and the interrupt goes up; or the fuel of its
    loop is used up. *)
Inductive run (A : Type) :=
  | Fin (r : outcome A) (s : vstate) (tr : list action)
  | Interrupted (b : interrupt) (s : vstate) (tr : list action)
  | OutOfFuel.
Arguments Fin {A} r s tr.
Arguments Interrupted {A} b s tr.
Arguments OutOfFuel {A}.

(** The run [r] after the actions [t]. *)
Definition after {A} (t : list action) (r : run A) : run A :=
  match r with
  | Fin o s tr => Fin o s (t ++ tr)
  | Interrupted b s tr => Interrupted b s (t ++ tr)
  | OutOfFuel => OutOfFuel
  end.

Definition M (A : Type) : Type := vstate -> run A.

#[global] Instance M_ret : MRet M := fun A a s => Fin (Ok a) s [].

#[global] Instance M_bind : MBind M := fun A B k m s =>
  match m s with
  | Fin (Ok a) s1 t1 => after t1 (k a s1)
  | Fin (Raise e) s1 t1 => Fin (Raise e) s1 t1
  | Interrupted b s1 t1 => Interrupted b s1 t1
  | OutOfFuel => OutOfFuel
  end.

Definition raise {A} (e : exn) : M A := fun s => Fin (Raise e) s [].

Definition out_of_fuel {A} : M A := fun _ => OutOfFuel.

Definition emit (a : action) : M unit := fun s => Fin (Ok tt) s [a].

(** An action during which the process is blocked: the signal, if one
    arrives, interrupts it. *)
Definition blocking (a : action) (signal : option interrupt) : M unit :=
  fun s =>
    match signal with
    | Some b => Interrupted b s [a]
    | None => Fin (Ok tt) s [a]
    end.

Definition get_is_playing : M bool := fun s => Fin (Ok (is_playing s)) s [].

Definition get_current_process : M (option handle) :=
  fun s => Fin (Ok (current_process s)) s [].

Definition set_is_playing (b : bool) : M unit := fun s =>
  Fin (Ok tt) {| is_playing := b; current_process := current_process s |} [].

Definition set_current_process (p : option handle) : M unit := fun s =>
  Fin (Ok tt) {| is_playing := is_playing s; current_process := p |} [].

(** [try: body except Exception as e: handler e], and the same with
    clauses for classes below [Exception]: an interrupt passes; what the
    handler raises goes up. *)
Definition try_except {A} (body : M A) (handler : exn -> M A) : M A := fun s =>
  match body s with
  | Fin (Raise e) s1 t1 => after t1 (handler e s1)
  | r => r
  end.

(** [try: body except: handler]: the bare clause catches the
    exceptions of class [Exception] and the interrupts. *)
Definition try_bare {A} (body : M A) (handler : M A) : M A := fun s =>
  match body s with
  | Fin (Raise _) s1 t1 => after t1 (handler s1)
  | Interrupted _ s1 t1 => after t1 (handler s1)
  | r => r
  end.

(** [str(n)] *)
Definition str_of_int (n : Z) : string := NilZero.string_of_int (Z.to_int n).

(** [if duration]: given and not zero. *)
Definition given (duration : option Z) : bool :=
  match duration with
  | Some d => negb (d =? 0)
  | None => false
  end.

Section WithMachine.
Variable H : machine.

Definition do_popen (cmd : list string) : M handle :=
  emit (Popen cmd);;
  match popen (backends H) cmd with
  | Spawned h => mret h
  | SpawnFails e => raise e
  end.

Definition do_wait (h : handle) : M unit :=
  blocking (Wait h) (wait_signal H h);;
  match wait (backends H) h with
  | Exited => mret tt
  | WaitFails e => raise e
  end.

Definition do_wait5 (h : handle) : M unit :=
  blocking (Wait5 h) (wait5_signal H h);;
  match wait5 (backends H) h with
  | Exited => mret tt
  | WaitFails e => raise e
  end.

(** [time.sleep(seconds)] *)
Definition do_sleep (seconds : Z) : M unit :=
  if seconds <? 0 then raise ValueError
  else blocking (Sleep (1000 * seconds)) (sleep_signal H seconds).

Definition stop_video : M unit :=
  set_is_playing false;;
  (get_current_process ≫= fun p : option handle =>
  match p with
  | Some h =>
      if running (backends H) h then
        try_except
          (emit (Terminate h);; do_wait5 h)
          (fun e =>
             match e with
             | TimeoutExpired => emit (Kill h)
             | _ => emit (Log ERROR "Error stopping video")
             end)
      else mret tt
  | None => mret tt
  end);;
  set_current_process None.

(** The loop [for event in pygame.event.get()] of the placeholder. *)
Fixpoint handle_keys (evs : list event) : M unit :=
  match evs with
  | [] => mret tt
  | KEYDOWN K_ESCAPE :: rest => set_is_playing false;; handle_keys rest
  | _ :: rest => handle_keys rest
  end.

(** [while self.is_playing], from frame [k] on. *)
Fixpoint pygame_loop (fuel : nat) (k : nat) (start_time : Z)
    (video_path : string) (duration : option Z) : M unit :=
  match fuel with
  | O => out_of_fuel
  | S fuel' =>
      get_is_playing ≫= fun playing : bool =>
      if playing then
        let current_time := clock (backends H) (S k) in
        let elapsed := current_time - start_time in
        if given duration && (1000 * default 0 duration <=? elapsed)
        then mret tt
        else
          (if draw_ok (backends H) k
           then emit (Draw (Str.basename video_path) elapsed)
           else raise PygameError);;
          handle_keys (events (backends H) k);;
          blocking (Sleep 100) (frame_signal H k);;
          pygame_loop fuel' (S k) start_time video_path duration
      else mret tt
  end.

Definition play_video_pygame (fuel : nat) (video_path : string)
    (duration : option Z) : M unit :=
  try_except
    (emit (Log INFO ("Pygame video placeholder for: " +:+ Str.basename video_path));;
     set_is_playing true;;
     let start_time := clock (backends H) 0 in
     (if font_ok (backends H) then mret tt else raise PygameError);;
     pygame_loop fuel 0 start_time video_path duration;;
     set_is_playing false)
    (fun e =>
       emit (Log ERROR "Error in pygame video player");;
       set_is_playing false).

Definition omxplayer_cmd (video_path : string) (duration : option Z)
    : list string :=
  ["omxplayer"; "--no-osd"; "--no-keys"; "--aspect-mode"; "letterbox";
   "--vol"; "0"; video_path]%string
  ++ (if given duration
      then ["--timeout"%string; str_of_int (default 0 duration)]
      else []).

Definition play_video_omxplayer (fuel : nat) (video_path : string)
    (duration : option Z) : M unit :=
  try_except
    (let cmd := omxplayer_cmd video_path duration in
     emit (Log INFO ("Starting OMXPlayer for: " +:+ Str.basename video_path));;
     h ← do_popen cmd;
     set_current_process (Some h);;
     set_is_playing true;;
     do_wait h;;
     set_is_playing false)
    (fun e =>
       match e with
       | FileNotFoundError =>
           emit (Log WARNING "OMXPlayer not found, falling back to alternative method");;
           play_video_pygame fuel video_path duration
       | _ =>
           emit (Log ERROR "Error playing video with OMXPlayer");;
           set_is_playing false
       end).

Definition vlc_cmd (video_path : string) : list string :=
  ["cvlc"; "--intf"; "dummy"; "--no-audio"; "--fullscreen";
   "--play-and-exit"; video_path]%string.

Definition play_video_vlc (fuel : nat) (video_path : string)
    (duration : option Z) : M unit :=
  try_except
    (let cmd := vlc_cmd video_path in
     emit (Log INFO ("Starting VLC for: " +:+ Str.basename video_path));;
     h ← do_popen cmd;
     set_current_process (Some h);;
     set_is_playing true;;
     (if given duration
      then do_sleep (default 0 duration);; stop_video
      else do_wait h);;
     set_is_playing false)
    (fun e =>
       match e with
       | FileNotFoundError =>
           emit (Log WARNING "VLC not found, falling back to pygame");;
           play_video_pygame fuel video_path duration
       | _ =>
           emit (Log ERROR "Error playing video with VLC");;
           set_is_playing false
       end).

Definition is_video_playing : M bool := get_is_playing.

End WithMachine.

(** [play_video] tries three backends one after the other; between
    two of them the machine may have changed. *)
Inductive stage := TryOmxplayer | TryVlc | TryPygame.

(** What the machine is while each backend is tried.  A machine is
    read as the script on which it stays the same. *)
Definition script : Type := stage -> machine.

Definition always (H : machine) : script := fun _ => H.

Coercion always : machine >-> script.

Definition play_video (W : script) (fuel : nat) (video_path : string)
    (duration : option Z) : M unit :=
  if path_exists (backends (W TryOmxplayer)) video_path then
    try_bare
      (play_video_omxplayer (W TryOmxplayer) fuel video_path duration)
      (try_bare
         (play_video_vlc (W TryVlc) fuel video_path duration)
         (play_video_pygame (W TryPygame) fuel video_path duration))
  else
    emit (Log ERROR ("Video file not found: " +:+ video_path)).

(** [__init__] *)
Definition init : vstate := {| is_playing := false; current_process := None |}.

(** Which backend an action belongs to. *)
Definition starts_omxplayer (a : action) : bool :=
  match a with
  | Popen (c :: _) => String.eqb c "omxplayer"
  | _ => false
  end.

Definition starts_vlc (a : action) : bool :=
  match a with
  | Popen (c :: _) => String.eqb c "cvlc"
  | _ => false
  end.

Definition is_placeholder_frame (a : action) : bool :=
  match a with
  | Draw _ _ => true
  | _ => false
  end.

Definition is_process_action (a : action) : bool :=
  match a with
  | Popen _ | Wait _ | Terminate _ | Wait5 _ | Kill _ => true
  | _ => false
  end.

(** The trace of a run that ended. *)
Definition trace_of {A} (r : run A) : list action :=
  match r with
  | Fin _ _ tr => tr
  | Interrupted _ _ tr => tr
  | OutOfFuel => []
  end.

(** The run ends with an exception: one of class [Exception], or an
    interrupt. *)
Definition raises {A} (r : run A) : Prop :=
  (exists e s tr, r = Fin (Raise e) s tr)
  \/ (exists b s tr, r = Interrupted b s tr).

Definition finishes {A} (r : run A) : Prop :=
  match r with
  | OutOfFuel => False
  | _ => True
  end.

(** A run that ended did only actions that satisfy [P]; its result
    and final state satisfy [Q], or the interrupt that ended it and the
    state it left satisfy [I]. *)
Definition run_all {A} (P : action -> Prop) (Q : outcome A -> vstate -> Prop)
    (I : interrupt -> vstate -> Prop) (r : run A) : Prop :=
  match r with
  | Fin o s tr => Forall P tr /\ Q o s
  | Interrupted b s tr => Forall P tr /\ I b s
  | OutOfFuel => True
  end.

(** No interrupt ends the run. *)
Definition uninterrupted : interrupt -> vstate -> Prop := fun _ _ => False.

(** The interrupt is a signal that the machine delivers. *)
Definition signalled (H : machine) : interrupt -> vstate -> Prop :=
  fun b _ =>
    (exists h, wait_signal H h = Some b)
    \/ (exists h, wait5_signal H h = Some b)
    \/ (exists seconds, sleep_signal H seconds = Some b)
    \/ (exists k, frame_signal H k = Some b).

(** The interrupt is a signal that arrived in a frame of the
    placeholder. *)
Definition in_frame (H : machine) : interrupt -> vstate -> Prop :=
  fun b _ => exists k, frame_signal H k = Some b.

(** A frame of the placeholder is drawn for [video_path] and before a
    given duration has elapsed. *)
Definition in_time (video_path : string) (duration : option Z) (a : action)
    : Prop :=
  match a with
  | Draw f elapsed =>
      f = Str.basename video_path /\
      (given duration = true -> elapsed < 1000 * default 0 duration)
  | _ => True
  end.

(** The actions that playing [video_path] for [duration] can do when
    no signal arrives: log lines, the start of omxplayer and the wait
    for it, and frames of the placeholder, each drawn before a given
    duration has elapsed, with the pause after each. *)
Definition may_do (video_path : string) (duration : option Z) (a : action)
    : Prop :=
  match a with
  | Log _ _ => True
  | Popen cmd => cmd = omxplayer_cmd video_path duration
  | Wait _ => True
  | Draw f elapsed =>
      f = Str.basename video_path /\
      (given duration = true -> elapsed < 1000 * default 0 duration)
  | Sleep ms => ms = 100
  | Terminate _ | Wait5 _ | Kill _ => False
  end.

(** The trace of [stop_video] from a state with the process [p]. *)
Definition stop_trace (E : env) (p : option handle) : list action :=
  match p with
  | Some h =>
      if running E h then
        [Terminate h; Wait5 h] ++
        match wait5 E h with
        | Exited => []
        | WaitFails TimeoutExpired => [Kill h]
        | WaitFails _ => [Log ERROR "Error stopping video"]
        end
      else []
  | None => []
  end.

(** Unfolds the operations of [M] in the goal. *)
Ltac run_step :=
  unfold mbind, M_bind, mret, M_ret, try_except, try_bare, emit, blocking,
    raise, get_is_playing, get_current_process, set_is_playing,
    set_current_process; cbn -[omxplayer_cmd vlc_cmd].

(** What [n] frames of the placeholder do, from frame [k] on: each is
    drawn with the time elapsed at its reading of the clock, and
    followed by the pause. *)
Fixpoint frames (E : env) (start_time : Z) (filename : string) (k n : nat)
    : list action :=
  match n with
  | O => []
  | S n' =>
      Draw filename (clock E (S k) - start_time) :: Sleep 100
      :: frames E start_time filename (S k) n'
  end.

(** At the reading of the clock of frame [k] the duration is given and
    has elapsed. *)
Definition elapsed_at (E : env) (start_time : Z) (duration : option Z)
    (k : nat) : bool :=
  given duration && (1000 * default 0 duration <=? clock E (S k) - start_time).

(** The key ESC is among the events. *)
Definition escape_in (evs : list event) : bool :=
  existsb (fun ev => match ev with KEYDOWN K_ESCAPE => true | _ => false end)
          evs.

(** Frame [k] is drawn and the loop goes on after it. *)
Definition goes_on (E : env) (start_time : Z) (duration : option Z) (k : nat)
    : Prop :=
  elapsed_at E start_time duration k = false
  /\ draw_ok E k = true
  /\ escape_in (events E k) = false.

(** The state after a play: not playing, the process as given. *)
Definition idle (p : option handle) : vstate :=
  {| is_playing := false; current_process := p |}.

End VideoPlayer.

(** ** manage.py: class AdsPlayerManager *)

Module Manager.

(** What [subprocess.run] makes of a command: it completes with a
    return code and, when the output is captured, with what the command
    wrote; or it raises. *)
Inductive completed :=
  | Completed (returncode : Z) (stdout stderr : string)
  | RunFails (message : string).

(** What the manager does to the world, in order. *)
Inductive effect :=
  | Print (line : string)
  | Ran (cmd : string) (capture_output : bool)
  | SleepFor (seconds : Z).

(** [s.strip()], for the white space of ASCII. *)
Definition is_space (c : ascii) : bool :=
  let n := nat_of_ascii c in
  ((9 <=? n) && (n <=? 13) || (28 <=? n) && (n <=? 32))%nat.

Fixpoint lstrip (s : string) : string :=
  match s with
  | EmptyString => EmptyString
  | String c r => if is_space c then lstrip r else s
  end.

Fixpoint rstrip (s : string) : string :=
  match s with
  | EmptyString => EmptyString
  | String c r =>
      match rstrip r with
      | EmptyString => if is_space c then EmptyString else String c EmptyString
      | t => String c t
      end
  end.

Definition strip (s : string) : string := lstrip (rstrip s).

(** [c * n] for a string [c] *)
Fixpoint times (c : string) (n : nat) : string :=
  match n with
  | O => EmptyString
  | S n' => c +:+ times c n'
  end.

Definition service_name : string := "ads_player.service".

Section WithHost.

(** The machine: its state, what a shell command does in a state, the
    number of regular files in the directory of the ads ([None] when
    the directory does not exist), and whether the file of the
    configuration exists. *)
Variable host : Type.
Variable sh : string -> bool -> host -> completed * host.
Variable ads_files : host -> option nat.
Variable has_config : host -> bool.

(** [str(self.script_dir)] *)
Variable script_dir : string.

(** A method of the manager: from a state of the machine to a result,
    the state after, and what was done. *)
Definition Mgr (A : Type) : Type := host -> A * host * list effect.

Definition ret {A} (a : A) : Mgr A := fun h => (a, h, []).

Definition bind {A B} (m : Mgr A) (k : A -> Mgr B) : Mgr B := fun h =>
  let '(a, h1, t1) := m h in
  let '(b, h2, t2) := k a h1 in
  (b, h2, t1 ++ t2).

Definition print (line : string) : Mgr unit := fun h => (tt, h, [Print line]).

Definition sleep (seconds : Z) : Mgr unit := fun h => (tt, h, [SleepFor seconds]).

(** [run_command]: success, the output, the errors. *)
Definition run_command (cmd : string) (capture_output : bool)
    : Mgr (bool * string * string) := fun h =>
  let '(r, h1) := sh cmd capture_output h in
  (match r with
   | Completed returncode stdout stderr =>
       if capture_output
       then (returncode =? 0, stdout, stderr)
       else (returncode =? 0, EmptyString, EmptyString)
   | RunFails message => (false, EmptyString, message)
   end, h1, [Ran cmd capture_output]).

Definition status : Mgr unit :=
  bind (print "📊 Ads Player Status:") (fun _ =>
  bind (print (times "=" 50)) (fun _ =>
  bind (run_command ("systemctl is-active " +:+ service_name) true) (fun r =>
  let '(success, stdout, _) := r in
  let service_status := if success then strip stdout else "inactive"%string in
  bind (print ("Service Status: " +:+ service_status)) (fun _ =>
  bind (run_command "pgrep -f ads_player.py" true) (fun r =>
  let '(success, stdout, _) := r in
  bind (if success && negb (String.eqb stdout "")
        then print ("Process ID: " +:+ strip stdout)
        else print "Process ID: Not running") (fun _ =>
  bind (fun h =>
          match ads_files h with
          | Some ads_count =>
              print ("Ads Available: "
                     +:+ VideoPlayer.str_of_int (Z.of_nat ads_count)) h
          | None => print "Ads Available: 0 (directory not found)" h
          end) (fun _ =>
  bind (fun h =>
          if has_config h
          then print "Config File: ✅ Found" h
          else print "Config File: ❌ Missing" h) (fun _ =>
  bind (print (String (ascii_of_nat 10) "📋 Recent Logs:")) (fun _ =>
  bind (run_command ("journalctl -u " +:+ service_name +:+ " --no-pager -n 5")
          true) (fun r =>
  let '(success, stdout, _) := r in
  if success && negb (String.eqb stdout "")
  then print stdout
  else print "No service logs available")))))))))).

Definition start : Mgr bool :=
  bind (print "🚀 Starting Ads Player...") (fun _ =>
  bind (run_command ("systemctl is-active " +:+ service_name) true) (fun r =>
  let '(_, stdout, _) := r in
  if Str.contains "active" stdout then
    bind (print "✅ Ads Player service is already running!") (fun _ =>
    ret true)
  else
    bind (run_command ("sudo systemctl start " +:+ service_name) true) (fun r =>
    let '(success, _, _) := r in
    if success then
      bind (print "✅ Ads Player service started successfully!") (fun _ =>
      bind (sleep 2) (fun _ =>
      bind status (fun _ =>
      ret true)))
    else
      bind (print "📱 Starting in direct mode (service not available)...")
        (fun _ =>
      bind (run_command ("cd " +:+ script_dir +:+ " && python3 ads_player.py")
              false) (fun r =>
      let '(success, _, _) := r in
      ret success))))).

Definition stop : Mgr bool :=
  bind (print "🛑 Stopping Ads Player...") (fun _ =>
  bind (run_command ("sudo systemctl stop " +:+ service_name) true) (fun r =>
  let '(success, _, _) := r in
  bind (if success then print "✅ Ads Player service stopped!" else ret tt)
    (fun _ =>
  bind (run_command "pkill -f ads_player.py" true) (fun _ =>
  bind (run_command "pkill -f omxplayer" true) (fun _ =>
  bind (run_command "pkill -f vlc" true) (fun _ =>
  bind (print "✅ All ads player processes stopped!") (fun _ =>
  ret true))))))).

Definition restart : Mgr bool :=
  bind (print "🔄 Restarting Ads Player...") (fun _ =>
  bind stop (fun _ =>
  bind (sleep 2) (fun _ =>
  start))).

End WithHost.

(** The commands among the effects, in order. *)
Definition commands (t : list effect) : list string :=
  flat_map (fun e => match e with Ran cmd _ => [cmd] | _ => [] end) t.

End Manager.

(** ** Sample data *)

Module Samples.
Import Pygame AdsPlayer.

Definition three_ads : list string :=
  ["ads/a.jpg"; "ads/b.jpg"; "ads/c.mp4"]%string.

(** A player with the default configuration on a 1920 by 1080 screen. *)
Definition player_with (ads : list string) (i : Z) : player :=
  {| config := JDict default_config; running := true;
     current_ad_index := i; ads_list := ads;
     screen_width := 1920; screen_height := 1080;
     orientation := JStr "16:9" |}.

(** The same player on a portrait screen of 1080 by 1920. *)
Definition portrait_player : player :=
  {| config := JDict default_config; running := true;
     current_ad_index := 0; ads_list := three_ads;
     screen_width := 1080; screen_height := 1920;
     orientation := JStr "6:19" |}.

Definition no_draws : nat -> nat := fun _ => O.

(** The directory [ads] holds one image only. *)
Definition world_one_image : world :=
  {| fs := {[ "ads"%string := [ {| d_name := "a.jpg"; d_is_file := true |} ] ]};
     rng := no_draws; rng_pos := O |}.

(** The directory [ads] holds a sub-directory, two images, a text
    file, a video, and a file without a suffix. *)
Definition mixed_entries : list dirent :=
  [ {| d_name := "old.jpg"; d_is_file := false |};
    {| d_name := "B.PNG"; d_is_file := true |};
    {| d_name := "notes.txt"; d_is_file := true |};
    {| d_name := "a.jpg"; d_is_file := true |};
    {| d_name := "clip.mp4"; d_is_file := true |};
    {| d_name := "README"; d_is_file := true |} ].

Definition world_mixed_directory : world :=
  {| fs := {[ "ads"%string := mixed_entries ]};
     rng := no_draws; rng_pos := O |}.

(** The same directory with a random generator that draws 0, 1, 2, ... *)
Definition world_mixed_shuffling : world :=
  {| fs := {[ "ads"%string := mixed_entries ]};
     rng := fun k => k; rng_pos := O |}.

(** A player whose configuration asks for a shuffled playlist. *)
Definition shuffling_player : player :=
  {| config := JDict (<["shuffle_ads"%string := JBool true]> default_config);
     running := false; current_ad_index := 0; ads_list := [];
     screen_width := 1920; screen_height := 1080; orientation := JStr "16:9" |}.

(** The directory [ads] does not exist. *)
Definition world_no_directory : world :=
  {| fs := ∅; rng := no_draws; rng_pos := O |}.

(** A configuration file that holds the list of the names of the
    thirteen settings. *)
Definition list_of_names : json :=
  JList (map (fun kv => JStr (fst kv)) default_items).

Definition file_with (c : file_content) : config_file :=
  {| content := Some c; writable := true |}.

(** A player whose orientation is forced by the configuration. *)
Definition forced_player (o : string) : player :=
  {| config := JDict (<["force_orientation"%string := JStr o]> default_config);
     running := false; current_ad_index := 0; ads_list := [];
     screen_width := 0; screen_height := 0; orientation := JStr "16:9" |}.

(** A machine where every executable but omxplayer is installed: the
    clock advances four seconds between two readings, every frame is
    drawn, no key is pressed. *)
Definition env_without_omxplayer : VideoPlayer.env :=
  {| VideoPlayer.path_exists := fun _ => true;
     VideoPlayer.popen := fun cmd =>
       match cmd with
       | c :: _ =>
           if String.eqb c "omxplayer"
           then VideoPlayer.SpawnFails FileNotFoundError
           else VideoPlayer.Spawned 1%nat
       | [] => VideoPlayer.SpawnFails OSError
       end;
     VideoPlayer.wait := fun _ => VideoPlayer.Exited;
     VideoPlayer.running := fun _ => true;
     VideoPlayer.wait5 := fun _ => VideoPlayer.Exited;
     VideoPlayer.font_ok := true;
     VideoPlayer.clock := fun k => 4000 * Z.of_nat k;
     VideoPlayer.draw_ok := fun _ => true;
     VideoPlayer.events := fun _ => [] |}.

(** The same machine with no video player installed at all. *)
Definition env_without_players : VideoPlayer.env :=
  {| VideoPlayer.path_exists := fun _ => true;
     VideoPlayer.popen := fun _ => VideoPlayer.SpawnFails FileNotFoundError;
     VideoPlayer.wait := fun _ => VideoPlayer.Exited;
     VideoPlayer.running := fun _ => true;
     VideoPlayer.wait5 := fun _ => VideoPlayer.Exited;
     VideoPlayer.font_ok := true;
     VideoPlayer.clock := fun k => 4000 * Z.of_nat k;
     VideoPlayer.draw_ok := fun _ => true;
     VideoPlayer.events := fun _ => [] |}.

(** The machine without players, on which the key ESC is pressed
    during the second frame. *)
Definition env_with_escape : VideoPlayer.env :=
  {| VideoPlayer.path_exists := fun _ => true;
     VideoPlayer.popen := fun _ => VideoPlayer.SpawnFails FileNotFoundError;
     VideoPlayer.wait := fun _ => VideoPlayer.Exited;
     VideoPlayer.running := fun _ => true;
     VideoPlayer.wait5 := fun _ => VideoPlayer.Exited;
     VideoPlayer.font_ok := true;
     VideoPlayer.clock := fun k => 4000 * Z.of_nat k;
     VideoPlayer.draw_ok := fun _ => true;
     VideoPlayer.events := fun k =>
       match k with
       | 1%nat => [KEYDOWN K_other; KEYDOWN K_ESCAPE]
       | _ => []
       end |}.

(** The machine without players, on which the second frame cannot be
    drawn. *)
Definition env_with_broken_screen : VideoPlayer.env :=
  {| VideoPlayer.path_exists := fun _ => true;
     VideoPlayer.popen := fun _ => VideoPlayer.SpawnFails FileNotFoundError;
     VideoPlayer.wait := fun _ => VideoPlayer.Exited;
     VideoPlayer.running := fun _ => true;
     VideoPlayer.wait5 := fun _ => VideoPlayer.Exited;
     VideoPlayer.font_ok := true;
     VideoPlayer.clock := fun k => 4000 * Z.of_nat k;
     VideoPlayer.draw_ok := fun k => match k with 1%nat => false | _ => true end;
     VideoPlayer.events := fun _ => [] |}.

(** A machine on which every player starts as process 7 and runs to
    its end; a process that is polled still runs, and does not end
    within five seconds of being terminated. *)
Definition env_with_omxplayer : VideoPlayer.env :=
  {| VideoPlayer.path_exists := fun _ => true;
     VideoPlayer.popen := fun _ => VideoPlayer.Spawned 7%nat;
     VideoPlayer.wait := fun _ => VideoPlayer.Exited;
     VideoPlayer.running := fun _ => true;
     VideoPlayer.wait5 := fun _ => VideoPlayer.WaitFails TimeoutExpired;
     VideoPlayer.font_ok := true;
     VideoPlayer.clock := fun k => 4000 * Z.of_nat k;
     VideoPlayer.draw_ok := fun _ => true;
     VideoPlayer.events := fun _ => [] |}.

(** A machine on which no player may be executed. *)
Definition env_with_forbidden_omxplayer : VideoPlayer.env :=
  {| VideoPlayer.path_exists := fun _ => true;
     VideoPlayer.popen := fun _ => VideoPlayer.SpawnFails OSError;
     VideoPlayer.wait := fun _ => VideoPlayer.Exited;
     VideoPlayer.running := fun _ => true;
     VideoPlayer.wait5 := fun _ => VideoPlayer.Exited;
     VideoPlayer.font_ok := true;
     VideoPlayer.clock := fun k => 4000 * Z.of_nat k;
     VideoPlayer.draw_ok := fun _ => true;
     VideoPlayer.events := fun _ => [] |}.

(** A machine on which no path exists. *)
Definition env_without_files : VideoPlayer.env :=
  {| VideoPlayer.path_exists := fun _ => false;
     VideoPlayer.popen := fun _ => VideoPlayer.Spawned 1%nat;
     VideoPlayer.wait := fun _ => VideoPlayer.Exited;
     VideoPlayer.running := fun _ => true;
     VideoPlayer.wait5 := fun _ => VideoPlayer.Exited;
     VideoPlayer.font_ok := true;
     VideoPlayer.clock := fun k => 4000 * Z.of_nat k;
     VideoPlayer.draw_ok := fun _ => true;
     VideoPlayer.events := fun _ => [] |}.


(** A machine on which every player starts as process 7, and a
    signal arrives whenever the end of a process is waited for. *)
Definition machine_interrupted_in_wait : VideoPlayer.machine :=
  {| VideoPlayer.backends := env_with_omxplayer;
     VideoPlayer.wait_signal := fun _ => Some VideoPlayer.KeyboardInterrupt;
     VideoPlayer.wait5_signal := fun _ => None;
     VideoPlayer.sleep_signal := fun _ => None;
     VideoPlayer.frame_signal := fun _ => None |}.

Definition clip : string := "ads/clip.mp4".

(** A machine on which the service is installed and stopped:
    [systemctl is-active] answers [inactive] with the return code 3, and
    every other command succeeds without output. *)
Definition stopped_service (cmd : string) (capture_output : bool) (h : unit)
    : Manager.completed * unit :=
  if String.eqb cmd "systemctl is-active ads_player.service"
  then (Manager.Completed 3 ("inactive" +:+ String (ascii_of_nat 10) "") "", h)
  else (Manager.Completed 0 "" "", h).

(** A renderer for which every file is an image of 1280 by 720 and
    every colour is fine. *)
Definition renderer_with_poster : renderer :=
  {| image_size := fun _ => Some (1280, 720);
     load_error := fun _ => FileNotFoundError;
     color_ok := fun _ => true |}.

(** The reading of the clock [n] seconds after the start of the
    player, which is at 1700000000 seconds: [float(1700000000 + n)]. *)
Definition at_second (n : Z) : spec_float :=
  binary_normalize PyFloat.prec PyFloat.emax (1700000000 + n) 0 false.

(** Four frames, four seconds apart, in which no key is pressed. *)
Definition four_quiet_frames : list frame :=
  [ {| now := at_second 4; pending := [] |};
    {| now := at_second 8; pending := [OtherEvent] |};
    {| now := at_second 12; pending := [] |};
    {| now := at_second 16; pending := [KEYDOWN K_other] |} ].


End Samples.

(** * Properties of the float arithmetic *)

Module PyFloatProofs.
Import PyFloat.

(** The floats of the program are quotients and products of ints of a
    few digits.  The lemmas below follow [SFdiv] and [SFmul] through
    [binary_round_aux] and bound the result [M * 2^E] in whole numbers:
    a quotient [a / b] rounds to [M / 2^(-E)] with
    [2^53 * |M * b - a * 2^(-E)| <= M * b]. *)

(** ** Digits *)

Lemma digits2_pos_size p : digits2_pos p = Pos.size p.
Proof. induction p; cbn; congruence. Qed.

Lemma Zdigits2_bounds m :
  0 < m -> 2 ^ (Zdigits2 m - 1) <= m < 2 ^ Zdigits2 m.
Proof.
  destruct m as [|p|p]; try lia. intros _. cbn [Zdigits2].
  rewrite digits2_pos_size.
  pose proof (Pos.size_gt p) as Hgt. pose proof (Pos.size_le p) as Hle.
  split.
  - assert (2 ^ Z.pos (Pos.size p) <= 2 * Z.pos p).
    { rewrite <- Pos2Z.inj_pow. change (2 * Z.pos p) with (Z.pos p~0). lia. }
    replace (Z.pos (Pos.size p)) with (Z.succ (Z.pos (Pos.size p) - 1)) in H by lia.
    rewrite Z.pow_succ_r in H by lia. lia.
  - rewrite <- Pos2Z.inj_pow. lia.
Qed.

Lemma Zdigits2_unique m d :
  2 ^ (d - 1) <= m < 2 ^ d -> 0 < d -> Zdigits2 m = d.
Proof.
  intros Hm Hd.
  assert (0 < m) by (pose proof (Z.pow_pos_nonneg 2 (d - 1)); lia).
  pose proof (Zdigits2_bounds m H) as Hb.
  assert (0 < Zdigits2 m) by (destruct m; cbn; lia).
  destruct (Z.lt_trichotomy (Zdigits2 m) d) as [Hlt|[Heq|Hgt]]; [|done|].
  - assert (2 ^ Zdigits2 m <= 2 ^ (d - 1)) by (apply Z.pow_le_mono_r; lia). lia.
  - assert (2 ^ d <= 2 ^ (Zdigits2 m - 1)) by (apply Z.pow_le_mono_r; lia). lia.
Qed.

(** ** Shifts and rounding *)

Lemma holds_of_loc m num den :
  0 <= m -> 0 <= num < den ->
  holds (shr_record_of_loc m (location_of num den)) (m * den + num) den.
Proof.
  intros Hm Hn. unfold holds.
  assert (Hdiv : (m * den + num) / den = m).
  { rewrite Z.add_comm, Z.div_add by lia. rewrite Z.div_small; lia. }
  assert (Hmod : (m * den + num) mod den = num).
  { rewrite Z.add_comm, Z.mod_add by lia. apply Z.mod_small; lia. }
  rewrite Hdiv, Hmod. repeat split; try nia.
  - unfold location_of. destruct (num =? 0); [done|]. by destruct (2 * num ?= den).
  - unfold location_of. destruct (num =? 0); [done|]. by destruct (2 * num ?= den).
Qed.

Lemma shr_1_holds mrs X den :
  holds mrs X den -> holds (shr_1 mrs) X (2 * den).
Proof.
  intros (Hden & HX & Hm & Hl).
  assert (Hq : X / (2 * den) = (X / den) / 2).
  { rewrite (Z.mul_comm 2), Z.div_div; lia. }
  assert (Hr : X mod (2 * den) = X mod den + den * ((X / den) mod 2)).
  { rewrite (Z.mul_comm 2). apply Z.rem_mul_r; lia. }
  pose proof (Z.mod_pos_bound X den Hden) as Hnum.
  pose proof (Z.div_pos X den HX Hden) as Hmpos.
  pose proof (Z.div_mod (X / den) 2 ltac:(lia)) as Hdm.
  pose proof (Z.mod_pos_bound (X / den) 2 ltac:(lia)) as Hlsb.
  unfold holds. rewrite Hq, Hr. split; [lia|]. split; [lia|].
  destruct mrs as [m r s]. cbn in Hm, Hl. subst m.
  set (q := X / den) in *. set (num := X mod den) in *.
  assert (Hrs : orb r s = negb (num =? 0)).
  { unfold location_of in Hl. destruct r, s, (num =? 0); try done;
      by destruct (2 * num ?= den). }
  unfold shr_1. rewrite Hrs.
  destruct q as [|[p|p|]|p]; try lia; cbn [shr_m loc_of_shr_record].
  - (* 0 *) change (0 / 2) with 0. change (0 mod 2) with 0. split; [done|].
    rewrite Z.mul_0_r, Z.add_0_r. unfold location_of in *.
    destruct (num =? 0) eqn:E0; [done|]. cbn.
    replace (2 * num ?= 2 * den) with Lt; [done|]. symmetry. apply Z.compare_lt_iff. lia.
  - (* xI *) assert (Z.pos p~1 / 2 = Z.pos p /\ Z.pos p~1 mod 2 = 1) as [-> ->].
    { rewrite (Pos2Z.inj_xI p) in *. split; [|rewrite Z.add_comm, Z.mul_comm, Z.mod_add; done].
      rewrite Z.add_comm, Z.mul_comm, Z.div_add; done. }
    split; [done|]. unfold location_of.
    destruct (num =? 0) eqn:E0; cbn.
    + apply Z.eqb_eq in E0. rewrite E0.
      replace (0 + den * 1 =? 0) with false by (symmetry; apply Z.eqb_neq; lia).
      replace (2 * (0 + den * 1) ?= 2 * den) with Eq; [done|].
      symmetry. apply Z.compare_eq_iff. lia.
    + apply Z.eqb_neq in E0.
      replace (num + den * 1 =? 0) with false by (symmetry; apply Z.eqb_neq; lia).
      replace (2 * (num + den * 1) ?= 2 * den) with Gt; [done|].
      symmetry. apply Z.compare_gt_iff. lia.
  - (* xO *) assert (Z.pos p~0 / 2 = Z.pos p /\ Z.pos p~0 mod 2 = 0) as [-> ->].
    { rewrite (Pos2Z.inj_xO p) in *. split; [|rewrite Z.mul_comm, Z.mod_mul; done].
      rewrite Z.mul_comm, Z.div_mul; done. }
    split; [done|]. rewrite Z.mul_0_r, Z.add_0_r. unfold location_of in *.
    destruct (num =? 0) eqn:E0; [done|]. cbn. apply Z.eqb_neq in E0.
    replace (2 * num ?= 2 * den) with Lt; [done|]. symmetry. apply Z.compare_lt_iff. lia.
  - (* 1 *) change (1 / 2) with 0. change (1 mod 2) with 1. split; [done|].
    unfold location_of.
    destruct (num =? 0) eqn:E0; cbn.
    + apply Z.eqb_eq in E0. rewrite E0.
      replace (0 + den * 1 =? 0) with false by (symmetry; apply Z.eqb_neq; lia).
      replace (2 * (0 + den * 1) ?= 2 * den) with Eq; [done|].
      symmetry. apply Z.compare_eq_iff. lia.
    + apply Z.eqb_neq in E0.
      replace (num + den * 1 =? 0) with false by (symmetry; apply Z.eqb_neq; lia).
      replace (2 * (num + den * 1) ?= 2 * den) with Gt; [done|].
      symmetry. apply Z.compare_gt_iff. lia.
Qed.

Lemma iter_shr_1_holds p mrs X den :
  holds mrs X den -> holds (SpecFloat.iter_pos shr_1 p mrs) X (2 ^ Z.pos p * den).
Proof.
  revert mrs den. induction p as [p IH|p IH|]; intros mrs den H;
    cbn [SpecFloat.iter_pos].
  - apply shr_1_holds in H. apply IH in H. apply IH in H.
    replace (2 ^ Z.pos p~1 * den) with (2 ^ Z.pos p * (2 ^ Z.pos p * (2 * den)));
      [done|].
    replace (Z.pos p~1) with (Z.pos p + Z.pos p + 1) by lia.
    rewrite !Z.pow_add_r by lia. ring.
  - apply IH in H. apply IH in H.
    replace (2 ^ Z.pos p~0 * den) with (2 ^ Z.pos p * (2 ^ Z.pos p * den));
      [done|].
    replace (Z.pos p~0) with (Z.pos p + Z.pos p) by lia.
    rewrite !Z.pow_add_r by lia. ring.
  - by apply shr_1_holds in H.
Qed.

(** Shifting [n] binary digits to the right. *)
Lemma shr_holds mrs X den e n :
  0 <= n -> holds mrs X den ->
  holds (fst (shr mrs e n)) X (2 ^ n * den) /\ snd (shr mrs e n) = e + n.
Proof.
  intros Hn H. destruct n as [|p|p]; [| |lia]; cbn [shr fst snd].
  - rewrite Z.pow_0_r, Z.mul_1_l. split; [done|lia].
  - split; [|done]. by apply iter_shr_1_holds.
Qed.

(** Rounding to nearest, ties to even: the result is within half a unit. *)
Lemma round_nearest_even_holds mrs X den :
  holds mrs X den ->
  let M := round_nearest_even (shr_m mrs) (loc_of_shr_record mrs) in
  X / den <= M <= X / den + 1 /\ 2 * Z.abs (M * den - X) <= den.
Proof.
  intros (Hden & HX & Hm & Hl). cbn zeta. rewrite Hm, Hl.
  pose proof (Z.div_mod X den ltac:(lia)) as Hdm.
  pose proof (Z.mod_pos_bound X den Hden) as Hnum.
  set (q := X / den) in *. set (num := X mod den) in *. clearbody q num.
  unfold location_of. destruct (num =? 0) eqn:E0; cbn.
  { apply Z.eqb_eq in E0. split; lia. }
  destruct (2 * num ?= den) eqn:Ec; cbn.
  - rewrite Z.compare_eq_iff in Ec. destruct (Z.even q); split; lia.
  - rewrite Z.compare_lt_iff in Ec. split; lia.
  - rewrite Z.compare_gt_iff in Ec. split; lia.
Qed.

Lemma fexp_normal e : -1074 <= e - 53 -> fexp prec emax e = e - 53.
Proof. unfold fexp, emin, prec, emax. lia. Qed.

Lemma binary_round_aux_finish sx mx ex lx :
  binary_round_aux prec emax sx mx ex lx
  = finish_round sx (fst (shr_fexp prec emax mx ex lx))
                    (snd (shr_fexp prec emax mx ex lx)).
Proof.
  unfold binary_round_aux, finish_round.
  by destruct (shr_fexp prec emax mx ex lx).
Qed.

(** The first shift of [binary_round_aux] leaves a mantissa of 53 digits. *)
Lemma shr_fexp_normal mx ex X den :
  0 < den -> 0 <= X -> mx = X / den ->
  53 <= Zdigits2 mx ->
  -1074 <= Zdigits2 mx + ex - 53 ->
  let n := Zdigits2 mx - 53 in
  let r := shr_fexp prec emax mx ex (location_of (X mod den) den) in
  snd r = ex + n /\ holds (fst r) X (2 ^ n * den)
  /\ 2 ^ 52 <= shr_m (fst r) < 2 ^ 53.
Proof.
  intros Hden HX Hmx Hd Hrange. cbn zeta.
  assert (Hmxpos : 0 < mx).
  { destruct mx as [|p|p]; cbn in Hd; [lia|lia|].
    pose proof (Z.div_pos X den HX Hden). lia. }
  set (d := Zdigits2 mx) in *.
  pose proof (Zdigits2_bounds mx Hmxpos) as Hb. fold d in Hb.
  pose proof (Z.mod_pos_bound X den Hden) as Hnum.
  assert (H0 : holds (shr_record_of_loc mx (location_of (X mod den) den)) X den).
  { assert (HX' : X = mx * den + X mod den).
    { rewrite Hmx, (Z.mul_comm (X / den)). apply Z.div_mod. lia. }
    rewrite HX' at 2. apply holds_of_loc; lia. }
  unfold shr_fexp. fold d. rewrite fexp_normal by lia.
  replace (d + ex - 53 - ex) with (d - 53) by lia.
  destruct (shr_holds _ X den ex (d - 53) ltac:(lia) H0) as [H1 He1].
  split; [done|]. split; [done|].
  destruct H1 as (_ & _ & -> & _).
  assert (Hpow : 2 ^ d = 2 ^ (d - 53) * 2 ^ 53).
  { rewrite <- Z.pow_add_r by lia. f_equal. lia. }
  assert (Hpow' : 2 ^ (d - 1) = 2 ^ (d - 53) * 2 ^ 52).
  { rewrite <- Z.pow_add_r by lia. f_equal. lia. }
  assert (Hn : 0 < 2 ^ (d - 53)) by (apply Z.pow_pos_nonneg; lia).
  rewrite (Z.mul_comm (2 ^ (d - 53))), <- Z.div_div, <- Hmx by lia.
  split.
  - apply Z.div_le_lower_bound; lia.
  - apply Z.div_lt_upper_bound; lia.
Qed.

(** The end of [binary_round_aux], on a record of 53 digits away from
    the subnormal numbers and from overflow: a normal float within a
    relative error of [2^-53] of the fraction that the record holds. *)
Lemma finish_round_normal mrs e X D :
  holds mrs X D -> 2 ^ 52 <= shr_m mrs < 2 ^ 53 -> -1074 <= e <= 970 ->
  exists M E,
    finish_round false mrs e = S754_finite false M E
    /\ 2 ^ 52 <= Z.pos M < 2 ^ 53
    /\ e <= E <= e + 1
    /\ 2 ^ 53 * Z.abs (Z.pos M * 2 ^ (E - e) * D - X)
       <= Z.pos M * 2 ^ (E - e) * D.
Proof.
  intros Hh Hm He.
  pose proof (round_nearest_even_holds mrs X D Hh) as [HM Herr].
  destruct Hh as (HD & HX & Hq & _). rewrite <- Hq in HM.
  unfold finish_round.
  set (M1 := round_nearest_even _ _) in *. cbn zeta in HM, Herr.
  clearbody M1.
  assert (Hcase : M1 < 2 ^ 53 \/ M1 = 2 ^ 53) by lia.
  destruct Hcase as [Hlt | Heq].
  - (* no carry *)
    unfold shr_fexp. rewrite (Zdigits2_unique M1 53) by lia.
    rewrite fexp_normal by lia.
    replace (53 + e - 53 - e) with 0 by lia.
    cbn [shr shr_record_of_loc shr_m].
    destruct M1 as [|M|M] eqn:EM; try lia.
    replace (e <=? emax - prec) with true
      by (symmetry; apply Z.leb_le; unfold emax, prec; lia).
    exists M, e. split; [done|]. split; [lia|]. split; [lia|].
    rewrite Z.sub_diag, Z.pow_0_r, Z.mul_1_r.
    assert (2 ^ 52 * D <= Z.pos M * D) by (apply Z.mul_le_mono_nonneg_r; lia).
    change (2 ^ 53) with (2 * 2 ^ 52). lia.
  - (* the mantissa reaches 2^53 and is halved *)
    subst M1. unfold shr_fexp. rewrite (Zdigits2_unique (2 ^ 53) 54) by done.
    rewrite fexp_normal by lia.
    replace (54 + e - 53 - e) with 1 by lia.
    cbn [shr shr_record_of_loc SpecFloat.iter_pos shr_1 shr_m].
    replace (e + 1 <=? emax - prec) with true
      by (symmetry; apply Z.leb_le; unfold emax, prec; lia).
    exists 4503599627370496%positive, (e + 1).
    split; [reflexivity|]. split; [done|]. split; [lia|].
    replace (e + 1 - e) with 1 by lia. rewrite Z.pow_1_r.
    change (Z.pos 4503599627370496 * 2) with (2 ^ 53). lia.
Qed.

(** [binary_round_aux] on a mantissa of at least 53 digits, away from
    the subnormal numbers and from overflow: the result is a normal
    float within a relative error of [2^-53] of the number rounded. *)
Lemma binary_round_aux_normal mx ex X den :
  0 < den -> 0 <= X -> mx = X / den ->
  53 <= Zdigits2 mx ->
  -1074 <= Zdigits2 mx + ex - 53 <= 970 ->
  exists M E,
    binary_round_aux prec emax false mx ex (location_of (X mod den) den)
    = S754_finite false M E
    /\ 2 ^ 52 <= Z.pos M < 2 ^ 53
    /\ Zdigits2 mx + ex - 53 <= E <= Zdigits2 mx + ex - 52
    /\ 2 ^ 53 * Z.abs (Z.pos M * 2 ^ (E - ex) * den - X)
       <= Z.pos M * 2 ^ (E - ex) * den.
Proof.
  intros Hden HX Hmx Hd Hrange. rewrite binary_round_aux_finish.
  destruct (shr_fexp_normal mx ex X den) as (He & Hh & Hm); try done; [lia|].
  set (n := Zdigits2 mx - 53) in *.
  destruct (shr_fexp _ _ _ _ _) as [mrs e1]. cbn [fst snd] in *. subst e1.
  destruct (finish_round_normal mrs (ex + n) X (2 ^ n * den) Hh Hm)
    as (M & E & Hrun & HM & HE & Herr); [lia|].
  exists M, E. split; [done|]. split; [done|]. split; [lia|].
  replace (2 ^ (E - ex)) with (2 ^ (E - (ex + n)) * 2 ^ n).
  - replace (Z.pos M * (2 ^ (E - (ex + n)) * 2 ^ n) * den)
      with (Z.pos M * 2 ^ (E - (ex + n)) * (2 ^ n * den)) by ring.
    done.
  - rewrite <- Z.pow_add_r by lia. f_equal. lia.
Qed.

(** ** Division, conversion, multiplication *)

Lemma new_location_is_location_of den num :
  0 < den -> 0 <= num < den -> new_location den num = location_of num den.
Proof.
  intros Hden Hnum. unfold new_location, new_location_even, new_location_odd,
    location_of.
  destruct (Z.even den) eqn:Ev; [done|].
  destruct (num =? 0); [done|]. f_equal.
  assert (Hodd : Z.odd den = true) by (rewrite <- Z.negb_even, Ev; done).
  apply Z.odd_spec in Hodd as [k Hk].
  destruct (2 * num + 1 ?= den) eqn:Ec.
  - rewrite Z.compare_eq_iff in Ec. symmetry. apply Z.compare_lt_iff. lia.
  - rewrite Z.compare_lt_iff in Ec. symmetry. apply Z.compare_lt_iff. lia.
  - rewrite Z.compare_gt_iff in Ec. symmetry. apply Z.compare_gt_iff. lia.
Qed.

Lemma pow2_pos n : 0 <= n -> 0 < 2 ^ n.
Proof. intros. apply Z.pow_pos_nonneg; lia. Qed.

Lemma pow2_split a b : 0 <= a -> 0 <= b -> 2 ^ (a + b) = 2 ^ a * 2 ^ b.
Proof. intros. apply Z.pow_add_r; lia. Qed.

Lemma Zdigits2_le m k : 0 < m < 2 ^ k -> 0 <= k -> Zdigits2 m <= k.
Proof.
  intros Hm Hk. pose proof (Zdigits2_bounds m ltac:(lia)) as Hb.
  destruct (Z.le_gt_cases (Zdigits2 m) k) as [|Hgt]; [done|].
  assert (2 ^ k <= 2 ^ (Zdigits2 m - 1)) by (apply Z.pow_le_mono_r; lia). lia.
Qed.

Lemma Zdigits2_pos m : 0 < m -> 1 <= Zdigits2 m.
Proof. destruct m; cbn; lia. Qed.

(** Two records that hold the same fraction are the same record. *)
Lemma holds_unique m1 m2 X1 D1 X2 D2 :
  holds m1 X1 D1 -> holds m2 X2 D2 -> X1 * D2 = X2 * D1 -> m1 = m2.
Proof.
  intros (HD1 & HX1 & Hm1 & Hl1) (HD2 & HX2 & Hm2 & Hl2) Heq.
  pose proof (Z.div_mod X1 D1 ltac:(lia)) as Hdm1.
  pose proof (Z.div_mod X2 D2 ltac:(lia)) as Hdm2.
  pose proof (Z.mod_pos_bound X1 D1 HD1) as Hr1.
  pose proof (Z.mod_pos_bound X2 D2 HD2) as Hr2.
  set (q1 := X1 / D1) in *. set (q2 := X2 / D2) in *.
  set (r1 := X1 mod D1) in *. set (r2 := X2 mod D2) in *.
  clearbody q1 q2 r1 r2.
  assert (Hq : q1 = q2).
  { assert (HDD : 0 < D1 * D2) by (apply Z.mul_pos_pos; lia).
    (* (q1 - q2) D1 D2 = r2 D1 - r1 D2 *)
    assert (Hk : (q1 - q2) * (D1 * D2) = r2 * D1 - r1 * D2).
    { subst X1 X2. ring_simplify. ring_simplify in Heq. lia. }
    assert (Hb1 : r2 * D1 < D2 * D1) by (apply Z.mul_lt_mono_pos_r; lia).
    assert (Hb2 : r1 * D2 < D1 * D2) by (apply Z.mul_lt_mono_pos_r; lia).
    assert (Hb3 : 0 <= r2 * D1) by (apply Z.mul_nonneg_nonneg; lia).
    assert (Hb4 : 0 <= r1 * D2) by (apply Z.mul_nonneg_nonneg; lia).
    assert (Habs : Z.abs ((q1 - q2) * (D1 * D2)) < D1 * D2) by lia.
    rewrite Z.abs_mul, (Z.abs_eq (D1 * D2)) in Habs by lia.
    assert (Z.abs (q1 - q2) < 1).
    { apply (Z.mul_lt_mono_pos_r (D1 * D2)); lia. }
    lia. }
  subst q2.
  assert (Hr : r1 * D2 = r2 * D1).
  { subst X1 X2. ring_simplify in Heq. lia. }
  assert (Hloc : location_of r1 D1 = location_of r2 D2).
  { unfold location_of.
    assert (Hz : (r1 =? 0) = (r2 =? 0)).
    { destruct (Z.eqb_spec r1 0) as [->|Hn1], (Z.eqb_spec r2 0) as [->|Hn2];
        try done.
      - assert (r2 * D1 = 0) by lia. apply Z.mul_eq_0 in H. lia.
      - assert (r1 * D2 = 0) by lia. apply Z.mul_eq_0 in H. lia. }
    rewrite Hz. destruct (r2 =? 0); [done|]. f_equal.
    rewrite (Zmult_compare_compat_r (2 * r1) D1 D2) by lia.
    rewrite (Zmult_compare_compat_r (2 * r2) D2 D1) by lia.
    f_equal; lia. }
  destruct m1 as [a1 b1 c1], m2 as [a2 b2 c2]. cbn in *.
  rewrite Hloc, <- Hl2 in Hl1. subst a1 a2.
  destruct b1, c1, b2, c2; done.
Qed.

Lemma holds_scale m k X D :
  0 < k -> holds m (k * X) (k * D) -> holds m X D.
Proof.
  intros Hk (HD & HX & Hm & Hl).
  assert (HD' : 0 < D) by nia. assert (HX' : 0 <= X) by nia.
  rewrite Z.div_mul_cancel_l in Hm by lia.
  rewrite Z.mul_mod_distr_l in Hl by lia.
  repeat split; try done.
  rewrite Hl. unfold location_of.
  pose proof (Z.mod_pos_bound X D HD') as Hr.
  set (r := X mod D) in *. clearbody r.
  assert (Hz : (k * r =? 0) = (r =? 0)).
  { destruct (Z.eqb_spec r 0) as [->|Hn]; [by rewrite Z.mul_0_r|].
    apply Z.eqb_neq. nia. }
  rewrite Hz. destruct (r =? 0); [done|]. f_equal.
  rewrite (Zmult_compare_compat_r (2 * r) D k) by lia.
  f_equal; ring.
Qed.

(** The quotient of two positive ints below [2^51], before the final
    rounding: a record that holds [a * 2^t / b], with 53 digits. *)
Lemma int_truediv_first_shift a b :
  0 < a < 2 ^ 51 -> 0 < b < 2 ^ 51 ->
  exists mrs t,
    52 + Zdigits2 b - Zdigits2 a <= t <= 53 + Zdigits2 b - Zdigits2 a
    /\ int_truediv a b = finite_or_overflow (finish_round false mrs (- t))
    /\ holds mrs (a * 2 ^ t) b
    /\ 2 ^ 52 <= shr_m mrs < 2 ^ 53.
Proof.
  intros Ha Hb. unfold int_truediv.
  replace (b =? 0) with false by (symmetry; apply Z.eqb_neq; lia).
  destruct a as [|pa|pa]; try lia. destruct b as [|pb|pb]; try lia.
  cbn [of_int_exact SFdiv xorb]. unfold SFdiv_core_binary.
  set (a := Z.pos pa) in *. set (b := Z.pos pb) in *.
  set (d1 := Zdigits2 a). set (d2 := Zdigits2 b).
  pose proof (Zdigits2_bounds a ltac:(lia)) as Hba. fold d1 in Hba.
  pose proof (Zdigits2_bounds b ltac:(lia)) as Hbb. fold d2 in Hbb.
  pose proof (Zdigits2_le a 51 Ha ltac:(lia)) as Hd1. fold d1 in Hd1.
  pose proof (Zdigits2_le b 51 Hb ltac:(lia)) as Hd2. fold d2 in Hd2.
  pose proof (Zdigits2_pos a ltac:(lia)) as Hd1'. fold d1 in Hd1'.
  pose proof (Zdigits2_pos b ltac:(lia)) as Hd2'. fold d2 in Hd2'.
  replace (d1 + 0 - (d2 + 0)) with (d1 - d2) by lia.
  rewrite fexp_normal by lia.
  replace (Z.min (d1 - d2 - 53) (0 - 0)) with (d1 - d2 - 53) by lia.
  set (s := 53 + d2 - d1).
  replace (0 - 0 - (d1 - d2 - 53)) with s by (unfold s; lia).
  assert (Hs : 0 < s) by (unfold s; lia).
  destruct s as [|ps|ps] eqn:Es; try lia. rewrite <- Es in *.
  rewrite Z.shiftl_mul_pow2 by lia.
  set (X := a * 2 ^ s).
  pose proof (Z_div_mod X b ltac:(lia)) as Hde.
  destruct (Z.div_eucl X b) as [q r] eqn:Eqr.
  assert (Hq : q = X / b) by (unfold Z.div; rewrite Eqr; done).
  assert (Hr : r = X mod b) by (unfold Z.modulo; rewrite Eqr; done).
  destruct Hde as [HXqr Hrb].
  rewrite new_location_is_location_of by lia. rewrite Hr.
  assert (Hs2 : 0 < 2 ^ s) by (apply pow2_pos; lia).
  assert (HXpos : 0 <= X) by (unfold X; nia).
  assert (Hqlo : 2 ^ 52 <= q).
  { rewrite Hq. apply Z.div_le_lower_bound; [lia|].
    assert (2 ^ 52 * 2 ^ d2 = 2 ^ (d1 - 1) * 2 ^ s).
    { rewrite <- !pow2_split by lia. f_equal. unfold s. lia. }
    unfold X. nia. }
  assert (Hqhi : q < 2 ^ 54).
  { rewrite Hq. apply Z.div_lt_upper_bound; [lia|].
    assert (2 ^ (d2 - 1) * 2 ^ 54 = 2 ^ d1 * 2 ^ s).
    { rewrite <- !pow2_split by lia. f_equal. unfold s. lia. }
    unfold X. nia. }
  assert (Hdq : 53 <= Zdigits2 q <= 54).
  { pose proof (Zdigits2_bounds q ltac:(lia)) as Hbq.
    split.
    - destruct (Z.le_gt_cases 53 (Zdigits2 q)) as [|Hlt]; [done|].
      assert (2 ^ Zdigits2 q <= 2 ^ 52) by (apply Z.pow_le_mono_r; lia). lia.
    - apply Zdigits2_le; lia. }
  rewrite binary_round_aux_finish.
  destruct (shr_fexp_normal q (d1 - d2 - 53) X b) as (He & Hh & Hm);
    [lia|lia|done|lia|lia|].
  set (n := Zdigits2 q - 53) in *.
  destruct (shr_fexp _ _ _ _ _) as [mrs e1]. cbn [fst snd] in *. subst e1.
  exists mrs, (s - n).
  fold a b d1 d2. split; [unfold s, n; lia|].
  split; [do 2 f_equal; unfold s; lia|]. split; [|done].
  apply (holds_scale mrs (2 ^ n)); [apply pow2_pos; unfold n; lia|].
  replace (2 ^ n * (a * 2 ^ (s - n))) with X; [done|].
  unfold X. replace s with (n + (s - n)) at 1 by lia.
  rewrite pow2_split by (unfold n, s; lia). ring.
Qed.

(** [a / b] on two positive ints below [2^51]: a normal float [M * 2^E]
    with [E < 0], within a relative error of [2^-53] of the quotient. *)
Lemma int_truediv_normal a b :
  0 < a < 2 ^ 51 -> 0 < b < 2 ^ 51 ->
  exists M E,
    int_truediv a b = Ok (S754_finite false M E)
    /\ 2 ^ 52 <= Z.pos M < 2 ^ 53
    /\ Zdigits2 a - Zdigits2 b - 53 <= E <= Zdigits2 a - Zdigits2 b - 51
    /\ 2 ^ 53 * Z.abs (Z.pos M * b - a * 2 ^ (- E)) <= Z.pos M * b.
Proof.
  intros Ha Hb.
  destruct (int_truediv_first_shift a b Ha Hb) as (mrs & t & Ht & -> & Hh & Hm).
  pose proof (Zdigits2_le a 51 Ha ltac:(lia)).
  pose proof (Zdigits2_pos a ltac:(lia)).
  pose proof (Zdigits2_le b 51 Hb ltac:(lia)).
  pose proof (Zdigits2_pos b ltac:(lia)).
  destruct (finish_round_normal mrs (- t) (a * 2 ^ t) b Hh Hm)
    as (M & E & Hrun & HM & HE & Herr); [lia|].
  exists M, E. split; [by rewrite Hrun|]. split; [done|]. split; [lia|].
  (* from the scale of the quotient to that of the result *)
  replace (E - - t) with (E + t) in Herr by lia.
  assert (HD : 0 < 2 ^ (- E)) by (apply pow2_pos; lia).
  assert (Hsc : 2 ^ (E + t) * 2 ^ (- E) = 2 ^ t).
  { rewrite <- pow2_split by lia. f_equal. lia. }
  set (D := 2 ^ (- E)) in *. set (T := 2 ^ (E + t)) in *.
  assert (HT : 0 < T) by (apply pow2_pos; lia).
  assert (Hscale : Z.pos M * T * b - a * 2 ^ t = T * (Z.pos M * b - a * D)).
  { rewrite <- Hsc. ring. }
  rewrite Hscale, Z.abs_mul, (Z.abs_eq T) in Herr by lia.
  replace (Z.pos M * T * b) with (T * (Z.pos M * b)) in Herr by ring.
  replace (2 ^ 53 * (T * Z.abs (Z.pos M * b - a * D)))
    with (T * (2 ^ 53 * Z.abs (Z.pos M * b - a * D))) in Herr by ring.
  apply Z.mul_le_mono_pos_l in Herr; lia.
Qed.

(** A mantissa of 53 digits with nothing to round is kept. *)
Lemma binary_round_aux_exact m e :
  2 ^ 52 <= Z.pos m < 2 ^ 53 -> -1074 <= e <= 971 ->
  binary_round_aux prec emax false (Z.pos m) e loc_Exact = S754_finite false m e.
Proof.
  intros Hm He. unfold binary_round_aux, shr_fexp.
  rewrite (Zdigits2_unique (Z.pos m) 53) by lia.
  rewrite fexp_normal by lia.
  replace (53 + e - 53 - e) with 0 by lia.
  cbn [shr shr_record_of_loc shr_m loc_of_shr_record round_nearest_even].
  rewrite (Zdigits2_unique (Z.pos m) 53) by lia.
  rewrite fexp_normal by lia.
  replace (53 + e - 53 - e) with 0 by lia.
  cbn [shr shr_record_of_loc shr_m].
  replace (e <=? emax - prec) with true; [done|].
  symmetry. apply Z.leb_le. unfold emax, prec. lia.
Qed.

Lemma pos_iter_xO m d : Z.pos (Pos.iter xO m d) = Z.pos m * 2 ^ Z.pos d.
Proof.
  induction d as [|d IH] using Pos.peano_ind.
  - cbn. lia.
  - rewrite Pos.iter_succ, Pos2Z.inj_succ, Z.pow_succ_r by lia.
    rewrite Pos2Z.inj_xO, IH. ring.
Qed.

(** [float(n)] for [0 < n < 2^53] is [n] itself, written with 53 digits. *)
Lemma of_int_exact_value n :
  0 < n < 2 ^ 53 ->
  exists M E,
    of_int n = Ok (S754_finite false M E)
    /\ 2 ^ 52 <= Z.pos M < 2 ^ 53
    /\ E = Zdigits2 n - 53
    /\ Z.pos M = n * 2 ^ (- E).
Proof.
  intros Hn. destruct n as [|p|p]; try lia.
  pose proof (Zdigits2_bounds (Z.pos p) ltac:(lia)) as Hb.
  pose proof (Zdigits2_le (Z.pos p) 53 Hn ltac:(lia)) as Hd.
  pose proof (Zdigits2_pos (Z.pos p) ltac:(lia)) as Hd'.
  unfold of_int, binary_normalize, binary_round.
  change (Z.pos (digits2_pos p)) with (Zdigits2 (Z.pos p)).
  set (d := Zdigits2 (Z.pos p)) in *.
  rewrite Z.add_0_r, fexp_normal by lia.
  assert (Hal : exists mz, shl_align p 0 (d - 53) = (mz, d - 53)
                           /\ Z.pos mz = Z.pos p * 2 ^ (53 - d)).
  { unfold shl_align. rewrite Z.sub_0_r.
    destruct (d - 53) as [|q|q] eqn:Ed; try lia.
    - exists p. split; [done|]. replace (53 - d) with 0 by lia. lia.
    - eexists. split; [done|]. rewrite pos_iter_xO. do 2 f_equal. lia. }
  destruct Hal as (mz & -> & Hmz).
  assert (Hp : 0 < 2 ^ (53 - d)) by (apply pow2_pos; lia).
  assert (Hmzb : 2 ^ 52 <= Z.pos mz < 2 ^ 53).
  { rewrite Hmz. split.
    - replace (2 ^ 52) with (2 ^ (d - 1) * 2 ^ (53 - d)).
      + apply Z.mul_le_mono_nonneg_r; lia.
      + rewrite <- pow2_split by lia. f_equal. lia.
    - replace (2 ^ 53) with (2 ^ d * 2 ^ (53 - d)).
      + apply Z.mul_lt_mono_pos_r; lia.
      + rewrite <- pow2_split by lia. f_equal. lia. }
  rewrite (binary_round_aux_exact mz (d - 53)) by lia.
  exists mz, (d - 53). split; [done|]. split; [done|]. split; [done|].
  rewrite Hmz. do 2 f_equal. lia.
Qed.

(** [n / y] for a positive int and a positive normal float. *)
Lemma int_div_float_normal n M1 E1 :
  0 < n < 2 ^ 53 -> 2 ^ 52 <= Z.pos M1 < 2 ^ 53 ->
  E1 <= 0 -> Zdigits2 n - E1 <= 104 ->
  exists M2 E2,
    int_div_float n (S754_finite false M1 E1) = Ok (S754_finite false M2 E2)
    /\ 2 ^ 52 <= Z.pos M2 < 2 ^ 53
    /\ E2 <= 0
    /\ 2 ^ 53 * Z.abs (Z.pos M2 * Z.pos M1 - n * 2 ^ (- E1) * 2 ^ (- E2))
       <= Z.pos M2 * Z.pos M1.
Proof.
  intros Hn HM1 HE1 Hd.
  destruct (of_int_exact_value n Hn) as (Mw & Ew & Hof & HMw & HEw & Hval).
  pose proof (Zdigits2_pos n ltac:(lia)) as Hdn.
  pose proof (Zdigits2_le n 53 Hn ltac:(lia)) as Hdn'.
  unfold int_div_float. rewrite Hof. cbn [obind is_zero SFdiv xorb].
  unfold SFdiv_core_binary.
  rewrite (Zdigits2_unique (Z.pos Mw) 53), (Zdigits2_unique (Z.pos M1) 53) by lia.
  replace (53 + Ew - (53 + E1)) with (Ew - E1) by lia.
  rewrite fexp_normal by lia.
  replace (Z.min (Ew - E1 - 53) (Ew - E1)) with (Ew - E1 - 53) by lia.
  replace (Ew - E1 - (Ew - E1 - 53)) with 53 by lia.
  rewrite Z.shiftl_mul_pow2 by lia.
  set (X := Z.pos Mw * 2 ^ 53).
  pose proof (Z_div_mod X (Z.pos M1) ltac:(lia)) as Hde.
  destruct (Z.div_eucl X (Z.pos M1)) as [q r] eqn:Eqr.
  assert (Hq : q = X / Z.pos M1) by (unfold Z.div; rewrite Eqr; done).
  assert (Hr : r = X mod Z.pos M1) by (unfold Z.modulo; rewrite Eqr; done).
  destruct Hde as [HXqr Hrb].
  rewrite new_location_is_location_of by lia. rewrite Hr.
  assert (Hqlo : 2 ^ 52 <= q).
  { rewrite Hq. apply Z.div_le_lower_bound; [lia|]. unfold X. nia. }
  assert (Hqhi : q < 2 ^ 54).
  { rewrite Hq. apply Z.div_lt_upper_bound; [lia|]. unfold X.
    change (2 ^ 54) with (2 * 2 ^ 53). nia. }
  assert (Hdq : 53 <= Zdigits2 q <= 54).
  { pose proof (Zdigits2_bounds q ltac:(lia)) as Hbq.
    split.
    - destruct (Z.le_gt_cases 53 (Zdigits2 q)) as [|Hlt]; [done|].
      assert (2 ^ Zdigits2 q <= 2 ^ 52) by (apply Z.pow_le_mono_r; lia). lia.
    - apply Zdigits2_le; lia. }
  destruct (binary_round_aux_normal q (Ew - E1 - 53) X (Z.pos M1))
    as (M & E & Hrun & HM & HE & Herr); [lia|unfold X; lia|done|lia|lia|].
  exists M, E. split; [by rewrite Hrun|]. split; [done|]. split; [lia|].
  set (t := E - (Ew - E1 - 53)) in *.
  assert (Ht : 0 <= t) by (unfold t; lia).
  assert (Hsc : 2 ^ (- E1) * 2 ^ (- E) * 2 ^ t = 2 ^ (- Ew) * 2 ^ 53).
  { rewrite <- !pow2_split by lia. f_equal. unfold t. lia. }
  assert (HT : 0 < 2 ^ t) by (apply pow2_pos; lia).
  set (T := 2 ^ t) in *. set (D1 := 2 ^ (- E1)) in *. set (D2 := 2 ^ (- E)) in *.
  assert (H1 : Z.pos M * T * Z.pos M1 - X = T * (Z.pos M * Z.pos M1 - n * D1 * D2)).
  { unfold X. rewrite Hval.
    replace (n * 2 ^ (- Ew) * 2 ^ 53) with (n * (2 ^ (- Ew) * 2 ^ 53)) by ring.
    rewrite <- Hsc. ring. }
  rewrite H1, Z.abs_mul, (Z.abs_eq T) in Herr by lia.
  replace (Z.pos M * T * Z.pos M1) with (T * (Z.pos M * Z.pos M1)) in Herr by ring.
  replace (2 ^ 53 * (T * Z.abs (Z.pos M * Z.pos M1 - n * D1 * D2)))
    with (T * (2 ^ 53 * Z.abs (Z.pos M * Z.pos M1 - n * D1 * D2))) in Herr by ring.
  apply Z.mul_le_mono_pos_l in Herr; lia.
Qed.

(** [n * y] for a positive int and a positive normal float. *)
Lemma int_mul_float_normal n M1 E1 :
  0 < n < 2 ^ 53 -> 2 ^ 52 <= Z.pos M1 < 2 ^ 53 ->
  -1000 <= E1 -> Zdigits2 n + E1 <= -1 ->
  exists M3 E3,
    int_mul_float n (S754_finite false M1 E1) = Ok (S754_finite false M3 E3)
    /\ 2 ^ 52 <= Z.pos M3 < 2 ^ 53
    /\ E3 <= 0
    /\ 2 ^ 53 * Z.abs (Z.pos M3 * 2 ^ (- E1) - n * Z.pos M1 * 2 ^ (- E3))
       <= Z.pos M3 * 2 ^ (- E1).
Proof.
  intros Hn HM1 HE1 Hd.
  destruct (of_int_exact_value n Hn) as (Mh & Eh & Hof & HMh & HEh & Hval).
  pose proof (Zdigits2_pos n ltac:(lia)) as Hdn.
  pose proof (Zdigits2_le n 53 Hn ltac:(lia)) as Hdn'.
  unfold int_mul_float. rewrite Hof. cbn [obind SFmul xorb].
  rewrite Pos2Z.inj_mul.
  set (X := Z.pos Mh * Z.pos M1).
  assert (HXlo : 2 ^ 104 <= X).
  { unfold X. change (2 ^ 104) with (2 ^ 52 * 2 ^ 52). nia. }
  assert (HXhi : X < 2 ^ 106).
  { unfold X. change (2 ^ 106) with (2 ^ 53 * 2 ^ 53). nia. }
  assert (Hdx : 105 <= Zdigits2 X <= 106).
  { pose proof (Zdigits2_bounds X ltac:(lia)) as Hbx.
    split.
    - destruct (Z.le_gt_cases 105 (Zdigits2 X)) as [|Hlt]; [done|].
      assert (2 ^ Zdigits2 X <= 2 ^ 104) by (apply Z.pow_le_mono_r; lia). lia.
    - apply Zdigits2_le; lia. }
  destruct (binary_round_aux_normal X (Eh + E1) X 1)
    as (M & E & Hrun & HM & HE & Herr);
    [lia|lia|by rewrite Z.div_1_r|lia|lia|].
  rewrite Z.mod_1_r in Hrun. change (location_of 0 1) with loc_Exact in Hrun.
  exists M, E. split; [by rewrite Hrun|]. split; [done|]. split; [lia|].
  rewrite !Z.mul_1_r in Herr.
  set (t := E - (Eh + E1)) in *.
  assert (Ht : 0 <= t) by (unfold t; lia).
  assert (Hsc : 2 ^ (- E) * 2 ^ t = 2 ^ (- Eh) * 2 ^ (- E1)).
  { rewrite <- !pow2_split by lia. f_equal. unfold t. lia. }
  assert (HDh : 0 < 2 ^ (- Eh)) by (apply pow2_pos; lia).
  assert (HD3 : 0 < 2 ^ (- E)) by (apply pow2_pos; lia).
  set (T := 2 ^ t) in *. set (D1 := 2 ^ (- E1)) in *.
  set (D3 := 2 ^ (- E)) in *. set (Dh := 2 ^ (- Eh)) in *.
  assert (H1 : D3 * (Z.pos M * T - X) = Dh * (Z.pos M * D1 - n * Z.pos M1 * D3)).
  { unfold X. rewrite Hval.
    replace (D3 * (Z.pos M * T - n * Dh * Z.pos M1))
      with (Z.pos M * (D3 * T) - n * Dh * Z.pos M1 * D3) by ring.
    rewrite Hsc. ring. }
  assert (H2 : D3 * (Z.pos M * T) = Dh * (Z.pos M * D1)).
  { replace (D3 * (Z.pos M * T)) with (Z.pos M * (D3 * T)) by ring.
    rewrite Hsc. ring. }
  apply (Z.mul_le_mono_nonneg_l _ _ D3) in Herr; [|lia].
  replace (D3 * (2 ^ 53 * Z.abs (Z.pos M * T - X)))
    with (2 ^ 53 * Z.abs (D3 * (Z.pos M * T - X))) in Herr
    by (rewrite Z.abs_mul, (Z.abs_eq D3) by lia; ring).
  rewrite H1, H2, Z.abs_mul, (Z.abs_eq Dh) in Herr by lia.
  replace (2 ^ 53 * (Dh * Z.abs (Z.pos M * D1 - n * Z.pos M1 * D3)))
    with (Dh * (2 ^ 53 * Z.abs (Z.pos M * D1 - n * Z.pos M1 * D3))) in Herr by ring.
  apply Z.mul_le_mono_pos_l in Herr; lia.
Qed.

(** [int(x)] on a positive float with a negative exponent. *)
Lemma to_int_floor M E :
  E <= 0 -> to_int (S754_finite false M E) = Ok (Z.pos M / 2 ^ (- E)).
Proof.
  intros HE. unfold to_int. destruct (0 <=? E) eqn:E0.
  - apply Z.leb_le in E0. replace E with 0 by lia.
    rewrite Z.shiftl_0_r. cbn. by rewrite Z.div_1_r.
  - rewrite Z.shiftr_div_pow2 by lia. done.
Qed.

(** ** From the rounding errors to whole pixels *)

Lemma floor_within (m d e w : Z) :
  0 < d -> 0 < w -> Z.abs (m * w - e * d) < d ->
  0 <= e - (m / d) * w <= w.
Proof.
  intros Hd Hw Habs.
  pose proof (Z.div_mod m d ltac:(lia)) as Hdm.
  pose proof (Z.mod_pos_bound m d Hd) as Hr.
  set (q := m / d) in *. set (r := m mod d) in *. clearbody q r.
  assert (H1 : q * w * d <= m * w).
  { replace (q * w * d) with ((d * q) * w) by ring.
    apply Z.mul_le_mono_nonneg_r; lia. }
  assert (H2 : m * w < (q + 1) * w * d).
  { replace ((q + 1) * w * d) with ((d * q + d) * w) by ring.
    apply Z.mul_lt_mono_pos_r; lia. }
  split.
  - assert (Hlt : d * (q * w) < d * (e + 1)) by lia.
    apply Z.mul_lt_mono_pos_l in Hlt; lia.
  - assert (Hlt : d * (e - 1) < d * ((q + 1) * w)) by lia.
    apply Z.mul_lt_mono_pos_l in Hlt; lia.
Qed.

Lemma width_bound_error_gen (N M1 D1 M2 D2 W h w : Z) :
  1 < N ->
  0 < M1 -> 0 < D1 -> 0 < M2 -> 0 < D2 -> 0 < W -> 0 < h -> 0 < w ->
  2 * (W * h) < N - 1 ->
  N * Z.abs (M1 * h - w * D1) <= M1 * h ->
  N * Z.abs (M2 * M1 - W * D1 * D2) <= M2 * M1 ->
  Z.abs (M2 * w - W * h * D2) < D2.
Proof.
  intros HN HM1 HD1 HM2 HD2 HW Hh Hw Hsize H1 H2.
  set (A := M1 * h) in *. set (B := w * D1) in *.
  set (P := M2 * M1) in *. set (R := W * D1 * D2) in *.
  assert (HA : 0 < A) by (unfold A; apply Z.mul_pos_pos; lia).
  assert (HP : 0 < P) by (unfold P; apply Z.mul_pos_pos; lia).
  assert (HT : 0 < M1 * D1) by (apply Z.mul_pos_pos; lia).
  assert (HTT : 0 < M1 * D1 * D2) by (apply Z.mul_pos_pos; lia).
  assert (Hsplit : P * B - R * A = (M1 * D1) * (M2 * w - W * h * D2))
    by (unfold P, B, R, A; ring).
  assert (HRA : R * A = W * h * (M1 * D1 * D2)) by (unfold R, A; ring).
  assert (HYeq : Z.abs (P * B - R * A)
                 = (M1 * D1) * Z.abs (M2 * w - W * h * D2)).
  { rewrite Hsplit, Z.abs_mul, (Z.abs_eq (M1 * D1)) by lia. done. }
  set (Y := Z.abs (P * B - R * A)) in *.
  assert (HY : 0 <= Y) by apply Z.abs_nonneg.
  clearbody A B P R.
  assert (Hsum : N * Y <= 2 * (P * A)).
  { unfold Y. replace (P * B - R * A) with (P * (B - A) + A * (P - R)) by ring.
    pose proof (Z.abs_triangle (P * (B - A)) (A * (P - R))) as Htri.
    rewrite !Z.abs_mul, (Z.abs_eq P), (Z.abs_eq A) in Htri by lia.
    replace (Z.abs (B - A)) with (Z.abs (A - B)) in Htri by lia.
    assert (Ha : P * (N * Z.abs (A - B)) <= P * A)
      by (apply Z.mul_le_mono_nonneg_l; lia).
    assert (Hb : A * (N * Z.abs (P - R)) <= A * P)
      by (apply Z.mul_le_mono_nonneg_l; lia).
    set (u := Z.abs (A - B)) in *. set (v := Z.abs (P - R)) in *.
    set (z := Z.abs (P * (B - A) + A * (P - R))) in *. clearbody u v z.
    assert (N * z <= N * (P * u + A * v)) by (apply Z.mul_le_mono_nonneg_l; lia).
    replace (N * (P * u + A * v)) with (P * (N * u) + A * (N * v)) in * by ring.
    replace (A * P) with (P * A) in Hb by ring. lia. }
  clearbody Y.
  assert (HPR : (N - 1) * P <= N * R) by lia.
  assert (Hbig : (N - 1) * (P * A) <= N * (R * A)).
  { replace ((N - 1) * (P * A)) with (((N - 1) * P) * A) by ring.
    replace (N * (R * A)) with ((N * R) * A) by ring.
    apply Z.mul_le_mono_nonneg_r; lia. }
  rewrite HRA in Hbig.
  set (T := M1 * D1 * D2) in *.
  assert (Hchain : N * ((N - 1) * Y) <= N * (2 * (W * h * T))).
  { replace (N * ((N - 1) * Y)) with ((N - 1) * (N * Y)) by ring.
    assert ((N - 1) * (N * Y) <= (N - 1) * (2 * (P * A)))
      by (apply Z.mul_le_mono_nonneg_l; lia).
    lia. }
  apply Z.mul_le_mono_pos_l in Hchain; [|lia].
  assert (Hlt : (N - 1) * Y < (N - 1) * T).
  { assert (2 * (W * h) * T < (N - 1) * T)
      by (apply Z.mul_lt_mono_pos_r; lia).
    lia. }
  apply Z.mul_lt_mono_pos_l in Hlt; [|lia].
  rewrite HYeq in Hlt. unfold T in Hlt.
  replace (M1 * D1 * D2) with ((M1 * D1) * D2) in Hlt by ring.
  apply Z.mul_lt_mono_pos_l in Hlt; [exact Hlt|lia].
Qed.

Lemma height_bound_error_gen (N M1 D1 M3 D3 H h w : Z) :
  1 < N ->
  0 < M1 -> 0 < D1 -> 0 < M3 -> 0 < D3 -> 0 < H -> 0 < h -> 0 < w ->
  2 * N * (H * w) < (N - 1) * (N - 1) ->
  N * Z.abs (M1 * h - w * D1) <= M1 * h ->
  N * Z.abs (M3 * D1 - H * M1 * D3) <= M3 * D1 ->
  Z.abs (M3 * h - H * w * D3) < D3.
Proof.
  intros HN HM1 HD1 HM3 HD3 HH Hh Hw Hsize H1 H2.
  set (A := M1 * h) in *. set (B := w * D1) in *.
  set (P := M3 * D1) in *. set (R := H * M1 * D3) in *.
  set (G := H * D3).
  assert (HA : 0 < A) by (unfold A; apply Z.mul_pos_pos; lia).
  assert (HB : 0 < B) by (unfold B; apply Z.mul_pos_pos; lia).
  assert (HP : 0 < P) by (unfold P; apply Z.mul_pos_pos; lia).
  assert (HG : 0 < G) by (unfold G; apply Z.mul_pos_pos; lia).
  assert (HDD : 0 < D1 * D3) by (apply Z.mul_pos_pos; lia).
  assert (Hsplit : D1 * (M3 * h - H * w * D3) = (P - R) * h + G * (A - B))
    by (unfold P, R, A, B, G; ring).
  assert (HRh : R * h = G * A) by (unfold R, A, G; ring).
  assert (HGB : G * B = (D1 * D3) * (H * w)) by (unfold G, B; ring).
  set (Y := Z.abs (M3 * h - H * w * D3)) in *.
  assert (HY : 0 <= Y) by apply Z.abs_nonneg.
  assert (HYeq : D1 * Y = Z.abs ((P - R) * h + G * (A - B))).
  { unfold Y. rewrite <- Hsplit, Z.abs_mul, (Z.abs_eq D1) by lia. done. }
  clearbody A B P R G Y.
  assert (Hsum : N * (D1 * Y) <= P * h + G * A).
  { rewrite HYeq.
    pose proof (Z.abs_triangle ((P - R) * h) (G * (A - B))) as Htri.
    rewrite !Z.abs_mul, (Z.abs_eq h), (Z.abs_eq G) in Htri by lia.
    assert (Ha : (N * Z.abs (P - R)) * h <= P * h)
      by (apply Z.mul_le_mono_nonneg_r; lia).
    assert (Hb : G * (N * Z.abs (A - B)) <= G * A)
      by (apply Z.mul_le_mono_nonneg_l; lia).
    set (u := Z.abs (A - B)) in *. set (v := Z.abs (P - R)) in *.
    set (z := Z.abs ((P - R) * h + G * (A - B))) in *. clearbody u v z.
    assert (N * z <= N * (v * h + G * u)) by (apply Z.mul_le_mono_nonneg_l; lia).
    replace (N * (v * h + G * u)) with (N * v * h + G * (N * u)) in * by ring.
    lia. }
  assert (HPR : (N - 1) * P <= N * R) by lia.
  assert (HAB : (N - 1) * A <= N * B) by lia.
  assert (Hs1 : (N - 1) * (P * h) <= N * (G * A)).
  { rewrite <- HRh.
    replace ((N - 1) * (P * h)) with (((N - 1) * P) * h) by ring.
    replace (N * (R * h)) with ((N * R) * h) by ring.
    apply Z.mul_le_mono_nonneg_r; lia. }
  assert (Hs3 : (N - 1) * (G * A) <= N * (G * B)).
  { replace ((N - 1) * (G * A)) with (G * ((N - 1) * A)) by ring.
    replace (N * (G * B)) with (G * (N * B)) by ring.
    apply Z.mul_le_mono_nonneg_l; lia. }
  set (GA := G * A) in *. set (Ph := P * h) in *. set (DY := D1 * Y) in *.
  rewrite HGB in Hs3. set (DD := D1 * D3) in *. set (Hw' := H * w) in *.
  assert (HGA : 0 < GA) by (unfold GA; apply Z.mul_pos_pos; lia).
  (* (N-1) N DY <= (N-1) (Ph + GA) <= N GA + (N-1) GA <= 2 N GA *)
  assert (Hc1 : (N - 1) * (N * DY) <= (N - 1) * (Ph + GA))
    by (apply Z.mul_le_mono_nonneg_l; lia).
  assert (Hc2 : (N - 1) * (N * DY) <= 2 * N * GA) by lia.
  assert (Hc3 : (N - 1) * ((N - 1) * (N * DY)) <= (N - 1) * (2 * N * GA))
    by (apply Z.mul_le_mono_nonneg_l; lia).
  assert (Hc4 : 2 * N * ((N - 1) * GA) <= 2 * N * (N * (DD * Hw')))
    by (apply Z.mul_le_mono_nonneg_l; lia).
  assert (Hall : N * ((N - 1) * (N - 1) * DY) <= N * (2 * N * (DD * Hw'))).
  { replace (N * ((N - 1) * (N - 1) * DY)) with ((N - 1) * ((N - 1) * (N * DY))) by ring.
    replace ((N - 1) * (2 * N * GA)) with (2 * N * ((N - 1) * GA)) in Hc3 by ring.
    lia. }
  apply Z.mul_le_mono_pos_l in Hall; [|lia].
  assert (Hlt : 2 * N * (DD * Hw') < (N - 1) * (N - 1) * DD).
  { replace (2 * N * (DD * Hw')) with ((2 * N * Hw') * DD) by ring.
    apply Z.mul_lt_mono_pos_r; lia. }
  assert (HNN : 0 < (N - 1) * (N - 1)) by (apply Z.mul_pos_pos; lia).
  assert (Hfin : ((N - 1) * (N - 1)) * DY < ((N - 1) * (N - 1)) * DD) by lia.
  apply Z.mul_lt_mono_pos_l in Hfin; [|lia].
  unfold DY, DD in Hfin. apply Z.mul_lt_mono_pos_l in Hfin; lia.
Qed.

(** The quotient depends on the ratio only. *)
Lemma int_truediv_ratio a b a' b' :
  0 < a < 2 ^ 51 -> 0 < b < 2 ^ 51 -> 0 < a' < 2 ^ 51 -> 0 < b' < 2 ^ 51 ->
  a * b' = a' * b ->
  int_truediv a b = int_truediv a' b'.
Proof.
  intros Ha Hb Ha' Hb' Heq.
  destruct (int_truediv_first_shift a b Ha Hb) as (m1 & t1 & Ht1 & -> & Hh1 & Hm1).
  destruct (int_truediv_first_shift a' b' Ha' Hb') as (m2 & t2 & Ht2 & -> & Hh2 & Hm2).
  (* the two exponents agree *)
  assert (Hbin : forall a b m t, 0 < b -> 0 <= t -> holds m (a * 2 ^ t) b ->
            2 ^ 52 <= shr_m m < 2 ^ 53 ->
            2 ^ 52 * b <= a * 2 ^ t < 2 ^ 53 * b).
  { clear. intros a b m t Hb Ht (_ & HX & Hm & _) Hr. rewrite Hm in Hr.
    pose proof (Z.div_mod (a * 2 ^ t) b ltac:(lia)) as Hdm.
    pose proof (Z.mod_pos_bound (a * 2 ^ t) b Hb) as Hrr.
    set (q := a * 2 ^ t / b) in *. set (r := (a * 2 ^ t) mod b) in *.
    clearbody q r. nia. }
  assert (Ht1' : 0 <= t1).
  { pose proof (Zdigits2_le a 51 Ha ltac:(lia)).
    pose proof (Zdigits2_pos b ltac:(lia)). lia. }
  assert (Ht2' : 0 <= t2).
  { pose proof (Zdigits2_le a' 51 Ha' ltac:(lia)).
    pose proof (Zdigits2_pos b' ltac:(lia)). lia. }
  clear Ht1 Ht2.
  pose proof (Hbin a b m1 t1 ltac:(lia) Ht1' Hh1 Hm1) as B1.
  pose proof (Hbin a' b' m2 t2 ltac:(lia) Ht2' Hh2 Hm2) as B2.
  assert (Ht : t1 = t2).
  { set (c := a * b') in *.
    assert (Hk1 : 2 ^ 52 * (b * b') <= c * 2 ^ t1 < 2 ^ 53 * (b * b')).
    { unfold c. split.
      - replace (2 ^ 52 * (b * b')) with ((2 ^ 52 * b) * b') by ring.
        replace (a * b' * 2 ^ t1) with ((a * 2 ^ t1) * b') by ring.
        apply Z.mul_le_mono_nonneg_r; lia.
      - replace (2 ^ 53 * (b * b')) with ((2 ^ 53 * b) * b') by ring.
        replace (a * b' * 2 ^ t1) with ((a * 2 ^ t1) * b') by ring.
        apply Z.mul_lt_mono_pos_r; lia. }
    assert (Hk2 : 2 ^ 52 * (b * b') <= c * 2 ^ t2 < 2 ^ 53 * (b * b')).
    { rewrite Heq. split.
      - replace (2 ^ 52 * (b * b')) with ((2 ^ 52 * b') * b) by ring.
        replace (a' * b * 2 ^ t2) with ((a' * 2 ^ t2) * b) by ring.
        apply Z.mul_le_mono_nonneg_r; lia.
      - replace (2 ^ 53 * (b * b')) with ((2 ^ 53 * b') * b) by ring.
        replace (a' * b * 2 ^ t2) with ((a' * 2 ^ t2) * b) by ring.
        apply Z.mul_lt_mono_pos_r; lia. }
    assert (Hc : 0 < c) by (unfold c; apply Z.mul_pos_pos; lia).
    assert (Hbb : 0 < b * b') by (apply Z.mul_pos_pos; lia).
    clearbody c. change (2 ^ 53) with (2 * 2 ^ 52) in *.
    destruct (Z.lt_trichotomy t1 t2) as [Hlt|[Heqt|Hgt]]; [|done|].
    - assert (2 * 2 ^ t1 <= 2 ^ t2).
      { rewrite <- Z.pow_succ_r by lia. apply Z.pow_le_mono_r; lia. }
      assert (c * (2 * 2 ^ t1) <= c * 2 ^ t2) by (apply Z.mul_le_mono_nonneg_l; lia).
      lia.
    - assert (2 * 2 ^ t2 <= 2 ^ t1).
      { rewrite <- Z.pow_succ_r by lia. apply Z.pow_le_mono_r; lia. }
      assert (c * (2 * 2 ^ t2) <= c * 2 ^ t1) by (apply Z.mul_le_mono_nonneg_l; lia).
      lia. }
  subst t2.
  assert (m1 = m2); [|by subst].
  apply (holds_unique m1 m2 _ _ _ _ Hh1 Hh2).
  replace (a * 2 ^ t1 * b') with ((a * b') * 2 ^ t1) by ring.
  rewrite Heq. ring.
Qed.

(** ** Comparison of two rounded ratios *)

(** [x < y] on two positive normal floats with exponents at most 0. *)
Lemma SFltb_normal M1 E1 M2 E2 :
  2 ^ 52 <= Z.pos M1 < 2 ^ 53 -> 2 ^ 52 <= Z.pos M2 < 2 ^ 53 ->
  E1 <= 0 -> E2 <= 0 ->
  SFltb (S754_finite false M1 E1) (S754_finite false M2 E2)
  = (Z.pos M1 * 2 ^ (- E2) <? Z.pos M2 * 2 ^ (- E1)).
Proof.
  intros HM1 HM2 HE1 HE2. unfold SFltb, SFcompare.
  assert (HD1 : 0 < 2 ^ (- E1)) by (apply pow2_pos; lia).
  assert (HD2 : 0 < 2 ^ (- E2)) by (apply pow2_pos; lia).
  change (2 ^ 53) with (2 * 2 ^ 52) in *.
  destruct (Z.compare_spec E1 E2) as [Heq|Hlt|Hgt].
  - subst E2. change (Pos.compare_cont Eq M1 M2) with (Z.pos M1 ?= Z.pos M2).
    destruct (Z.compare_spec (Z.pos M1) (Z.pos M2)) as [Hm|Hm|Hm];
      symmetry; [apply Z.ltb_ge|apply Z.ltb_lt|apply Z.ltb_ge].
    + rewrite Hm. lia.
    + apply Z.mul_lt_mono_pos_r; lia.
    + apply Z.mul_le_mono_nonneg_r; lia.
  - symmetry. apply Z.ltb_lt.
    assert (Hp : 2 * 2 ^ (- E2) <= 2 ^ (- E1)).
    { rewrite <- Z.pow_succ_r by lia. apply Z.pow_le_mono_r; lia. }
    assert (Z.pos M1 * 2 ^ (- E2) < (2 * 2 ^ 52) * 2 ^ (- E2))
      by (apply Z.mul_lt_mono_pos_r; lia).
    assert (2 ^ 52 * (2 * 2 ^ (- E2)) <= 2 ^ 52 * 2 ^ (- E1))
      by (apply Z.mul_le_mono_nonneg_l; lia).
    assert (2 ^ 52 * 2 ^ (- E1) <= Z.pos M2 * 2 ^ (- E1))
      by (apply Z.mul_le_mono_nonneg_r; lia).
    lia.
  - symmetry. apply Z.ltb_ge.
    assert (Hp : 2 * 2 ^ (- E1) <= 2 ^ (- E2)).
    { rewrite <- Z.pow_succ_r by lia. apply Z.pow_le_mono_r; lia. }
    assert (Z.pos M2 * 2 ^ (- E1) < (2 * 2 ^ 52) * 2 ^ (- E1))
      by (apply Z.mul_lt_mono_pos_r; lia).
    assert (2 ^ 52 * (2 * 2 ^ (- E1)) <= 2 ^ 52 * 2 ^ (- E2))
      by (apply Z.mul_le_mono_nonneg_l; lia).
    assert (2 ^ 52 * 2 ^ (- E2) <= Z.pos M1 * 2 ^ (- E2))
      by (apply Z.mul_le_mono_nonneg_r; lia).
    lia.
Qed.

(** Two ratios of ints below [2^24] that differ round to floats that
    differ the same way. *)
Lemma rounded_ratios_lt (N M D a b M' D' a' b' : Z) :
  1 < N ->
  0 < M -> 0 < D -> 0 < a -> 0 < b -> 0 < M' -> 0 < D' -> 0 < a' -> 0 < b' ->
  2 * (a * b') < N - 1 ->
  N * Z.abs (M * b - a * D) <= M * b ->
  N * Z.abs (M' * b' - a' * D') <= M' * b' ->
  a * b' < a' * b ->
  M * D' < M' * D.
Proof.
  intros HN HM HD Ha Hb HM' HD' Ha' Hb' Hsize H1 H2 Hlt.
  (* (N - 1) M b <= N a D   and   N a' D' <= (N + 1) M' b' *)
  assert (Hu : (N - 1) * (M * b) <= N * (a * D)).
  { set (P := M * b) in *. set (R := a * D) in *. clearbody P R. lia. }
  assert (Hl : N * (a' * D') <= (N + 1) * (M' * b')).
  { set (P := M' * b') in *. set (R := a' * D') in *. clearbody P R. lia. }
  set (K := D * D') in *.
  assert (HK : 0 < K) by (apply Z.mul_pos_pos; lia).
  (* multiply out to the common scale b b' *)
  assert (S1 : (N - 1) * (M * D' * (b * b')) <= N * (a * b') * K).
  { replace ((N - 1) * (M * D' * (b * b'))) with (((N - 1) * (M * b)) * (D' * b')) by ring.
    replace (N * (a * b') * K) with ((N * (a * D)) * (D' * b')) by (unfold K; ring).
    apply Z.mul_le_mono_nonneg_r; [|done].
    apply Z.mul_nonneg_nonneg; lia. }
  assert (S2 : N * (a' * b) * K <= (N + 1) * (M' * D * (b * b'))).
  { replace (N * (a' * b) * K) with ((N * (a' * D')) * (D * b)) by (unfold K; ring).
    replace ((N + 1) * (M' * D * (b * b'))) with (((N + 1) * (M' * b')) * (D * b)) by ring.
    apply Z.mul_le_mono_nonneg_r; [|done].
    apply Z.mul_nonneg_nonneg; lia. }
  set (u := a * b') in *. set (v := a' * b) in *.
  set (L := M * D' * (b * b')) in *. set (R := M' * D * (b * b')) in *.
  assert (Hbb : 0 < b * b') by (apply Z.mul_pos_pos; lia).
  assert (HLp : 0 < L) by (unfold L; repeat apply Z.mul_pos_pos; lia).
  assert (HRp : 0 < R) by (unfold R; repeat apply Z.mul_pos_pos; lia).
  (* (N+1) u < (N-1) v *)
  assert (Huv : (N + 1) * u < (N - 1) * v).
  { assert ((N - 1) * (u + 1) <= (N - 1) * v)
      by (apply Z.mul_le_mono_nonneg_l; lia).
    lia. }
  (* chain: (N-1)(N+1) L <= (N+1) N u K < (N-1) N v K <= (N-1)(N+1) R *)
  assert (Hk1 : (N + 1) * ((N - 1) * L) <= (N + 1) * (N * u * K))
    by (apply Z.mul_le_mono_nonneg_l; lia).
  assert (Hk2 : (N - 1) * (N * v * K) <= (N - 1) * ((N + 1) * R))
    by (apply Z.mul_le_mono_nonneg_l; lia).
  assert (Hk3 : (N * K) * ((N + 1) * u) < (N * K) * ((N - 1) * v)).
  { apply Z.mul_lt_mono_pos_l; [apply Z.mul_pos_pos; lia|done]. }
  assert (Hfin : ((N - 1) * (N + 1)) * L < ((N - 1) * (N + 1)) * R).
  { replace ((N - 1) * (N + 1) * L) with ((N + 1) * ((N - 1) * L)) by ring.
    replace ((N - 1) * (N + 1) * R) with ((N - 1) * ((N + 1) * R)) by ring.
    replace ((N + 1) * (N * u * K)) with ((N * K) * ((N + 1) * u)) in Hk1 by ring.
    replace ((N - 1) * (N * v * K)) with ((N * K) * ((N - 1) * v)) in Hk2 by ring.
    lia. }
  apply Z.mul_lt_mono_pos_l in Hfin; [|apply Z.mul_pos_pos; lia].
  unfold L, R in Hfin. apply Z.mul_lt_mono_pos_r in Hfin; lia.
Qed.

(** On ints below [2^24] the comparison of two rounded ratios is the
    comparison of the ratios. *)
Lemma gt_rounded_ratios (a b a' b' : Z) :
  0 < a < 2 ^ 24 -> 0 < b < 2 ^ 24 -> 0 < a' < 2 ^ 24 -> 0 < b' < 2 ^ 24 ->
  exists x x',
    int_truediv a b = Ok x /\ int_truediv a' b' = Ok x'
    /\ gt x' x = (a * b' <? a' * b).
Proof.
  intros Ha Hb Ha' Hb'.
  assert (Hp24 : 2 ^ 24 < 2 ^ 51) by done.
  destruct (int_truediv_normal a b ltac:(lia) ltac:(lia))
    as (M & E & Hx & HM & HE & Herr).
  destruct (int_truediv_normal a' b' ltac:(lia) ltac:(lia))
    as (M' & E' & Hx' & HM' & HE' & Herr').
  pose proof (Zdigits2_pos a ltac:(lia)). pose proof (Zdigits2_le a 24 Ha ltac:(lia)).
  pose proof (Zdigits2_pos b ltac:(lia)). pose proof (Zdigits2_le b 24 Hb ltac:(lia)).
  pose proof (Zdigits2_pos a' ltac:(lia)). pose proof (Zdigits2_le a' 24 Ha' ltac:(lia)).
  pose proof (Zdigits2_pos b' ltac:(lia)). pose proof (Zdigits2_le b' 24 Hb' ltac:(lia)).
  assert (HD : 0 < 2 ^ (- E)) by (apply pow2_pos; lia).
  assert (HD' : 0 < 2 ^ (- E')) by (apply pow2_pos; lia).
  assert (Hsz : forall u v, 0 < u < 2 ^ 24 -> 0 < v < 2 ^ 24 -> 2 * (u * v) < 2 ^ 53 - 1).
  { clear. intros u v Hu Hv.
    assert (u * v < 2 ^ 24 * 2 ^ 24) by nia.
    change (2 ^ 24 * 2 ^ 24) with (2 ^ 48) in *. lia. }
  exists (S754_finite false M E), (S754_finite false M' E').
  split; [done|]. split; [done|].
  unfold gt. rewrite SFltb_normal by (done || lia).
  destruct (Z.lt_trichotomy (a * b') (a' * b)) as [Hlt|[Heq|Hgt]].
  - replace (a * b' <? a' * b) with true by (symmetry; by apply Z.ltb_lt).
    apply Z.ltb_lt.
    apply (rounded_ratios_lt (2 ^ 53) (Z.pos M) _ a b (Z.pos M') _ a' b');
      try done; try lia. by apply Hsz.
  - replace (a * b' <? a' * b) with false by (symmetry; apply Z.ltb_ge; lia).
    pose proof (int_truediv_ratio a b a' b' ltac:(lia) ltac:(lia) ltac:(lia)
                  ltac:(lia) Heq) as Hsame.
    rewrite Hx, Hx' in Hsame. injection Hsame as -> ->.
    apply Z.ltb_ge. lia.
  - replace (a * b' <? a' * b) with false by (symmetry; apply Z.ltb_ge; lia).
    apply Z.ltb_ge. apply Z.lt_le_incl.
    apply (rounded_ratios_lt (2 ^ 53) (Z.pos M') _ a' b' (Z.pos M) _ a b);
      try done; try lia. apply Hsz; lia.
Qed.

(** ** Subtraction of two readings of the clock *)

Lemma shl_align_value m e e' :
  e' <= e ->
  Z.pos (fst (shl_align m e e')) = Z.pos m * 2 ^ (e - e')
  /\ snd (shl_align m e e') = e'.
Proof.
  intros He. unfold shl_align. destruct (e' - e) as [|q|q] eqn:Ed; try lia.
  - replace (e - e') with 0 by lia. cbn [fst snd]. lia.
  - cbn [fst snd]. rewrite pos_iter_xO. split; [|done]. do 2 f_equal. lia.
Qed.

(** A float that is rounded from a negative number is not at least a
    positive int. *)
Lemma binary_round_negative m e d :
  0 < d -> ge_int (binary_round prec emax true m e) d = false.
Proof.
  intros Hd. unfold binary_round.
  destruct (shl_align m e _) as [mz ez]. unfold binary_round_aux.
  destruct (shr_fexp prec emax (Z.pos mz) ez loc_Exact) as [mrs1 e1].
  destruct (shr_fexp prec emax _ e1 loc_Exact) as [mrs2 e2].
  destruct d as [|p|p]; try lia.
  destruct (shr_m mrs2) as [|q|q]; [| |done].
  - unfold ge_int, ge. cbn. apply Z.leb_gt. lia.
  - destruct (e2 <=? emax - prec); [|done].
    unfold ge_int, ge. cbn [of_int_exact scaled].
    apply Z.leb_gt.
    assert (0 < 2 ^ (0 - Z.min e2 0)) by (apply pow2_pos; lia).
    assert (0 < 2 ^ (e2 - Z.min e2 0)) by (apply pow2_pos; lia).
    nia.
Qed.

Lemma shl_align_none m e e' : e <= e' -> shl_align m e e' = (m, e).
Proof. intros He. unfold shl_align. by destruct (e' - e) eqn:Ed; try lia. Qed.

(** When the float rounded from [p * 2^ez] is at least the int [d],
    the number itself is at least [d * (1 - 2^-53)]. *)
Lemma binary_round_ge_int p ez d :
  0 < d -> -52 <= ez -> Zdigits2 (Z.pos p) + ez - 53 <= 970 ->
  ge_int (binary_round prec emax false p ez) d = true ->
  (2 ^ 53 - 1) * (d * 2 ^ 52) <= 2 ^ 53 * (Z.pos p * 2 ^ (ez + 52)).
Proof.
  intros Hd Hez Hmax. unfold binary_round.
  change (Z.pos (digits2_pos p)) with (Zdigits2 (Z.pos p)).
  pose proof (Zdigits2_bounds (Z.pos p) ltac:(lia)) as Hb.
  pose proof (Zdigits2_pos (Z.pos p) ltac:(lia)) as Hdg.
  set (dg := Zdigits2 (Z.pos p)) in *.
  rewrite fexp_normal by lia.
  assert (Hal : exists mz ez',
            shl_align p ez (dg + ez - 53) = (mz, ez')
            /\ 53 <= Zdigits2 (Z.pos mz)
            /\ Zdigits2 (Z.pos mz) + ez' = dg + ez
            /\ -105 <= ez' <= ez
            /\ Z.pos mz * 2 ^ (ez' + 105) = Z.pos p * 2 ^ (ez + 105)).
  { destruct (Z.le_gt_cases dg 53) as [Hle|Hgt].
    - destruct (shl_align_value p ez (dg + ez - 53) ltac:(lia)) as [Hv He].
      replace (ez - (dg + ez - 53)) with (53 - dg) in Hv by lia.
      destruct (shl_align p ez (dg + ez - 53)) as [mz ez'].
      cbn [fst snd] in *. subst ez'. exists mz, (dg + ez - 53).
      assert (Hp : 0 < 2 ^ (53 - dg)) by (apply pow2_pos; lia).
      assert (Hmz : 2 ^ 52 <= Z.pos mz < 2 ^ 53).
      { rewrite Hv. split.
        - replace (2 ^ 52) with (2 ^ (dg - 1) * 2 ^ (53 - dg)).
          + apply Z.mul_le_mono_nonneg_r; lia.
          + rewrite <- pow2_split by lia. f_equal. lia.
        - replace (2 ^ 53) with (2 ^ dg * 2 ^ (53 - dg)).
          + apply Z.mul_lt_mono_pos_r; lia.
          + rewrite <- pow2_split by lia. f_equal. lia. }
      rewrite (Zdigits2_unique (Z.pos mz) 53) by lia.
      split; [done|]. split; [lia|]. split; [lia|]. split; [lia|].
      rewrite Hv, <- Z.mul_assoc, <- pow2_split by lia. do 2 f_equal. lia.
    - rewrite shl_align_none by lia. exists p, ez. fold dg.
      split; [done|]. split; [lia|]. split; [done|]. split; [lia|done]. }
  destruct Hal as (mz & ez' & -> & Hdig & Hsum & Hez' & Hval).
  destruct (binary_round_aux_normal (Z.pos mz) ez' (Z.pos mz) 1)
    as (M & E & Hrun & HM & HE & Herr);
    [lia|lia|by rewrite Z.div_1_r|done|lia|].
  rewrite Z.mod_1_r in Hrun. change (location_of 0 1) with loc_Exact in Hrun.
  rewrite Hrun. clear Hrun.
  destruct d as [|q|q]; try lia.
  unfold ge_int, ge. cbn [of_int_exact scaled]. intros Hge.
  apply Z.leb_le in Hge.
  rewrite Z.mul_1_r in Herr.
  assert (HEz : ez' <= E) by lia.
  set (K := Z.pos M * 2 ^ (E - ez')) in *.
  assert (F1 : (2 ^ 53 - 1) * K <= 2 ^ 53 * Z.pos mz) by lia.
  assert (HA : 0 < 2 ^ (ez' + 105)) by (apply pow2_pos; lia).
  assert (F2 : K * 2 ^ (ez' + 105) = Z.pos M * 2 ^ (E + 105)).
  { unfold K. rewrite <- Z.mul_assoc, <- pow2_split by lia. do 2 f_equal. lia. }
  assert (F3 : Z.pos q * 2 ^ 105 <= Z.pos M * 2 ^ (E + 105)).
  { destruct (Z.le_gt_cases 0 E) as [HE0|HE0].
    - rewrite Z.min_r in Hge by lia.
      replace (0 - 0) with 0 in Hge by lia. rewrite Z.sub_0_r in Hge.
      rewrite pow2_split by lia. rewrite Z.mul_assoc.
      apply Z.mul_le_mono_nonneg_r; [apply Z.pow_nonneg; lia|].
      change (2 ^ 0) with 1 in Hge. lia.
    - rewrite Z.min_l in Hge by lia.
      replace (E - E) with 0 in Hge by lia. change (2 ^ 0) with 1 in Hge.
      replace (2 ^ 105) with (2 ^ (0 - E) * 2 ^ (E + 105)).
      + rewrite Z.mul_assoc. apply Z.mul_le_mono_nonneg_r; [|lia].
        apply Z.pow_nonneg. lia.
      + rewrite <- pow2_split by lia. f_equal. lia. }
  assert (F4 : Z.pos p * 2 ^ (ez + 105) = Z.pos p * 2 ^ (ez + 52) * 2 ^ 53).
  { rewrite <- Z.mul_assoc, <- pow2_split by lia. do 2 f_equal. lia. }
  assert (F5 : (2 ^ 53 - 1) * (Z.pos q * 2 ^ 105)
               <= 2 ^ 53 * (Z.pos p * 2 ^ (ez + 105))).
  { rewrite <- Hval.
    apply Z.le_trans with ((2 ^ 53 - 1) * (K * 2 ^ (ez' + 105))).
    - rewrite F2. apply Z.mul_le_mono_nonneg_l; [lia|done].
    - rewrite !Z.mul_assoc. apply Z.mul_le_mono_nonneg_r; [lia|done]. }
  rewrite F4 in F5.
  replace (2 ^ 105) with (2 ^ 52 * 2 ^ 53) in F5 by (by rewrite <- Z.pow_add_r).
  rewrite !Z.mul_assoc in F5.
  apply Z.mul_le_mono_pos_r in F5; [|lia].
  rewrite !Z.mul_assoc. exact F5.
Qed.

(** For two readings [x] and [y] of the clock and an int [d > 0]:
    when the float [x - y] is at least [d], the number [x - y] is at
    least [d * (1 - 2^-53)].  The readings are counted in units of
    [2^-52]. *)
Lemma sub_ge_int_bound mx ex my ey d :
  2 ^ 52 <= Z.pos mx < 2 ^ 53 -> -52 <= ex <= 970 ->
  2 ^ 52 <= Z.pos my < 2 ^ 53 -> -52 <= ey <= 970 ->
  0 < d ->
  ge_int (sub (S754_finite false mx ex) (S754_finite false my ey)) d = true ->
  (2 ^ 53 - 1) * (d * 2 ^ 52)
  <= 2 ^ 53 * (Z.pos mx * 2 ^ (ex + 52) - Z.pos my * 2 ^ (ey + 52)).
Proof.
  intros Hmx Hex Hmy Hey Hd. unfold sub, SFsub. cbn [cond_Zopp].
  set (ez := Z.min ex ey).
  destruct (shl_align_value mx ex ez ltac:(lia)) as [Hx _].
  destruct (shl_align_value my ey ez ltac:(lia)) as [Hy _].
  rewrite Hx, Hy.
  set (D := Z.pos mx * 2 ^ (ex - ez) - Z.pos my * 2 ^ (ey - ez)).
  assert (Hticks : Z.pos mx * 2 ^ (ex + 52) - Z.pos my * 2 ^ (ey + 52)
                   = D * 2 ^ (ez + 52)).
  { assert (E1 : 2 ^ (ex + 52) = 2 ^ (ex - ez) * 2 ^ (ez + 52)).
    { rewrite <- pow2_split by lia. f_equal. lia. }
    assert (E2 : 2 ^ (ey + 52) = 2 ^ (ey - ez) * 2 ^ (ez + 52)).
    { rewrite <- pow2_split by lia. f_equal. lia. }
    rewrite E1, E2. unfold D. ring. }
  rewrite Hticks.
  assert (Hupper : D < 2 ^ (53 + ex - ez)).
  { unfold D. replace (53 + ex - ez) with (53 + (ex - ez)) by lia.
    rewrite pow2_split by lia.
    assert (0 < 2 ^ (ex - ez)) by (apply pow2_pos; lia).
    assert (0 <= Z.pos my * 2 ^ (ey - ez)).
    { apply Z.mul_nonneg_nonneg; [lia|]. apply Z.pow_nonneg. lia. }
    nia. }
  destruct D as [|p|p] eqn:ED.
  - cbn [binary_normalize]. destruct d; try lia. unfold ge_int, ge. cbn.
    intros H. apply Z.leb_le in H. lia.
  - cbn [binary_normalize]. apply binary_round_ge_int; [done|lia|].
    pose proof (Zdigits2_le (Z.pos p) (53 + ex - ez) ltac:(lia) ltac:(lia)).
    lia.
  - cbn [binary_normalize]. by rewrite binary_round_negative.
Qed.

End PyFloatProofs.

(** * Properties of the scheduler *)

Module AdsPlayerProofs.
Import Pygame AdsPlayer Samples PyFloatProofs.

(** ** next_ad *)

Lemma next_ad_ads_list p : ads_list (next_ad p) = ads_list p.
Proof. unfold next_ad. destruct (ads_list p) eqn:E; cbn; congruence. Qed.

Lemma next_ad_index p :
  ads_list p <> [] ->
  current_ad_index (next_ad p)
  = (current_ad_index p + 1) mod Z.of_nat (length (ads_list p)).
Proof. unfold next_ad. destruct (ads_list p) eqn:E; cbn; congruence. Qed.

Lemma next_ad_empty p : ads_list p = [] -> next_ad p = p.
Proof. unfold next_ad. by intros ->. Qed.

Lemma advance_ads_list k p : ads_list (advance k p) = ads_list p.
Proof.
  induction k as [|k IH]; [done|].
  unfold advance in *. cbn. by rewrite next_ad_ads_list.
Qed.

Lemma advance_index k p :
  ads_list p <> [] ->
  0 <= current_ad_index p < Z.of_nat (length (ads_list p)) ->
  current_ad_index (advance k p)
  = (current_ad_index p + Z.of_nat k) mod Z.of_nat (length (ads_list p)).
Proof.
  intros Hne Hi. induction k as [|k IH].
  - cbn. rewrite Z.add_0_r, Z.mod_small; lia.
  - change (advance (S k) p) with (next_ad (advance k p)).
    rewrite next_ad_index by (by rewrite advance_ads_list).
    rewrite advance_ads_list, IH, Zplus_mod_idemp_l.
    f_equal. lia.
Qed.

Lemma mod_shift_inj (n i a b : Z) :
  0 <= a < n -> 0 <= b < n -> (i + a) mod n = (i + b) mod n -> a = b.
Proof.
  intros Ha Hb Heq.
  pose proof (Z.div_mod (i + a) n ltac:(lia)) as Da.
  pose proof (Z.div_mod (i + b) n ltac:(lia)) as Db.
  rewrite Heq in Da.
  set (q := (i + a) / n - (i + b) / n).
  assert (Hq : a - b = n * q) by (unfold q; lia).
  assert (q = 0) by nia.
  lia.
Qed.

Lemma visited_perm p :
  ads_list p <> [] ->
  0 <= current_ad_index p < Z.of_nat (length (ads_list p)) ->
  visited (length (ads_list p)) p ≡ₚ seqZ 0 (Z.of_nat (length (ads_list p))).
Proof.
  intros Hne Hi. set (n := length (ads_list p)) in *.
  unfold visited. apply NoDup_Permutation.
  - apply (NoDup_fmap_2_strong (fun k => current_ad_index (advance k p))).
    + intros a b Ha%elem_of_seq Hb%elem_of_seq.
      rewrite !advance_index by done. fold n.
      intros H%mod_shift_inj; lia.
    + apply NoDup_seq.
  - apply NoDup_seqZ.
  - intros x. rewrite elem_of_seqZ.
    change (map ?f ?l) with (f <$> l). rewrite list_elem_of_fmap. split.
    + intros (k & -> & Hk%elem_of_seq). rewrite advance_index by done. fold n.
      pose proof (Z.mod_pos_bound (current_ad_index p + Z.of_nat k) (Z.of_nat n)).
      lia.
    + intros Hx.
      exists (Z.to_nat ((x - current_ad_index p) mod Z.of_nat n)).
      pose proof (Z.mod_pos_bound (x - current_ad_index p) (Z.of_nat n) ltac:(lia)).
      split; [|apply elem_of_seq; lia].
      rewrite advance_index by done. fold n. rewrite Z2Nat.id by lia.
      rewrite Zplus_mod_idemp_r. replace (_ + _) with x by lia.
      rewrite Z.mod_small; lia.
Qed.

Lemma advance_next_ad k p : advance (S k) p = advance k (next_ad p).
Proof. unfold advance. apply Nat.iter_succ_r. Qed.

Lemma reached_perm p :
  ads_list p <> [] ->
  0 <= current_ad_index p < Z.of_nat (length (ads_list p)) ->
  reached (length (ads_list p)) p ≡ₚ seqZ 0 (Z.of_nat (length (ads_list p))).
Proof.
  intros Hne Hi.
  assert (Hl : ads_list (next_ad p) = ads_list p) by apply next_ad_ads_list.
  assert (Heq : reached (length (ads_list p)) p
                = visited (length (ads_list (next_ad p))) (next_ad p)).
  { rewrite Hl. unfold reached, visited.
    apply map_ext. intros k. by rewrite advance_next_ad. }
  rewrite Heq, <- Hl. apply visited_perm.
  - by rewrite Hl.
  - rewrite Hl, next_ad_index by done.
    apply Z.mod_pos_bound. lia.
Qed.

(** C5. On an empty playlist [next_ad] changes nothing.  On a playlist
    of [n >= 1] entries with the index [i] in range, [next_ad] moves
    the index to [(i + 1) mod n]; the indices shown during [n]
    successive advances are the indices [0 .. n-1], each exactly once,
    and so are the indices that the [n] advances arrive at; and after
    the [n] advances the index is [i] again. *)
Theorem next_ad_cycles (p : player) :
  (ads_list p = [] -> next_ad p = p) /\
  (ads_list p <> [] ->
   0 <= current_ad_index p < Z.of_nat (length (ads_list p)) ->
   current_ad_index (next_ad p)
   = (current_ad_index p + 1) mod Z.of_nat (length (ads_list p))
   /\ visited (length (ads_list p)) p
      ≡ₚ seqZ 0 (Z.of_nat (length (ads_list p)))
   /\ reached (length (ads_list p)) p
      ≡ₚ seqZ 0 (Z.of_nat (length (ads_list p)))
   /\ current_ad_index (advance (length (ads_list p)) p) = current_ad_index p).
Proof.
  split; [apply next_ad_empty|]. intros Hne Hi.
  split; [by apply next_ad_index|].
  split; [by apply visited_perm|].
  split; [by apply reached_perm|].
  rewrite advance_index by done.
  rewrite <- (Z.mul_1_l (Z.of_nat (length (ads_list p)))) at 1.
  rewrite Z.mod_add by lia. apply Z.mod_small; lia.
Qed.

Lemma next_ad_cycles_witness :
  next_ad (player_with [] 0) = player_with [] 0 /\
  (current_ad_index (next_ad (player_with three_ads 2)) = 0
   /\ visited 3 (player_with three_ads 2) ≡ₚ [0; 1; 2]
   /\ reached 3 (player_with three_ads 2) ≡ₚ [0; 1; 2]
   /\ current_ad_index (advance 3 (player_with three_ads 2)) = 2).
Proof.
  split.
  - apply (proj1 (next_ad_cycles (player_with [] 0))). reflexivity.
  - apply (proj2 (next_ad_cycles (player_with three_ads 2))).
    + discriminate.
    + cbn. lia.
Defined.

(** ** The index invariant *)

Lemma swap_length {A} (x : list A) i j : length (swap x i j) = length x.
Proof.
  unfold swap. destruct (x !! i), (x !! j); try done.
  by rewrite !length_insert.
Qed.

Lemma shuffle_from_length {A} i w (x : list A) :
  length (fst (shuffle_from i w x)) = length x.
Proof.
  revert w x. induction i as [|i IH]; intros w x; [done|].
  cbn [shuffle_from]. destruct (randbelow w (S i + 1)) as [j w1].
  rewrite IH. apply swap_length.
Qed.

Lemma shuffle_length {A} w (x : list A) :
  length (fst (shuffle w x)) = length x.
Proof. apply shuffle_from_length. Qed.

Lemma next_ad_index_in_range p : index_in_range (next_ad p).
Proof.
  intros Hne. rewrite next_ad_ads_list in *.
  rewrite next_ad_index by done.
  apply Z.mod_pos_bound. destruct (ads_list p); [done|cbn; lia].
Qed.

(** Every event but the reload key keeps the index in range. *)
Lemma handle_event_index_in_range ev w p w1 p1 :
  ev <> KEYDOWN K_r ->
  handle_event ev w p = Ok (w1, p1) ->
  index_in_range p -> index_in_range p1.
Proof.
  intros Hev Hrun Hinv.
  destruct ev as [|[]|]; cbn in Hrun; try congruence;
    try (injection Hrun as <- <-; first [exact Hinv | apply next_ad_index_in_range]).
  destruct (ads_list p) as [|a l] eqn:El.
  - injection Hrun as <- <-. exact Hinv.
  - pose proof (shuffle_length w (a :: l)) as Hlen.
    destruct (shuffle w (a :: l)) as [l' w']. injection Hrun as <- <-.
    intros _. cbn in *. lia.
Qed.

(** C2. A reload that shrinks the playlist leaves the index where it
    was.  From three entries at index 2, the key [r] over a directory
    that now holds one file gives a playlist of one entry and the
    index 2: the invariant is lost, and the dispatch of the current
    entry raises [IndexError], which ends the turn of the loop. *)
Theorem reload_leaves_index_out_of_range :
  let p := player_with three_ads 2 in
  let p1 := player_with ["ads/a.jpg"%string] 2 in
  index_in_range p
  /\ handle_event (KEYDOWN K_r) world_one_image p = Ok (world_one_image, p1)
  /\ ads_list p1 <> []
  /\ ~ index_in_range p1
  /\ display_current_ad p1 = Raise IndexError
  /\ tick [KEYDOWN K_r] false world_one_image p = Raise IndexError.
Proof.
  cbn zeta. split; [intros _; cbn; lia|].
  split; [vm_compute; reflexivity|].
  split; [discriminate|].
  split; [intros H; specialize (H ltac:(discriminate)); cbn in H; lia|].
  split; vm_compute; reflexivity.
Qed.

(** ** load_ads_content *)

Lemma load_missing_directory w p d dir :
  config p = JDict d ->
  d !! "ads_directory"%string = Some (JStr dir) ->
  fs w !! dir = None ->
  load_ads_content w p = Ok (mkdir w dir, p).
Proof.
  intros Hc Hd Hfs. unfold load_ads_content. rewrite Hc. cbn.
  rewrite Hd. cbn. by rewrite Hfs.
Qed.

(** C3. A scan of a missing directory creates it and returns at
    once, before the playlist is reset: after the key [r] the
    directory exists and is empty, and the playlist still holds the
    three entries it held before. *)
Theorem reload_of_missing_directory_keeps_playlist :
  let p := player_with three_ads 1 in
  handle_event (KEYDOWN K_r) world_no_directory p
  = Ok (mkdir world_no_directory "ads", p)
  /\ fs world_no_directory !! "ads"%string = None
  /\ fs (mkdir world_no_directory "ads") !! "ads"%string = Some []
  /\ ads_list p = three_ads
  /\ ads_list p <> [].
Proof. cbn zeta. repeat split; try (vm_compute; reflexivity). discriminate. Qed.

(** ** detect_screen_orientation *)

(** C7. With [force_orientation] set to the portrait token ["6:19"]
    the screen is 1080 by 1920, and with the landscape token ["16:9"]
    it is 1920 by 1080, whatever size the display reports and whether
    or not it reports one. *)
Theorem forced_orientation_fixes_resolution
    (display : option (Z * Z)) (p : player) (d : gmap string json) :
  config p = JDict d ->
  (d !! "force_orientation"%string = Some (JStr "6:19") ->
   detect_screen_orientation display p = set_screen 1080 1920 (JStr "6:19") p)
  /\
  (d !! "force_orientation"%string = Some (JStr "16:9") ->
   detect_screen_orientation display p = set_screen 1920 1080 (JStr "16:9") p).
Proof.
  intros Hc.
  split; intros Hf; unfold detect_screen_orientation, detect_body;
    rewrite Hc; cbn; rewrite Hf; reflexivity.
Qed.

Lemma forced_orientation_fixes_resolution_witness :
  (let q := detect_screen_orientation (Some (800, 600)) (forced_player "6:19") in
   screen_width q = 1080 /\ screen_height q = 1920)
  /\
  (let q := detect_screen_orientation (Some (600, 800)) (forced_player "16:9") in
   screen_width q = 1920 /\ screen_height q = 1080).
Proof.
  split; cbn zeta.
  - rewrite (proj1 (forced_orientation_fixes_resolution (Some (800, 600))
               (forced_player "6:19") _ eq_refl)); [split; reflexivity|].
    vm_compute. reflexivity.
  - rewrite (proj2 (forced_orientation_fixes_resolution (Some (600, 800))
               (forced_player "16:9") _ eq_refl)); [split; reflexivity|].
    vm_compute. reflexivity.
Defined.

(** ** load_config *)

Lemma merge_defaults_dict items (d : gmap string json) :
  merge_defaults items (JDict d) = Ok (JDict (d ∪ list_to_map items)).
Proof.
  revert d. induction items as [|[k v] rest IH]; intros d.
  - cbn. by rewrite map_union_empty.
  - cbn. case_bool_decide as Hk.
    + rewrite IH. do 2 f_equal. apply map_eq. intros i.
      rewrite !lookup_union, lookup_insert. case_decide; [subst|done].
      destruct Hk as [x Hx]. rewrite Hx. by destruct (list_to_map rest !! i).
    + rewrite IH. do 2 f_equal. apply map_eq. intros i.
      rewrite !lookup_union, !lookup_insert. case_decide; [subst|done].
      apply eq_None_not_Some in Hk. rewrite Hk.
      cbn. by destruct (list_to_map rest !! i).
Qed.

Lemma load_config_object f (d : gmap string json) :
  content f = Some (Parsed (JDict d)) ->
  load_config f = (JDict (d ∪ default_config), f).
Proof.
  intros Hf. unfold load_config, load_config_body. rewrite Hf. cbn [obind].
  by rewrite merge_defaults_dict.
Qed.

Lemma load_config_object_lookup f (d : gmap string json) k :
  content f = Some (Parsed (JDict d)) ->
  exists m, fst (load_config f) = JDict m /\
    m !! k = match d !! k with Some v => Some v | None => default_config !! k end.
Proof.
  intros Hf. rewrite (load_config_object f d Hf). eexists; split; [done|].
  rewrite lookup_union. destruct (d !! k), (default_config !! k); done.
Qed.

Lemma load_config_empty_object f :
  content f = Some (Parsed (JDict ∅)) ->
  fst (load_config f) = JDict default_config.
Proof. intros Hf. rewrite (load_config_object f ∅ Hf). cbn. by rewrite map_empty_union. Qed.

Lemma load_config_unparsable f :
  content f = Some Malformed \/ content f = Some Unreadable ->
  fst (load_config f) = JDict default_config.
Proof. unfold load_config, load_config_body. by intros [-> | ->]. Qed.

Lemma detect_keeps_playlist display p :
  config (detect_screen_orientation display p) = config p
  /\ ads_list (detect_screen_orientation display p) = ads_list p.
Proof.
  unfold detect_screen_orientation. destruct (detect_body display p) eqn:E; [|done].
  unfold detect_body in E. destruct (Py.get _ _) as [forced|]; [|done].
  cbn in E. destruct (Py.truthy forced).
  { destruct (Py.eq_str _ _); injection E as <-; done. }
  destruct display as [[w h]|]; [|done].
  destruct (PyFloat.int_truediv w h); [|done]. cbn in E.
  destruct (PyFloat.gt_int _ _); injection E as <-; done.
Qed.

(** At start-up the playlist is empty when the directory is missing. *)
Lemma startup_missing_directory f display w w1 p1 f1 :
  fs w !! "ads"%string = None ->
  content f = Some (Parsed (JDict ∅)) ->
  init f display w = Ok (w1, p1, f1) ->
  ads_list p1 = [] /\ fs w1 !! "ads"%string = Some [].
Proof.
  intros Hfs Hf. unfold init. rewrite (load_config_object f ∅ Hf), map_empty_union.
  set (p := detect_screen_orientation _ _).
  destruct (detect_keeps_playlist display
    {| config := JDict default_config; running := false; current_ad_index := 0;
       ads_list := []; screen_width := 0; screen_height := 0;
       orientation := JStr "16:9" |}) as [Hc Ha].
  fold p in Hc, Ha. cbn in Hc, Ha.
  rewrite (load_missing_directory w p default_config "ads") by done.
  cbn. intros [= <- <- <-]. split; [done|]. apply lookup_insert_eq.
Qed.

(** A value that is not a dictionary comes out of the merge as it is,
    or stops it with an exception. *)
Lemma merge_defaults_not_dict items (v : json) :
  (forall d, v <> JDict d) ->
  merge_defaults items v = Ok v \/ exists e, merge_defaults items v = Raise e.
Proof.
  intros Hv. induction items as [|[k x] rest IH]; [by left|].
  cbn [merge_defaults]. destruct (Py.contains v k) as [[]|e]; cbn [obind].
  - exact IH.
  - right. destruct v; cbn; eauto. by destruct (Hv d).
  - right. eauto.
Qed.

(** So a file that holds a JSON value other than an object yields that
    value or the defaults. *)
Lemma load_config_not_object f (v : json) :
  content f = Some (Parsed v) -> (forall d, v <> JDict d) ->
  fst (load_config f) = v \/ fst (load_config f) = JDict default_config.
Proof.
  intros Hf Hv. unfold load_config, load_config_body. rewrite Hf. cbn [obind].
  destruct (merge_defaults_not_dict default_items v Hv) as [-> | [e ->]];
    cbn; auto.
Qed.

(** C8. A configuration file that holds a JSON list of the thirteen
    setting names is returned as it is: every test [key not in config]
    is a membership test on the list and fails, nothing is filled in,
    and the result is not a dictionary.  The first subscript of the
    configuration then raises [TypeError] and start-up fails. *)
Theorem load_config_returns_list_of_names :
  let f := file_with (Parsed list_of_names) in
  load_config f = (list_of_names, f)
  /\ Py.getitem (fst (load_config f)) "ads_directory" = Raise TypeError
  /\ init f (Some (1920, 1080)) world_one_image = Raise TypeError.
Proof. cbn zeta. repeat split; vm_compute; reflexivity. Qed.
(** ** scale_image_to_fit *)

(** The sizes that [scale_image_to_fit] returns, for sides that are
    positive and below [2^24]. *)
Lemma scale_image_to_fit_within_one_pixel (p : player) (img_width img_height : Z) :
  0 < screen_width p < 2 ^ 24 -> 0 < screen_height p < 2 ^ 24 ->
  0 < img_width < 2 ^ 24 -> 0 < img_height < 2 ^ 24 ->
  exists new_width new_height,
    scale_image_to_fit p img_width img_height = Ok (new_width, new_height)
    /\ if screen_width p * img_height <? img_width * screen_height p
       then new_width = screen_width p
            /\ 0 <= screen_width p * img_height - new_height * img_width
               <= img_width
            /\ 0 <= new_height < screen_height p
       else new_height = screen_height p
            /\ 0 <= screen_height p * img_width - new_width * img_height
               <= img_height
            /\ 0 <= new_width <= screen_width p.
Proof.
  intros HW HH Hw Hh.
  set (W := screen_width p) in *. set (H := screen_height p) in *.
  assert (Hp24 : 2 ^ 24 < 2 ^ 51) by done.
  destruct (gt_rounded_ratios W H img_width img_height HW HH Hw Hh)
    as (screen_ratio & img_ratio & Hs & Hi & Hgt).
  destruct (int_truediv_normal img_width img_height ltac:(lia) ltac:(lia))
    as (M1 & E1 & Hi' & HM1 & HE1 & Herr1).
  rewrite Hi in Hi'. injection Hi' as ->.
  pose proof (Zdigits2_pos img_width ltac:(lia)) as Hdw1.
  pose proof (Zdigits2_le img_width 24 Hw ltac:(lia)) as Hdw2.
  pose proof (Zdigits2_pos img_height ltac:(lia)) as Hdh1.
  pose proof (Zdigits2_le img_height 24 Hh ltac:(lia)) as Hdh2.
  pose proof (Zdigits2_le W 24 HW ltac:(lia)) as HdW.
  pose proof (Zdigits2_le H 24 HH ltac:(lia)) as HdH.
  assert (HD1 : 0 < 2 ^ (- E1)) by (apply pow2_pos; lia).
  unfold scale_image_to_fit. fold W H. rewrite Hs, Hi. cbn [obind].
  rewrite Hgt.
  destruct (W * img_height <? img_width * H) eqn:Ecmp.
  - apply Z.ltb_lt in Ecmp.
    destruct (int_div_float_normal W M1 E1) as (M2 & E2 & Hq & HM2 & HE2 & Herr2);
      [lia|done|lia|lia|].
    rewrite Hq. cbn [obind]. rewrite to_int_floor by done. cbn [obind].
    assert (HD2 : 0 < 2 ^ (- E2)) by (apply pow2_pos; lia).
    eexists _, _. split; [reflexivity|]. split; [done|].
    assert (Hpix : 0 <= W * img_height - Z.pos M2 / 2 ^ (- E2) * img_width
                   <= img_width).
    { apply floor_within; [done|lia|].
      apply (width_bound_error_gen (2 ^ 53) (Z.pos M1) (2 ^ (- E1)));
        try done; try lia.
      assert (W * img_height < 2 ^ 24 * 2 ^ 24) by nia.
      change (2 ^ 24 * 2 ^ 24) with (2 ^ 48) in *. lia. }
    split; [done|].
    set (nh := Z.pos M2 / 2 ^ (- E2)) in *.
    assert (0 <= nh) by (apply Z.div_pos; lia).
    split; [done|]. clearbody nh.
    assert (nh * img_width < H * img_width) by lia.
    apply Z.mul_lt_mono_pos_r in H1; lia.
  - apply Z.ltb_ge in Ecmp.
    destruct (int_mul_float_normal H M1 E1) as (M3 & E3 & Hq & HM3 & HE3 & Herr3);
      [lia|done|lia|lia|].
    rewrite Hq. cbn [obind]. rewrite to_int_floor by done. cbn [obind].
    assert (HD3 : 0 < 2 ^ (- E3)) by (apply pow2_pos; lia).
    eexists _, _. split; [reflexivity|]. split; [done|].
    assert (Hpix : 0 <= H * img_width - Z.pos M3 / 2 ^ (- E3) * img_height
                   <= img_height).
    { apply floor_within; [done|lia|].
      apply (height_bound_error_gen (2 ^ 53) (Z.pos M1) (2 ^ (- E1)));
        try done; try lia.
      assert (H * img_width < 2 ^ 24 * 2 ^ 24) by nia.
      change (2 ^ 24 * 2 ^ 24) with (2 ^ 48) in *. lia. }
    split; [done|].
    set (nw := Z.pos M3 / 2 ^ (- E3)) in *.
    assert (0 <= nw) by (apply Z.div_pos; lia).
    split; [done|]. clearbody nw.
    assert (nw * img_height <= W * img_height) by lia.
    apply Z.mul_le_mono_pos_r in H1; lia.
Qed.

(** C6. On a screen and for an image whose sides are positive and below
    [2^24], [scale_image_to_fit] fits by the width when the ratio of the
    image exceeds that of the screen, and by the height otherwise.  In
    the first case the new width is the width of the screen and the new
    height is [screen_width * img_height / img_width] cut to a whole
    number, or one less when that quotient is whole, and it is below the
    height of the screen.  In the second case the new height is the
    height of the screen and the new width is
    [screen_height * img_width / img_height], cut or one less in the same
    way, and it is at most the width of the screen.  So the ratio of the
    image is kept to within one pixel.  An image of 1280 by 720 on the
    screen of 1080 by 1920 becomes 1080 by 607. *)
Theorem scale_image_to_fit_keeps_aspect :
  (forall (p : player) (img_width img_height : Z),
     0 < screen_width p < 2 ^ 24 -> 0 < screen_height p < 2 ^ 24 ->
     0 < img_width < 2 ^ 24 -> 0 < img_height < 2 ^ 24 ->
     exists new_width new_height,
       scale_image_to_fit p img_width img_height = Ok (new_width, new_height)
       /\ if screen_width p * img_height <? img_width * screen_height p
          then new_width = screen_width p
               /\ 0 <= screen_width p * img_height - new_height * img_width
                  <= img_width
               /\ 0 <= new_height < screen_height p
          else new_height = screen_height p
               /\ 0 <= screen_height p * img_width - new_width * img_height
                  <= img_height
               /\ 0 <= new_width <= screen_width p)
  /\ scale_image_to_fit portrait_player 1280 720 = Ok (1080, 607)
  /\ 607 <= 1920.
Proof.
  split; [exact scale_image_to_fit_within_one_pixel|].
  split; [vm_compute; reflexivity|lia].
Qed.

Lemma scale_image_to_fit_keeps_aspect_witness :
  exists new_width new_height,
    scale_image_to_fit portrait_player 1280 720 = Ok (new_width, new_height)
    /\ new_width = 1080
    /\ 0 <= 1080 * 720 - new_height * 1280 <= 1280
    /\ 0 <= new_height < 1920.
Proof.
  apply (proj1 scale_image_to_fit_keeps_aspect portrait_player 1280 720);
    cbn; lia.
Defined.

End AdsPlayerProofs.

(** * Properties of the video delegate *)

Module VideoPlayerProofs.
Import Pygame VideoPlayer Samples.

(** A statement about an environment [E : env] is about the machine
    [quiet E], on which no signal arrives: it tells what the delegate
    does with the files, the processes, the clock and pygame.  A
    statement about a machine or a script covers the signals as well. *)

(** ** Rules for runs *)

Lemma after_nil {A} (r : run A) : after [] r = r.
Proof. by destruct r. Qed.

Lemma after_after {A} t1 t2 (r : run A) :
  after t1 (after t2 r) = after (t1 ++ t2) r.
Proof. destruct r; cbn; by rewrite ?app_assoc. Qed.

Lemma trace_of_after {A} t (r : run A) :
  finishes r -> trace_of (after t r) = t ++ trace_of r.
Proof. by destruct r. Qed.


Lemma run_all_mono {A} (P P' : action -> Prop)
    (Q Q' : outcome A -> vstate -> Prop) (I I' : interrupt -> vstate -> Prop) r :
  (forall a, P a -> P' a) -> (forall o s, Q o s -> Q' o s) ->
  (forall b s, I b s -> I' b s) ->
  run_all P Q I r -> run_all P' Q' I' r.
Proof.
  intros HP HQ HI. destruct r as [o s tr|b s tr|]; [| |done]; cbn;
    intros [Ht Hq]; (split; [eapply Forall_impl; eauto|auto]).
Qed.

Lemma run_all_after {A} P (Q : outcome A -> vstate -> Prop) I t r :
  Forall P t -> run_all P Q I r -> run_all P Q I (after t r).
Proof.
  intros Ht. destruct r as [o s tr|b s tr|]; [| |done]; cbn;
    intros [Htr Hq]; (split; [by apply Forall_app|done]).
Qed.

Lemma run_all_bind {A B} P Q I (m : M A) (k : A -> M B) s :
  run_all P (fun o s1 =>
               match o with
               | Ok a => run_all P Q I (k a s1)
               | Raise e => Q (Raise e) s1
               end) I (m s) ->
  run_all P Q I ((m ≫= k) s).
Proof.
  unfold mbind, M_bind. destruct (m s) as [[a|e] s1 t1|b s1 t1|]; cbn;
    [|done|done|done].
  intros [Ht Hk]. by apply run_all_after.
Qed.

Lemma run_all_try {A} P Q I (m : M A) (h : exn -> M A) s :
  run_all P (fun o s1 =>
               match o with
               | Ok a => Q (Ok a) s1
               | Raise e => run_all P Q I (h e s1)
               end) I (m s) ->
  run_all P Q I (try_except m h s).
Proof.
  unfold try_except. destruct (m s) as [[a|e] s1 t1|b s1 t1|]; cbn;
    [done| |done|done].
  intros [Ht Hk]. by apply run_all_after.
Qed.


Lemma run_all_blocking P (Q : outcome unit -> vstate -> Prop) I a signal s :
  P a -> (forall b, signal = Some b -> I b s) ->
  (signal = None -> Q (Ok tt) s) ->
  run_all P Q I (blocking a signal s).
Proof.
  intros Ha Hi Hq. unfold blocking. destruct signal as [b|]; cbn;
    (split; [by repeat constructor|auto]).
Qed.





(** A [try] whose body does not raise is its body. *)
Lemma try_except_no_raise {A} P (Q : outcome A -> vstate -> Prop) I
    (m : M A) (h : exn -> M A) s :
  run_all P Q I (m s) -> (forall e s1, ~ Q (Raise e) s1) ->
  try_except m h s = m s.
Proof.
  unfold try_except. destruct (m s) as [[a|e] s1 t1|b s1 t1|]; [done| |done|done].
  intros [_ Hq] Hno. by destruct (Hno e s1).
Qed.

(** So is a [try] with a bare clause whose body is not interrupted
    either. *)
Lemma try_bare_no_raise {A} P (Q : outcome A -> vstate -> Prop)
    (m h : M A) s :
  run_all P Q uninterrupted (m s) -> (forall e s1, ~ Q (Raise e) s1) ->
  try_bare m h s = m s.
Proof.
  unfold try_bare. destruct (m s) as [[a|e] s1 t1|b s1 t1|]; [done| | |done].
  - intros [_ Hq] Hno. by destruct (Hno e s1).
  - by intros [_ []].
Qed.



(** No signal arrives on a quiet machine. *)
Lemma quiet_not_signalled (E : env) b s : ~ signalled E b s.
Proof. by intros [[? [=]]|[[? [=]]|[[? [=]]|[? [=]]]]]. Qed.

Lemma in_frame_signalled H b s : in_frame H b s -> signalled H b s.
Proof. intros Hf. right. right. by right. Qed.

Lemma may_do_in_time video_path duration a :
  may_do video_path duration a -> in_time video_path duration a.
Proof. by destruct a. Qed.

(** ** stop_video *)

Lemma stop_video_run (E : env) s :
  stop_video E s = Fin (Ok tt) init (stop_trace E (current_process s)).
Proof.
  destruct s as [b [h|]]; unfold stop_video, stop_trace, do_wait5; run_step;
    [|done].
  destruct (running E h); cbn; [|done].
  destruct (wait5 E h) as [|[]]; reflexivity.
Qed.

(** On every machine [stop_video] raises no exception of class
    [Exception]. *)
Lemma stop_video_safe H s :
  run_all (fun a => is_placeholder_frame a = false)
    (fun o s1 => o = Ok tt /\ is_playing s1 = false)
    (signalled H) (stop_video H s).
Proof.
  unfold stop_video. apply run_all_bind. cbn. split; [constructor|].
  apply run_all_bind. apply run_all_bind. cbn. split; [constructor|].
  destruct (current_process s) as [h|]; [|by cbn].
  destruct (running (backends H) h); [|by cbn].
  apply run_all_mono with
    (P := fun a => is_placeholder_frame a = false)
    (Q := fun o s1 => is_playing s1 = false
                      /\ match o with Ok _ => True | Raise _ => False end)
    (I := signalled H);
    [done| |done|].
  { intros [[]|e] s1 [Hs Ho]; [|done]. cbn. by repeat constructor. }
  apply run_all_try. apply run_all_bind. cbn. split; [by repeat constructor|].
  unfold do_wait5. apply run_all_bind. apply run_all_blocking; [done| |].
  - intros b Hb. right. left. by exists h.
  - intros _. destruct (wait5 (backends H) h) as [|e]; cbn; [by repeat constructor|].
    split; [constructor|]. destruct e; cbn; by repeat constructor.
Qed.


(** C9. [stop_video] never raises and always ends in the cleared
    state ([is_playing] false, no process), whatever the state before
    and whatever the process does.  It is idempotent: two calls in a row
    do to the state and to the world what one call does.  With no
    session (the cleared state) it does nothing and leaves the state as
    it is. *)
Theorem stop_video_clears_session (E : env) (s : vstate) :
  let cleared := {| is_playing := false; current_process := None |} in
  stop_video E s = Fin (Ok tt) cleared (stop_trace E (current_process s))
  /\ (stop_video E;; stop_video E) s = stop_video E s
  /\ stop_video E cleared = Fin (Ok tt) cleared [].
Proof.
  cbn zeta. split; [apply stop_video_run|]. split; [|apply stop_video_run].
  unfold mbind, M_bind. rewrite !stop_video_run. cbn.
  by rewrite app_nil_r.
Qed.

(** ** The placeholder *)

Lemma handle_keys_run evs s :
  exists s1, handle_keys evs s = Fin (Ok tt) s1 [].
Proof.
  revert s. induction evs as [|[|[]|] rest IH]; intros s; cbn; eauto.
  run_step. destruct (IH (Build_vstate false (current_process s))) as [s1 ->].
  eauto.
Qed.

Lemma pygame_loop_may_do H fuel k start video_path duration s :
  run_all (may_do video_path duration) (fun _ _ => True) (in_frame H)
    (pygame_loop H fuel k start video_path duration s).
Proof.
  revert k s. induction fuel as [|fuel IH]; intros k s; [done|].
  cbn [pygame_loop]. apply run_all_bind. cbn.
  split; [constructor|].
  destruct (is_playing s); [|by cbn].
  destruct (given duration && _) eqn:Edl; [by cbn|].
  apply run_all_bind.
  destruct (draw_ok (backends H) k); cbn; [|done].
  split.
  { constructor; [|constructor]. split; [done|].
    intros Hg. rewrite Hg in Edl. cbn in Edl. lia. }
  apply run_all_bind.
  destruct (handle_keys_run (events (backends H) k) s) as [s1 ->]. cbn.
  split; [constructor|].
  apply run_all_bind. apply run_all_blocking; [done| |].
  - intros b Hb. by exists k.
  - intros _. apply IH.
Qed.

Lemma play_video_pygame_may_do H fuel video_path duration s :
  run_all (may_do video_path duration)
    (fun o s1 => o = Ok tt /\ is_playing s1 = false) (in_frame H)
    (play_video_pygame H fuel video_path duration s).
Proof.
  unfold play_video_pygame. apply run_all_try.
  apply run_all_bind. cbn. split; [by repeat constructor|].
  apply run_all_bind. cbn. split; [constructor|].
  apply run_all_bind. destruct (font_ok (backends H)); cbn; [|by repeat constructor].
  split; [constructor|].
  apply run_all_bind.
  eapply run_all_mono; [..|apply pygame_loop_may_do]; [done| |done].
  intros [[]|e] s1 _; cbn; by repeat constructor.
Qed.

Lemma play_video_omxplayer_may_do H fuel video_path duration s :
  run_all (may_do video_path duration)
    (fun o s1 => o = Ok tt /\ is_playing s1 = false) (signalled H)
    (play_video_omxplayer H fuel video_path duration s).
Proof.
  assert (Hph : forall s0,
            run_all (may_do video_path duration)
              (fun o s1 => o = Ok tt /\ is_playing s1 = false) (signalled H)
              (play_video_pygame H fuel video_path duration s0)).
  { intros s0. eapply run_all_mono; [..|apply play_video_pygame_may_do];
      [done|done|apply in_frame_signalled]. }
  unfold play_video_omxplayer. apply run_all_try.
  apply run_all_bind. cbn. split; [by repeat constructor|].
  apply run_all_bind. unfold do_popen. apply run_all_bind. cbn.
  split; [by repeat constructor|].
  destruct (popen (backends H) _) as [h|e]; cbn.
  - split; [constructor|]. apply run_all_bind. cbn. split; [constructor|].
    apply run_all_bind. cbn. split; [constructor|].
    apply run_all_bind. unfold do_wait. apply run_all_bind.
    apply run_all_blocking; [done| |].
    { intros b Hb. left. by exists h. }
    intros _.
    destruct (wait (backends H) h) as [|e]; cbn; [by repeat constructor|].
    split; [constructor|]. destruct e; cbn; try by repeat constructor.
    apply run_all_bind. cbn. split; [by repeat constructor|]. apply Hph.
  - split; [constructor|]. destruct e; cbn; try by repeat constructor.
    apply run_all_bind. cbn. split; [by repeat constructor|]. apply Hph.
Qed.

Lemma play_video_vlc_safe H fuel video_path duration s :
  run_all (in_time video_path duration)
    (fun o s1 => o = Ok tt /\ is_playing s1 = false) (signalled H)
    (play_video_vlc H fuel video_path duration s).
Proof.
  assert (Hph : forall s0,
            run_all (in_time video_path duration)
              (fun o s1 => o = Ok tt /\ is_playing s1 = false) (signalled H)
              (play_video_pygame H fuel video_path duration s0)).
  { intros s0. eapply run_all_mono; [..|apply play_video_pygame_may_do];
      [apply may_do_in_time|done|apply in_frame_signalled]. }
  unfold play_video_vlc. apply run_all_try.
  apply run_all_bind. cbn. split; [by repeat constructor|].
  apply run_all_bind. unfold do_popen. apply run_all_bind. cbn.
  split; [by repeat constructor|].
  destruct (popen (backends H) _) as [h|e]; cbn.
  - split; [constructor|]. apply run_all_bind. cbn. split; [constructor|].
    apply run_all_bind. cbn. split; [constructor|].
    apply run_all_bind. destruct (given duration).
    + apply run_all_bind. unfold do_sleep.
      destruct (default 0 duration <? 0); cbn.
      * split; [constructor|]. split; [by repeat constructor|done].
      * apply run_all_blocking; [done| |].
        { intros b Hb. right. right. left. by eexists. }
        intros _.
        eapply run_all_mono; [..|apply stop_video_safe]; [|..|done].
        { by intros []. }
        intros o s1 [-> Hs]. cbn. by repeat constructor.
    + unfold do_wait. apply run_all_bind.
      apply run_all_blocking; [done| |].
      { intros b Hb. left. by exists h. }
      intros _.
      destruct (wait (backends H) h) as [|e]; cbn; [by repeat constructor|].
      split; [constructor|]. destruct e; cbn; try by repeat constructor.
      apply run_all_bind. cbn. split; [by repeat constructor|]. apply Hph.
  - split; [constructor|]. destruct e; cbn; try by repeat constructor.
    apply run_all_bind. cbn. split; [by repeat constructor|]. apply Hph.
Qed.


(** Without a signal the handlers of [play_video] are not entered. *)
Lemma play_video_is_omxplayer (E : env) fuel video_path duration s :
  path_exists E video_path = true ->
  play_video E fuel video_path duration s
  = play_video_omxplayer E fuel video_path duration s.
Proof.
  intros Hex. unfold play_video. cbn [always quiet backends]. rewrite Hex.
  eapply try_bare_no_raise with
    (Q := fun o s1 => o = Ok tt /\ is_playing s1 = false).
  - eapply run_all_mono; [..|apply play_video_omxplayer_may_do]; [done|done|].
    intros b s1 Hb. by apply quiet_not_signalled in Hb.
  - intros e s1 [? _]. done.
Qed.

Lemma play_video_may_do (E : env) fuel video_path duration s :
  path_exists E video_path = true ->
  run_all (may_do video_path duration)
    (fun o s1 => o = Ok tt /\ is_playing s1 = false) uninterrupted
    (play_video E fuel video_path duration s).
Proof.
  intros Hex. rewrite play_video_is_omxplayer by done.
  eapply run_all_mono; [..|apply play_video_omxplayer_may_do]; [done|done|].
  intros b s1 Hb. by apply quiet_not_signalled in Hb.
Qed.

Lemma may_do_not_vlc video_path duration a :
  may_do video_path duration a -> starts_vlc a = false.
Proof. destruct a; try done. cbn. by intros ->. Qed.

(** Without a signal, no run of [play_video] starts VLC. *)
Lemma play_video_never_starts_vlc (E : env) fuel video_path duration s :
  Forall (fun a => starts_vlc a = false)
    (trace_of (play_video E fuel video_path duration s)).
Proof.
  destruct (path_exists E video_path) eqn:Hex.
  - pose proof (play_video_may_do E fuel video_path duration s Hex) as H.
    destruct (play_video _ _ _ _ _) as [o s1 tr|b s1 tr|]; cbn in *;
      [| |constructor].
    + destruct H as [H _]. eapply Forall_impl; [exact H|].
      apply may_do_not_vlc.
    + by destruct H as [_ []].
  - unfold play_video. cbn [always quiet backends]. rewrite Hex. cbn.
    by repeat constructor.
Qed.

(** ** Termination *)












(** C1. With omxplayer missing and VLC installed, [play_video] goes
    from omxplayer to the placeholder; VLC is not started. *)
Theorem missing_omxplayer_goes_to_placeholder :
  popen env_without_omxplayer (omxplayer_cmd clip (Some 10))
  = SpawnFails FileNotFoundError
  /\ popen env_without_omxplayer (vlc_cmd clip) = Spawned 1%nat
  /\ play_video env_without_omxplayer 3 clip (Some 10) init
     = Fin (Ok tt) init
         [ Log INFO "Starting OMXPlayer for: clip.mp4";
           Popen ["omxplayer"; "--no-osd"; "--no-keys"; "--aspect-mode";
                  "letterbox"; "--vol"; "0"; "ads/clip.mp4";
                  "--timeout"; "10"]%string;
           Log WARNING "OMXPlayer not found, falling back to alternative method";
           Log INFO "Pygame video placeholder for: clip.mp4";
           Draw "clip.mp4" 4000; Sleep 100;
           Draw "clip.mp4" 8000; Sleep 100 ]
  /\ (let tr := trace_of (play_video env_without_omxplayer 3 clip (Some 10) init) in
      existsb starts_omxplayer tr = true
      /\ existsb starts_vlc tr = false
      /\ existsb is_placeholder_frame tr = true).
Proof. cbn zeta. repeat split; vm_compute; reflexivity. Qed.

(** C10. For a path that does not exist [play_video] logs one error
    line and returns: no backend is tried, no process is started, no
    frame is drawn, and the state is the one before the call. *)
Theorem play_video_of_missing_file
    (E : env) (fuel : nat) (video_path : string) (duration : option Z)
    (s : vstate) :
  path_exists E video_path = false ->
  play_video E fuel video_path duration s
  = Fin (Ok tt) s [Log ERROR ("Video file not found: " +:+ video_path)]
  /\ Forall (fun a => is_process_action a = false
                     /\ is_placeholder_frame a = false)
       (trace_of (play_video E fuel video_path duration s)).
Proof.
  intros Hex. unfold play_video. cbn [always quiet backends]. rewrite Hex.
  split; [done|]. by repeat constructor.
Qed.

Lemma play_video_of_missing_file_witness :
  play_video env_without_files 3 clip (Some 10) init
  = Fin (Ok tt) init [Log ERROR "Video file not found: ads/clip.mp4"].
Proof.
  apply (play_video_of_missing_file env_without_files 3 clip (Some 10) init).
  reflexivity.
Defined.

End VideoPlayerProofs.

(** * Further properties of the configuration and of the screen *)

Module ConfigProofs.
Import Pygame AdsPlayer Samples PyFloatProofs AdsPlayerProofs.

(** ** load_config *)

Lemma default_config_lookup k v :
  In (k, v) default_items -> default_config !! k = Some v.
Proof.
  intros Hin. unfold default_config.
  apply elem_of_list_to_map_1; [|by apply list_elem_of_In].
  by apply (bool_decide_unpack _).
Qed.

(** X1. A configuration file that holds a JSON object is merged with
    the defaults: a setting of the file keeps the value of the file, a
    setting that the file does not have takes the default value, so each
    of the thirteen settings is present; the file is left as it is. *)
Theorem load_config_merges_defaults (f : config_file) (d : gmap string json) :
  content f = Some (Parsed (JDict d)) ->
  exists m,
    load_config f = (JDict m, f)
    /\ (forall k v, d !! k = Some v -> m !! k = Some v)
    /\ (forall k, d !! k = None -> m !! k = default_config !! k)
    /\ (forall k v, In (k, v) default_items -> is_Some (m !! k)).
Proof.
  intros Hf. exists (d ∪ default_config).
  split; [by apply load_config_object|].
  split; [|split].
  - intros k v Hk. by apply lookup_union_Some_l.
  - intros k Hk. by rewrite lookup_union_r.
  - intros k v Hin. apply default_config_lookup in Hin.
    rewrite lookup_union. destruct (d !! k); rewrite Hin; by eexists.
Qed.

Lemma load_config_merges_defaults_witness :
  exists m,
    load_config (file_with (Parsed (JDict {[ "fps"%string := JInt 60 ]})))
    = (JDict m, file_with (Parsed (JDict {[ "fps"%string := JInt 60 ]})))
    /\ (forall k v, ({[ "fps"%string := JInt 60 ]} : gmap string json) !! k = Some v
                    -> m !! k = Some v)
    /\ (forall k, ({[ "fps"%string := JInt 60 ]} : gmap string json) !! k = None
                  -> m !! k = default_config !! k)
    /\ (forall k v, In (k, v) default_items -> is_Some (m !! k)).
Proof.
  apply (load_config_merges_defaults
           (file_with (Parsed (JDict {[ "fps"%string := JInt 60 ]})))
           {[ "fps"%string := JInt 60 ]}).
  reflexivity.
Defined.

(** X2. Loading is idempotent: a second [load_config] returns the
    configuration of the first and leaves the file as the first left
    it.  A file that exists is never written; a missing file is created
    with the defaults when it can be written, and reads back as the
    defaults. *)
Theorem load_config_twice (f : config_file) :
  load_config (snd (load_config f)) = load_config f
  /\ (content f <> None -> snd (load_config f) = f)
  /\ (content f = None -> writable f = true ->
      load_config f
      = (JDict default_config,
         {| content := Some (Parsed (JDict default_config)); writable := true |})).
Proof.
  assert (Hkeep : forall c, content f = Some c -> snd (load_config f) = f).
  { intros c Hc. unfold load_config, load_config_body. rewrite Hc.
    destruct c as [| |v]; cbn [obind]; try done.
    by destruct (merge_defaults default_items v). }
  assert (Hnew : content f = None -> writable f = true ->
            load_config f
            = (JDict default_config,
               {| content := Some (Parsed (JDict default_config));
                  writable := true |})).
  { intros Hc Hw. unfold load_config, load_config_body. by rewrite Hc, Hw. }
  split; [|split; [|exact Hnew]].
  - destruct (content f) as [c|] eqn:Hc.
    + by rewrite (Hkeep c eq_refl).
    + destruct (writable f) eqn:Hw.
      * rewrite (Hnew eq_refl eq_refl). cbn [snd].
        unfold load_config, load_config_body. cbn [content obind].
        rewrite merge_defaults_dict.
        by rewrite (idemp (∪) default_config).
      * assert (Hf : load_config f = (JDict default_config, f)).
        { unfold load_config, load_config_body. by rewrite Hc, Hw. }
        by rewrite Hf.
  - destruct (content f) as [c|]; [|done]. intros _. by apply (Hkeep c).
Qed.

Lemma merge_defaults_other items (v : json) :
  (forall d, v <> JDict d) ->
  merge_defaults items v
  = if forallb (fun kv => match Py.contains v (fst kv) with
                          | Ok true => true
                          | _ => false
                          end) items
    then Ok v else Raise TypeError.
Proof.
  intros Hv. induction items as [|[k x] rest IH]; [done|].
  cbn [merge_defaults forallb fst].
  destruct v as [|b|n|y|s|l|d]; cbn; try done.
  - destruct (Str.contains k s); cbn; [exact IH|done].
  - destruct (existsb _ l); cbn; [exact IH|done].
  - by destruct (Hv d).
Qed.

(** X3. When the configuration cannot be used, [load_config] returns
    the defaults and does not touch the file: for a file that cannot be
    read or parsed, for a missing file that cannot be created, and for a
    file that holds a JSON value other than an object, unless that value
    is a list or a string in which each of the thirteen names is found;
    then the value itself is returned.  A number, a boolean or [null]
    always gives the defaults. *)
Theorem load_config_falls_back (f : config_file) :
  (content f = Some Unreadable \/ content f = Some Malformed
   \/ (content f = None /\ writable f = false) ->
   load_config f = (JDict default_config, f))
  /\ (forall v, content f = Some (Parsed v) -> (forall d, v <> JDict d) ->
      load_config f
      = (if holds_all_names v then v else JDict default_config, f))
  /\ (forall v, content f = Some (Parsed v) ->
      match v with
      | JNull | JBool _ | JInt _ | JFloat _ => True
      | _ => False
      end ->
      load_config f = (JDict default_config, f)).
Proof.
  assert (Hother : forall v, content f = Some (Parsed v) ->
            (forall d, v <> JDict d) ->
            load_config f
            = (if holds_all_names v then v else JDict default_config, f)).
  { intros v Hf Hv. unfold load_config, load_config_body. rewrite Hf.
    cbn [obind]. rewrite merge_defaults_other by done.
    fold (holds_all_names v). by destruct (holds_all_names v). }
  split; [|split; [exact Hother|]].
  - unfold load_config, load_config_body.
    intros [-> | [-> | [-> ->]]]; reflexivity.
  - intros v Hf Hv. rewrite (Hother v Hf) by (by destruct v).
    by destruct v.
Qed.

Lemma load_config_falls_back_witness :
  load_config (file_with Malformed) = (JDict default_config, file_with Malformed)
  /\ load_config (file_with (Parsed (JList [JStr "fps"])))
     = (JDict default_config, file_with (Parsed (JList [JStr "fps"])))
  /\ load_config (file_with (Parsed (JInt 5)))
     = (JDict default_config, file_with (Parsed (JInt 5))).
Proof.
  split; [|split].
  - apply (proj1 (load_config_falls_back (file_with Malformed))). by right; left.
  - apply (proj1 (proj2 (load_config_falls_back
                           (file_with (Parsed (JList [JStr "fps"])))))
             (JList [JStr "fps"])); [reflexivity|discriminate].
  - apply (proj2 (proj2 (load_config_falls_back (file_with (Parsed (JInt 5)))))
             (JInt 5)); [reflexivity|exact I].
Defined.

(** ** detect_screen_orientation *)

Lemma one_as_ratio :
  PyFloat.int_truediv 1 1 = Ok (binary_normalize PyFloat.prec PyFloat.emax 1 0 false).
Proof. vm_compute. reflexivity. Qed.

Lemma autodetect_side_rule
    (p : player) (d : gmap string json) (w h : Z) :
  config p = JDict d ->
  Py.truthy (default JNull (d !! "force_orientation"%string)) = false ->
  0 < w < 2 ^ 24 -> 0 < h < 2 ^ 24 ->
  detect_screen_orientation (Some (w, h)) p
  = set_screen w h (JStr (if h <? w then "16:9" else "6:19")) p.
Proof.
  intros Hc Hforce Hw Hh.
  destruct (gt_rounded_ratios 1 1 w h ltac:(done) ltac:(done) Hw Hh)
    as (one & ratio & Hone & Hratio & Hgt).
  pose proof one_as_ratio as H1.
  set (o := binary_normalize PyFloat.prec PyFloat.emax 1 0 false) in H1.
  rewrite H1 in Hone. injection Hone as <-.
  unfold detect_screen_orientation, detect_body. rewrite Hc.
  assert (Hget : Py.get (JDict d) "force_orientation"
                 = Ok (default JNull (d !! "force_orientation"%string))).
  { cbn. by destruct (d !! "force_orientation"%string). }
  rewrite Hget. cbn [obind]. rewrite Hforce, Hratio. cbn [obind].
  unfold PyFloat.gt_int. fold o. unfold PyFloat.gt in Hgt. rewrite Hgt.
  replace (1 * h <? w * 1) with (h <? w) by (f_equal; lia).
  by destruct (h <? w).
Qed.

Lemma zero_ratio_is_portrait h :
  0 < h ->
  exists x, PyFloat.int_truediv 0 h = Ok x /\ PyFloat.gt_int x 1 = false.
Proof.
  intros Hh. destruct h as [|q|q]; try lia.
  exists (S754_zero false). split; reflexivity.
Qed.

(** X4. With no forced orientation, the orientation that
    [detect_screen_orientation] records agrees with the screen that it
    records: ["16:9"] with a screen wider than high, ["6:19"] with any
    other; so a square screen is portrait.  The screen is the one of
    the display whenever the display reports a size with a height that
    is not zero (sides taken below [2^24]); it is 1920 by 1080 when
    pygame reports no display, and when it reports a height of zero,
    since the division by zero is caught.  The configuration and the
    playlist are left as they are. *)
Theorem detected_orientation_matches_the_screen
    (p : player) (d : gmap string json) (display : option (Z * Z)) :
  config p = JDict d ->
  Py.truthy (default JNull (d !! "force_orientation"%string)) = false ->
  match display with
  | Some (w, h) => 0 <= w < 2 ^ 24 /\ 0 <= h < 2 ^ 24
  | None => True
  end ->
  let q := detect_screen_orientation display p in
  ((orientation q = JStr "16:9" /\ screen_height q < screen_width q)
   \/ (orientation q = JStr "6:19" /\ screen_width q <= screen_height q))
  /\ match display with
     | Some (w, h) =>
         if h =? 0
         then screen_width q = 1920 /\ screen_height q = 1080
         else screen_width q = w /\ screen_height q = h
     | None => screen_width q = 1920 /\ screen_height q = 1080
     end
  /\ config q = config p /\ ads_list q = ads_list p.
Proof.
  intros Hc Hforce Hsize. cbn zeta.
  apply and_assoc. split; [|apply detect_keeps_playlist].
  assert (Hget : Py.get (JDict d) "force_orientation"
                 = Ok (default JNull (d !! "force_orientation"%string))).
  { cbn. by destruct (d !! "force_orientation"%string). }
  destruct display as [[w h]|].
  - destruct Hsize as [Hw Hh].
    destruct (Z.eq_dec h 0) as [-> | Hh0].
    { unfold detect_screen_orientation, detect_body. rewrite Hc, Hget.
      cbn [obind]. rewrite Hforce. cbn. split; [left|]; split; (done || lia). }
    destruct (h =? 0) eqn:E0; [lia|].
    destruct (Z.eq_dec w 0) as [-> | Hw0].
    { destruct (zero_ratio_is_portrait h ltac:(lia)) as (x & Hx & Hgt).
      unfold detect_screen_orientation, detect_body. rewrite Hc, Hget.
      cbn [obind]. rewrite Hforce, Hx. cbn [obind]. rewrite Hgt. cbn.
      split; [right|]; split; (done || lia). }
    rewrite (autodetect_side_rule p d w h Hc Hforce ltac:(lia) ltac:(lia)).
    cbn. split; [|done].
    destruct (h <? w) eqn:E; [left|right]; split; (done || lia).
  - unfold detect_screen_orientation, detect_body. rewrite Hc, Hget.
    cbn [obind]. rewrite Hforce. cbn. split; [left|]; split; (done || lia).
Qed.

Lemma detected_orientation_matches_the_screen_witness :
  let q := detect_screen_orientation (Some (800, 0)) (player_with [] 0) in
  ((orientation q = JStr "16:9" /\ screen_height q < screen_width q)
   \/ (orientation q = JStr "6:19" /\ screen_width q <= screen_height q))
  /\ (screen_width q = 1920 /\ screen_height q = 1080)
  /\ config q = config (player_with [] 0)
  /\ ads_list q = ads_list (player_with [] 0).
Proof.
  apply (detected_orientation_matches_the_screen (player_with [] 0)
           default_config (Some (800, 0))); [reflexivity|reflexivity|].
  split; [lia|done].
Defined.

(** X5. A forced orientation that is not the string ["16:9"] gives the
    portrait screen of 1080 by 1920, whatever it is: another ratio, a
    word such as ["landscape"], a number or [true]; and it is kept as the
    orientation of the player. *)
Theorem forced_unknown_token_is_portrait
    (display : option (Z * Z)) (p : player) (d : gmap string json) (v : json) :
  config p = JDict d ->
  d !! "force_orientation"%string = Some v ->
  Py.truthy v = true ->
  v <> JStr "16:9" ->
  detect_screen_orientation display p = set_screen 1080 1920 v p.
Proof.
  intros Hc Hd Ht Hv. unfold detect_screen_orientation, detect_body.
  rewrite Hc. cbn. rewrite Hd. cbn [obind]. rewrite Ht.
  destruct (Py.eq_str v "16:9") eqn:E; [|done].
  destruct v; try done. cbn in E. apply String.eqb_eq in E. by subst.
Qed.

Lemma forced_unknown_token_is_portrait_witness :
  detect_screen_orientation (Some (1920, 1080)) (forced_player "landscape")
  = set_screen 1080 1920 (JStr "landscape") (forced_player "landscape").
Proof.
  apply (forced_unknown_token_is_portrait (Some (1920, 1080))
           (forced_player "landscape")
           (<["force_orientation"%string := JStr "landscape"]> default_config)
           (JStr "landscape"));
    [reflexivity|reflexivity|reflexivity|discriminate].
Defined.

End ConfigProofs.

(** * Further properties of the catalogue *)

Module CatalogProofs.
Import Pygame AdsPlayer Samples AdsPlayerProofs.

(** ** The scan *)

Lemma scan_entries_formats ads_dir formats entries acc :
  scan_entries ads_dir (JList formats) entries acc
  = Ok (acc ++ map (fun e => Str.joinpath ads_dir (d_name e))
                  (List.filter (supported formats) entries)).
Proof.
  revert acc. induction entries as [|e rest IH]; intros acc.
  - cbn. by rewrite app_nil_r.
  - cbn [scan_entries List.filter].
    assert (Hs : supported formats e
                 = d_is_file e
                   && existsb (fun x => Py.eq_str x
                                 (Str.lower (Str.suffix (d_name e)))) formats)
      by done.
    rewrite Hs. clear Hs.
    destruct (d_is_file e); cbn [obind andb Py.contains]; rewrite IH.
    + destruct (existsb _ formats); [|done].
      cbn [map]. by rewrite <- app_assoc.
    + done.
Qed.

(** X6. A scan of an existing directory, with shuffling off, replaces
    the playlist by the paths of the entries that are regular files and
    whose suffix, in lower case, is one of the configured formats: in
    the order of the directory, each path made of the directory and the
    name.  The index and the world are left as they are. *)
Theorem scan_lists_supported_files
    (w : world) (p : player) (d : gmap string json)
    (ads_dir : string) (entries : list dirent) (formats : list json)
    (flag : json) :
  config p = JDict d ->
  d !! "ads_directory"%string = Some (JStr ads_dir) ->
  Str.is_normal ads_dir = true ->
  d !! "supported_formats"%string = Some (JList formats) ->
  d !! "shuffle_ads"%string = Some flag ->
  Py.truthy flag = false ->
  fs w !! ads_dir = Some entries ->
  load_ads_content w p
  = Ok (w, set_ads_list
             (map (fun e => Str.joinpath ads_dir (d_name e))
                  (List.filter (supported formats) entries)) p).
Proof.
  intros Hc Hdir _ Hfmt Hflag Htruthy Hfs.
  unfold load_ads_content. rewrite Hc. cbn [Py.getitem].
  rewrite Hdir. cbn [obind as_path]. rewrite Hfs, Hfmt. cbn [obind].
  rewrite scan_entries_formats. cbn [obind app]. rewrite Hflag. cbn [obind].
  by rewrite Htruthy.
Qed.

Lemma scan_lists_supported_files_witness :
  load_ads_content world_mixed_directory (player_with three_ads 1)
  = Ok (world_mixed_directory,
        player_with ["ads/B.PNG"; "ads/a.jpg"; "ads/clip.mp4"]%string 1).
Proof.
  rewrite (scan_lists_supported_files world_mixed_directory
             (player_with three_ads 1) default_config "ads"
             mixed_entries
             [JStr ".jpg"; JStr ".jpeg"; JStr ".png"; JStr ".bmp";
              JStr ".mp4"; JStr ".avi"; JStr ".mov"]
             (JBool false));
    vm_compute; reflexivity.
Defined.

(** ** Formats in upper case *)

Lemma lower_ascii_not_upper c : Str.is_upper (Str.lower_ascii c) = false.
Proof.
  destruct c as [[] [] [] [] [] [] [] []]; vm_compute; reflexivity.
Qed.

Lemma lower_has_no_upper s : has_upper (Str.lower s) = false.
Proof.
  induction s as [|c r IH]; [done|].
  cbn. by rewrite lower_ascii_not_upper, IH.
Qed.

Lemma upper_case_format_no_match f s :
  has_upper f = true -> String.eqb f (Str.lower s) = false.
Proof.
  intros Hf. destruct (String.eqb f (Str.lower s)) eqn:E; [|done].
  apply String.eqb_eq in E. subst f. by rewrite lower_has_no_upper in Hf.
Qed.

Lemma supported_lower_case formats e :
  supported (List.filter is_lower_case_format formats) e = supported formats e.
Proof.
  unfold supported. f_equal.
  induction formats as [|x rest IH]; [done|].
  cbn [List.filter existsb].
  destruct (is_lower_case_format x) eqn:Ex; cbn [existsb]; rewrite IH.
  - done.
  - destruct x as [| | | |f| |]; try done. cbn in *.
    rewrite upper_case_format_no_match; [done|].
    by destruct (has_upper f).
Qed.

(** X7. The suffix of a file is compared in lower case with the
    formats as they are written in the configuration.  So a format that
    holds an upper-case letter, such as [".JPG"], never matches a file,
    and neither does a format that is not a string: the scan keeps the
    same files as with these formats taken out of the list, and it keeps
    no file when no other format is left. *)
Theorem upper_case_format_never_matches
    (ads_dir : string) (formats : list json) (entries : list dirent)
    (acc : list string) :
  scan_entries ads_dir (JList formats) entries acc
  = scan_entries ads_dir (JList (List.filter is_lower_case_format formats))
      entries acc
  /\ (List.filter is_lower_case_format formats = [] ->
      scan_entries ads_dir (JList formats) entries acc = Ok acc).
Proof.
  assert (Heq : scan_entries ads_dir (JList formats) entries acc
    = scan_entries ads_dir (JList (List.filter is_lower_case_format formats))
        entries acc).
  { rewrite !scan_entries_formats. do 3 f_equal.
    apply filter_ext. intros e. by rewrite supported_lower_case. }
  split; [exact Heq|].
  intros Hnone. rewrite Heq, Hnone, scan_entries_formats.
  replace (List.filter (supported []) entries) with (@nil dirent).
  { by rewrite app_nil_r. }
  symmetry. clear. induction entries as [|e rest IH]; [done|].
  cbn [List.filter]. rewrite IH. unfold supported. cbn [existsb].
  by rewrite andb_false_r.
Qed.

(** ** Shuffling *)

Lemma swap_perm {A} (x : list A) i j : swap x i j ≡ₚ x.
Proof.
  unfold swap. destruct (x !! i) as [a|] eqn:Ei; [|done].
  destruct (x !! j) as [b|] eqn:Ej; [|done].
  by apply Permutation_insert_swap.
Qed.

Lemma shuffle_from_perm {A} i w (x : list A) :
  fst (shuffle_from i w x) ≡ₚ x
  /\ fs (snd (shuffle_from i w x)) = fs w
  /\ rng (snd (shuffle_from i w x)) = rng w
  /\ rng_pos (snd (shuffle_from i w x)) = (rng_pos w + i)%nat.
Proof.
  revert w x. induction i as [|i IH]; intros w x.
  - cbn. repeat split; [done|lia].
  - cbn [shuffle_from]. unfold randbelow.
    destruct (IH {| fs := fs w; rng := rng w; rng_pos := S (rng_pos w) |}
                 (swap x (S i) (rng w (rng_pos w) mod (S i + 1))%nat))
      as (Hp & Hfs & Hrng & Hpos).
    cbn in *. repeat split; try done.
    + by rewrite Hp, swap_perm.
    + lia.
Qed.

Lemma shuffle_key_like (w : world) (p : player) :
  exists w1 p1,
    match ads_list p with
    | [] => Ok (w, p)
    | _ => let '(l, w1) := shuffle w (ads_list p) in
           Ok (w1, set_current_ad_index 0 (set_ads_list l p))
    end = Ok (w1, p1)
    /\ ads_list p1 ≡ₚ ads_list p
    /\ fs w1 = fs w.
Proof.
  destruct (ads_list p) as [|a l] eqn:El.
  - exists w, p. by rewrite El.
  - destruct (shuffle_from_perm (length (a :: l) - 1) w (a :: l))
      as (Hp & Hfs & _ & _).
    unfold shuffle.
    destruct (shuffle_from (length (a :: l) - 1) w (a :: l)) as [l' w'].
    by exists w', (set_current_ad_index 0 (set_ads_list l' p)).
Qed.

(** X8. The key [s] shuffles the playlist in place and goes back to
    its first entry: the playlist after the key is a permutation of the
    playlist before, the index is 0 and so is in range, and the
    configuration and the directories are as before.  On an empty
    playlist the key does nothing: no random number is drawn and the
    index stays where it is. *)
Theorem shuffle_key_permutes_playlist (w : world) (p : player) :
  exists w1 p1,
    handle_event (KEYDOWN K_s) w p = Ok (w1, p1)
    /\ ads_list p1 ≡ₚ ads_list p
    /\ config p1 = config p
    /\ fs w1 = fs w
    /\ (ads_list p <> [] -> current_ad_index p1 = 0 /\ index_in_range p1)
    /\ (ads_list p = [] -> w1 = w /\ p1 = p).
Proof.
  cbn [handle_event]. destruct (ads_list p) as [|a l] eqn:El.
  - exists w, p. rewrite El. repeat split; done.
  - destruct (shuffle_from_perm (length (a :: l) - 1) w (a :: l))
      as (Hp & Hfs & Hrng & Hpos).
    unfold shuffle.
    destruct (shuffle_from (length (a :: l) - 1) w (a :: l)) as [l' w'].
    cbn [fst snd] in *.
    exists w', (set_current_ad_index 0 (set_ads_list l' p)).
    repeat split; try done.
    cbn. apply Permutation_length in Hp. cbn in Hp. lia.
Qed.

(** X9. With shuffling on, a scan of an existing directory gives a
    permutation of the playlist that the same scan gives with shuffling
    off: the same files, in an order drawn at random.  The directories
    are as before. *)
Theorem shuffled_scan_is_permutation
    (w : world) (p : player) (d : gmap string json)
    (ads_dir : string) (entries : list dirent) (formats : list json)
    (flag : json) :
  config p = JDict d ->
  d !! "ads_directory"%string = Some (JStr ads_dir) ->
  Str.is_normal ads_dir = true ->
  d !! "supported_formats"%string = Some (JList formats) ->
  d !! "shuffle_ads"%string = Some flag ->
  Py.truthy flag = true ->
  fs w !! ads_dir = Some entries ->
  exists l w1,
    load_ads_content w p = Ok (w1, set_ads_list l p)
    /\ l ≡ₚ map (fun e => Str.joinpath ads_dir (d_name e))
              (List.filter (supported formats) entries)
    /\ fs w1 = fs w.
Proof.
  intros Hc Hdir _ Hfmt Hflag Htruthy Hfs.
  unfold load_ads_content. rewrite Hc. cbn [Py.getitem].
  rewrite Hdir. cbn [obind as_path]. rewrite Hfs, Hfmt. cbn [obind].
  rewrite scan_entries_formats. cbn [obind app]. rewrite Hflag. cbn [obind].
  rewrite Htruthy.
  set (found := map _ _).
  destruct (shuffle_from_perm (length found - 1) w found)
    as (Hp & Hfs' & _ & _).
  unfold shuffle. destruct (shuffle_from (length found - 1) w found) as [l w1].
  by exists l, w1.
Qed.

Lemma shuffled_scan_is_permutation_witness :
  exists l w1,
    load_ads_content world_mixed_shuffling shuffling_player
    = Ok (w1, set_ads_list l shuffling_player)
    /\ l ≡ₚ map (fun e => Str.joinpath "ads" (d_name e))
              (List.filter
                 (supported [JStr ".jpg"; JStr ".jpeg"; JStr ".png"; JStr ".bmp";
                             JStr ".mp4"; JStr ".avi"; JStr ".mov"])
                 mixed_entries)
    /\ fs w1 = fs world_mixed_shuffling.
Proof.
  apply (shuffled_scan_is_permutation world_mixed_shuffling shuffling_player
           (<["shuffle_ads"%string := JBool true]> default_config) "ads"
           mixed_entries
           [JStr ".jpg"; JStr ".jpeg"; JStr ".png"; JStr ".bmp";
            JStr ".mp4"; JStr ".avi"; JStr ".mov"]
           (JBool true));
    vm_compute; reflexivity.
Defined.

(** ** The scan and the dispatch agree on the suffix *)

Lemma no_slash_after_last_slash name :
  ~ In "/"%char (list_ascii_of_string name) -> Str.after_last_slash name = None.
Proof.
  induction name as [|c r IH]; [done|].
  cbn. intros Hno. rewrite IH by tauto.
  destruct (Ascii.eqb c "/") eqn:E; [|done].
  apply Ascii.eqb_eq in E. tauto.
Qed.

Lemma after_last_slash_joinpath ads_dir name :
  Str.after_last_slash name = None ->
  Str.after_last_slash (Str.joinpath ads_dir name) = Some name.
Proof.
  intros Hno. unfold Str.joinpath.
  induction ads_dir as [|c r IH]; simpl.
  - change ("" +:+ name) with name. by rewrite Hno.
  - by rewrite IH.
Qed.

(** X10. A path that the scan has made of the directory and a file
    name is classified by the name alone: its last component is the
    name, and it is played as a video exactly when the suffix of the
    name, in lower case, is one of [.mp4 .avi .mov .mkv .wmv], whatever
    the directory is called. *)
Theorem scanned_file_is_classified_by_its_name (ads_dir name : string) :
  name <> ""%string ->
  ~ In "/"%char (list_ascii_of_string name) ->
  Str.basename (Str.joinpath ads_dir name) = name
  /\ is_video_file (Str.joinpath ads_dir name)
     = existsb (String.eqb (Str.lower (Str.suffix name))) video_extensions.
Proof.
  intros _ Hno.
  assert (Hb : Str.basename (Str.joinpath ads_dir name) = name).
  { unfold Str.basename.
    by rewrite after_last_slash_joinpath by by apply no_slash_after_last_slash. }
  split; [done|]. unfold is_video_file. by rewrite Hb.
Qed.

Lemma scanned_file_is_classified_by_its_name_witness :
  Str.basename (Str.joinpath "videos.mp4/ads" "Poster.JPG") = "Poster.JPG"%string
  /\ is_video_file (Str.joinpath "videos.mp4/ads" "Poster.JPG")
     = existsb (String.eqb (Str.lower (Str.suffix "Poster.JPG"))) video_extensions.
Proof.
  apply (scanned_file_is_classified_by_its_name "videos.mp4/ads" "Poster.JPG").
  - discriminate.
  - cbn. intros H. decompose [or] H; try discriminate; done.
Defined.

(** ** Upper and lower case in file names *)

Lemma lower_ascii_keeps_dot c :
  Ascii.eqb (Str.lower_ascii c) "." = Ascii.eqb c "."
  /\ Ascii.eqb (Str.lower_ascii c) "/" = Ascii.eqb c "/".
Proof.
  destruct c as [[] [] [] [] [] [] [] []]; vm_compute; split; reflexivity.
Qed.

Lemma lower_length s : String.length (Str.lower s) = String.length s.
Proof. induction s as [|c r IH]; [done|]. cbn. by rewrite IH. Qed.

Lemma lower_last_dot_tail s :
  Str.last_dot_tail (Str.lower s) = Str.lower <$> Str.last_dot_tail s.
Proof.
  induction s as [|c r IH]; [done|].
  cbn [Str.lower Str.last_dot_tail]. rewrite IH.
  destruct (Str.last_dot_tail r) as [t|]; [done|]. cbn.
  rewrite (proj1 (lower_ascii_keeps_dot c)). by destruct (Ascii.eqb c ".").
Qed.

Lemma lower_suffix s : Str.suffix (Str.lower s) = Str.lower (Str.suffix s).
Proof.
  destruct s as [|c r]; [done|]. cbn [Str.lower Str.suffix].
  rewrite lower_last_dot_tail. destruct (Str.last_dot_tail r) as [t|]; [|done].
  cbn. rewrite lower_length. by destruct (String.length t =? 1)%nat.
Qed.

Lemma lower_after_last_slash s :
  Str.after_last_slash (Str.lower s) = Str.lower <$> Str.after_last_slash s.
Proof.
  induction s as [|c r IH]; [done|].
  cbn [Str.lower Str.after_last_slash]. rewrite IH.
  destruct (Str.after_last_slash r) as [t|]; [done|]. cbn.
  rewrite (proj2 (lower_ascii_keeps_dot c)). by destruct (Ascii.eqb c "/").
Qed.

Lemma lower_basename s : Str.basename (Str.lower s) = Str.lower (Str.basename s).
Proof.
  unfold Str.basename. rewrite lower_after_last_slash.
  by destruct (Str.after_last_slash s).
Qed.

(** X11. Upper and lower case in an ASCII file name do not matter.
    Two names of ASCII characters that are the same up to the case of
    their letters are kept or left out alike by the scan, for every list
    of formats; and two paths of ASCII characters, written as [pathlib]
    prints them, that are the same up to case are both played as videos
    or both shown as images. *)
Theorem file_types_ignore_case :
  (forall (formats : list json) (name1 name2 : string) (is_file : bool),
     Str.is_ascii name1 = true -> Str.is_ascii name2 = true ->
     Str.lower name1 = Str.lower name2 ->
     supported formats {| d_name := name1; d_is_file := is_file |}
     = supported formats {| d_name := name2; d_is_file := is_file |})
  /\ (forall path1 path2 : string,
        Str.is_ascii path1 = true -> Str.is_ascii path2 = true ->
        Str.is_normal path1 = true -> Str.is_normal path2 = true ->
        Str.lower path1 = Str.lower path2 ->
        is_video_file path1 = is_video_file path2).
Proof.
  split.
  - intros formats name1 name2 is_file _ _ Hsame. unfold supported. cbn.
    by rewrite <- !lower_suffix, Hsame.
  - intros path1 path2 _ _ _ _ Hsame. unfold is_video_file.
    by rewrite <- !lower_suffix, <- !lower_basename, Hsame.
Qed.

Lemma file_types_ignore_case_witness :
  is_video_file "ads/Clip.MP4" = is_video_file "ads/clip.mp4".
Proof.
  apply (proj2 file_types_ignore_case "ads/Clip.MP4" "ads/clip.mp4");
    reflexivity.
Defined.

End CatalogProofs.

(** * Further properties of the scheduler *)

Module SchedulerProofs.
Import Pygame AdsPlayer Samples AdsPlayerProofs CatalogProofs.

(** ** display_current_ad *)

(** X12. [display_current_ad] shows the message for an empty playlist;
    on a playlist of [n >= 1] entries it dispatches the entry at the
    index [i] when [0 <= i < n], the entry at [i + n], counted from the
    end, when [-n <= i < 0], and raises [IndexError] for every other
    index.  It raises nothing else. *)
Theorem display_current_ad_by_index (p : player) :
  let n := Z.of_nat (length (ads_list p)) in
  let i := current_ad_index p in
  (ads_list p = [] -> display_current_ad p = Ok NoAdsAvailable)
  /\ (ads_list p <> [] ->
      (0 <= i < n ->
       exists a, ads_list p !! Z.to_nat i = Some a
                 /\ display_current_ad p = Ok (dispatch_of a))
      /\ (- n <= i < 0 ->
          exists a, ads_list p !! Z.to_nat (i + n) = Some a
                    /\ display_current_ad p = Ok (dispatch_of a))
      /\ (i < - n \/ n <= i -> display_current_ad p = Raise IndexError)).
Proof.
  cbn zeta. split; [unfold display_current_ad; by intros ->|]. intros Hne.
  assert (Hd : display_current_ad p
               = obind (Py.index (ads_list p) (current_ad_index p))
                       (fun a => Ok (dispatch_of a))).
  { unfold display_current_ad. destruct (ads_list p) eqn:El; [done|].
    destruct (Py.index _ _) as [a|]; [|done]. cbn [obind].
    unfold dispatch_of. by destruct (is_video_file a). }
  rewrite Hd. unfold Py.index.
  set (n := Z.of_nat (length (ads_list p))). set (i := current_ad_index p).
  split; [|split].
  - intros Hi. destruct (i <? 0) eqn:E0; [lia|].
    destruct ((0 <=? i) && (i <? n)) eqn:E1; [|lia].
    destruct (lookup_lt_is_Some_2 (ads_list p) (Z.to_nat i)) as [a Ha];
      [unfold n in *; lia|].
    exists a. by rewrite Ha.
  - intros Hi. destruct (i <? 0) eqn:E0; [|lia].
    destruct ((0 <=? i + n) && (i + n <? n)) eqn:E1; [|lia].
    destruct (lookup_lt_is_Some_2 (ads_list p) (Z.to_nat (i + n))) as [a Ha];
      [unfold n in *; lia|].
    exists a. by rewrite Ha.
  - intros Hi. destruct (i <? 0) eqn:E0.
    + destruct ((0 <=? i + n) && (i + n <? n)) eqn:E1; [lia|done].
    + destruct ((0 <=? i) && (i <? n)) eqn:E1; [lia|done].
Qed.

(** ** handle_events *)

Lemma load_ads_content_keeps_settings w p w1 p1 :
  load_ads_content w p = Ok (w1, p1) ->
  config p1 = config p /\ screen_width p1 = screen_width p
  /\ screen_height p1 = screen_height p /\ orientation p1 = orientation p
  /\ running p1 = running p /\ current_ad_index p1 = current_ad_index p
  /\ rng w1 = rng w.
Proof.
  unfold load_ads_content.
  destruct (Py.getitem (config p) "ads_directory") as [v|]; [|done].
  cbn [obind]. destruct (as_path v) as [ads_dir|]; [|done]. cbn [obind].
  destruct (fs w !! ads_dir) as [entries|].
  - destruct (Py.getitem (config p) "supported_formats") as [fmts|]; [|done].
    cbn [obind]. destruct (scan_entries _ _ _ _) as [found|]; [|done].
    cbn [obind]. destruct (Py.getitem (config p) "shuffle_ads") as [flag|];
      [|done].
    cbn [obind]. destruct (Py.truthy flag).
    + destruct (shuffle_from_perm (length found - 1) w found)
        as (_ & _ & Hrng & _).
      unfold shuffle.
      destruct (shuffle_from (length found - 1) w found) as [l w'].
      by intros [= <- <-].
    + by intros [= <- <-].
  - by intros [= <- <-].
Qed.

Lemma handle_event_keeps_settings ev w p w1 p1 :
  handle_event ev w p = Ok (w1, p1) ->
  config p1 = config p /\ screen_width p1 = screen_width p
  /\ screen_height p1 = screen_height p /\ orientation p1 = orientation p
  /\ rng w1 = rng w
  /\ running p1 = (if is_quit ev then false else running p).
Proof.
  destruct ev as [|[]|]; cbn [handle_event is_quit];
    try (by intros [= <- <-]).
  - intros [= <- <-]. unfold next_ad. by destruct (ads_list p).
  - intros H. apply load_ads_content_keeps_settings in H. tauto.
  - destruct (ads_list p) as [|a l]; [by intros [= <- <-]|].
    destruct (shuffle_from_perm (length (a :: l) - 1) w (a :: l))
      as (_ & _ & Hrng & _).
    unfold shuffle.
    destruct (shuffle_from (length (a :: l) - 1) w (a :: l)) as [l' w'].
    by intros [= <- <-].
Qed.


(** X13. Whatever events arrive, [handle_events] leaves the
    configuration, the size of the screen and the orientation as they
    are, and it never sets [running]: the flag is false after a batch
    that holds a quit event (the window is closed, or the key ESC or
    [q]), wherever in the batch it stands, and it is as before after a
    batch that holds none. *)
Theorem handle_events_keeps_settings
    (evs : list event) (w : world) (p : player) (w1 : world) (p1 : player) :
  handle_events evs w p = Ok (w1, p1) ->
  config p1 = config p
  /\ screen_width p1 = screen_width p
  /\ screen_height p1 = screen_height p
  /\ orientation p1 = orientation p
  /\ (running p = false -> running p1 = false)
  /\ (existsb is_quit evs = true -> running p1 = false)
  /\ (existsb is_quit evs = false -> running p1 = running p).
Proof.
  revert w p. induction evs as [|ev rest IH]; intros w p.
  - cbn. by intros [= <- <-].
  - cbn [handle_events existsb].
    destruct (handle_event ev w p) as [[w2 p2]|] eqn:Eev; [|done].
    cbn [obind fst snd]. intros Hrest.
    apply handle_event_keeps_settings in Eev
      as (Hc & Hw & Hh & Ho & _ & Hr).
    destruct (IH _ _ Hrest) as (Hc' & Hw' & Hh' & Ho' & Hoff & Hq & Hnq).
    repeat split; try congruence.
    + intros Hp. apply Hoff. rewrite Hr, Hp. by destruct (is_quit ev).
    + destruct (is_quit ev); cbn.
      * intros _. by apply Hoff.
      * exact Hq.
    + destruct (is_quit ev); cbn; [done|]. intros H. by rewrite Hnq, Hr.
Qed.

Lemma handle_events_keeps_settings_witness :
  let p := player_with three_ads 0 in
  let p1 := set_running false (player_with three_ads 1) in
  config p1 = config p
  /\ screen_width p1 = screen_width p
  /\ screen_height p1 = screen_height p
  /\ orientation p1 = orientation p
  /\ (running p = false -> running p1 = false)
  /\ (existsb is_quit [QUIT; KEYDOWN K_SPACE] = true -> running p1 = false)
  /\ (existsb is_quit [QUIT; KEYDOWN K_SPACE] = false -> running p1 = running p).
Proof.
  apply (handle_events_keeps_settings [QUIT; KEYDOWN K_SPACE]
           world_one_image (player_with three_ads 0) world_one_image).
  vm_compute. reflexivity.
Defined.

(** ** The index invariant through a turn of the loop *)

Lemma handle_event_no_reload ev w p :
  is_reload ev = false ->
  exists w1 p1,
    handle_event ev w p = Ok (w1, p1)
    /\ (index_in_range p -> index_in_range p1)
    /\ ads_list p1 ≡ₚ ads_list p
    /\ fs w1 = fs w.
Proof.
  intros Hev.
  assert (Hne : ev <> KEYDOWN K_r) by (by intros ->).
  assert (Hok : exists w1 p1,
            handle_event ev w p = Ok (w1, p1)
            /\ ads_list p1 ≡ₚ ads_list p /\ fs w1 = fs w).
  { destruct ev as [|[]|]; try done; cbn [handle_event]; eauto.
    - eexists _, _. split; [done|]. by rewrite next_ad_ads_list.
    - destruct (shuffle_key_like w p) as (w1 & p1 & H1 & H2 & H3).
      eauto. }
  destruct Hok as (w1 & p1 & Hrun & Hp & Hfs). exists w1, p1.
  split; [done|]. split; [|done].
  by apply (handle_event_index_in_range ev w p w1).
Qed.

Lemma handle_events_no_reload evs w p :
  existsb is_reload evs = false ->
  exists w1 p1,
    handle_events evs w p = Ok (w1, p1)
    /\ (index_in_range p -> index_in_range p1)
    /\ ads_list p1 ≡ₚ ads_list p
    /\ fs w1 = fs w.
Proof.
  revert w p. induction evs as [|ev rest IH]; intros w p Hevs.
  - by exists w, p.
  - cbn in Hevs. apply orb_false_elim in Hevs as [Hev Hrest].
    destruct (handle_event_no_reload ev w p Hev) as (w2 & p2 & H2 & Hi2 & Hp2 & Hf2).
    destruct (IH w2 p2 Hrest) as (w1 & p1 & H1 & Hi1 & Hp1 & Hf1).
    exists w1, p1. cbn [handle_events]. rewrite H2. cbn [obind fst snd].
    split; [done|]. split; [tauto|]. split; [by rewrite Hp1|congruence].
Qed.

Lemma display_current_ad_in_range p :
  index_in_range p ->
  exists d, display_current_ad p = Ok d
            /\ (d = NoAdsAvailable <-> ads_list p = []).
Proof.
  intros Hinv. unfold display_current_ad.
  destruct (ads_list p) as [|a0 l] eqn:El; [by exists NoAdsAvailable|].
  rewrite <- El in *. specialize (Hinv ltac:(by rewrite El)).
  unfold Py.index. destruct (current_ad_index p <? 0) eqn:E0; [lia|].
  destruct ((0 <=? current_ad_index p) && _) eqn:E1; [|lia].
  destruct (lookup_lt_is_Some_2 (ads_list p) (Z.to_nat (current_ad_index p)))
    as [a Ha]; [lia|].
  rewrite Ha. cbn [obind]. rewrite El.
  destruct (is_video_file a); eexists; (split; [done|]); by split.
Qed.

(** X14. Only the reload key can take the index out of range.  From a
    state that satisfies the index invariant, a turn of the loop whose
    events hold no reload key comes to the renderer without an
    exception: the events are handled, the timed advance is made when it
    is due, and the entry at the index is dispatched.  After the turn
    the invariant holds again, the playlist is a permutation of the one
    before, and the directories are as before.  The message for an empty
    playlist is dispatched exactly when the playlist is empty. *)
Theorem turn_without_reload_keeps_index_in_range
    (evs : list event) (due : bool) (w : world) (p : player) :
  existsb is_reload evs = false ->
  index_in_range p ->
  exists w1 p1 d,
    tick evs due w p = Ok (w1, p1, d)
    /\ index_in_range p1
    /\ ads_list p1 ≡ₚ ads_list p
    /\ fs w1 = fs w
    /\ (d = NoAdsAvailable <-> ads_list p = []).
Proof.
  intros Hevs Hinv.
  destruct (handle_events_no_reload evs w p Hevs) as (w1 & p1 & H1 & Hi1 & Hp1 & Hf1).
  specialize (Hi1 Hinv).
  set (p2 := if due then next_ad p1 else p1).
  assert (Hi2 : index_in_range p2).
  { unfold p2. destruct due; [apply next_ad_index_in_range|done]. }
  assert (Hl2 : ads_list p2 = ads_list p1).
  { unfold p2. destruct due; [apply next_ad_ads_list|done]. }
  destruct (display_current_ad_in_range p2 Hi2) as (d & Hd & Hempty).
  exists w1, p2, d. unfold tick. rewrite H1. cbn [obind fst snd].
  fold p2. rewrite Hd. cbn [obind].
  split; [done|]. split; [done|]. split; [by rewrite Hl2|].
  split; [done|]. split.
  - intros ->. destruct Hempty as [He _]. specialize (He eq_refl).
    rewrite Hl2 in He. rewrite He in Hp1. by apply Permutation_nil_l in Hp1.
  - intros He. apply Hempty. rewrite Hl2.
    rewrite He in Hp1. by apply Permutation_nil_r in Hp1.
Qed.

Lemma turn_without_reload_keeps_index_in_range_witness :
  exists w1 p1 d,
    tick [KEYDOWN K_SPACE; KEYDOWN K_s] true world_one_image
      (player_with three_ads 2) = Ok (w1, p1, d)
    /\ index_in_range p1
    /\ ads_list p1 ≡ₚ ads_list (player_with three_ads 2)
    /\ fs w1 = fs world_one_image
    /\ (d = NoAdsAvailable <-> ads_list (player_with three_ads 2) = []).
Proof.
  apply (turn_without_reload_keeps_index_in_range
           [KEYDOWN K_SPACE; KEYDOWN K_s] true world_one_image
           (player_with three_ads 2)).
  - reflexivity.
  - intros _. cbn. lia.
Defined.

(** ** run *)







(** ** The timer of run *)

Lemma handle_event_keeps_index ev w p :
  keeps_index ev = true ->
  exists p1,
    handle_event ev w p = Ok (w, p1)
    /\ current_ad_index p1 = current_ad_index p.
Proof.
  destruct ev as [|[]|]; try done; intros _; cbn [handle_event]; eauto.
Qed.

Lemma handle_events_keep_index evs w p :
  forallb keeps_index evs = true ->
  exists p1,
    handle_events evs w p = Ok (w, p1)
    /\ current_ad_index p1 = current_ad_index p.
Proof.
  revert p. induction evs as [|ev rest IH]; intros p Hevs; [by exists p|].
  cbn in Hevs. apply andb_prop in Hevs as [Hev Hrest].
  destruct (handle_event_keeps_index ev w p Hev) as (p2 & H2 & Hi2).
  destruct (IH p2 Hrest) as (p1 & H1 & Hi1).
  exists p1. cbn [handle_events]. rewrite H2. cbn [obind fst snd].
  split; [done|congruence].
Qed.

(** When the test of the timer holds between two readings, they lie
    at least [d * (1 - 2^-53)] seconds apart. *)
Lemma due_readings_apart t u d :
  is_reading t = true -> is_reading u = true -> 0 < d ->
  PyFloat.ge_int (PyFloat.sub t u) d = true ->
  (2 ^ 53 - 1) * (d * 2 ^ 52) <= 2 ^ 53 * (ticks t - ticks u).
Proof.
  destruct t as [| | |[] mt et]; try done. destruct u as [| | |[] mu eu]; try done.
  cbn [is_reading ticks]. intros Ht Hu Hd.
  apply andb_prop in Ht as [Ht Ht4]. apply andb_prop in Ht as [Ht Ht3].
  apply andb_prop in Ht as [Ht1 Ht2].
  apply andb_prop in Hu as [Hu Hu4]. apply andb_prop in Hu as [Hu Hu3].
  apply andb_prop in Hu as [Hu1 Hu2].
  apply Z.leb_le in Ht1, Ht3, Ht4, Hu1, Hu3, Hu4.
  apply Z.ltb_lt in Ht2, Hu2.
  by apply PyFloatProofs.sub_ge_int_bound.
Qed.

Lemma run_loop_spaced message_ok frames d last since w p :
  0 < d -> is_reading last = true -> ticks since <= ticks last ->
  Forall (fun fr => is_reading (now fr) = true
                    /\ forallb keeps_index (pending fr) = true) frames ->
  spaced d since (current_ad_index p)
    (fst (run_loop message_ok frames (JInt d) last w p)).
Proof.
  intros Hd Hlast Hsince Hframes. revert last since w p Hlast Hsince.
  induction Hframes as [|fr rest [Hnow Hfr] _ IH];
    intros last since w p Hlast Hsince.
  { cbn. by destruct (running p). }
  cbn [run_loop]. destruct (running p); [|done].
  destruct (handle_events_keep_index (pending fr) w p Hfr) as (p1 & H1 & Hi1).
  rewrite H1. cbn [at_least].
  pose proof (due_readings_apart (now fr) last d Hnow Hlast Hd) as Hapart.
  set (due := PyFloat.ge_int (PyFloat.sub (now fr) last) d) in *.
  set (p2 := if due then next_ad p1 else p1).
  set (last2 := if due then now fr else last).
  assert (Hpos : 0 < (2 ^ 53 - 1) * (d * 2 ^ 52)) by lia.
  set (bound := (2 ^ 53 - 1) * (d * 2 ^ 52)) in *.
  assert (Hlast2 : is_reading last2 = true /\ ticks since <= ticks last2).
  { unfold last2. destruct due; [|done]. split; [done|].
    specialize (Hapart eq_refl). lia. }
  destruct Hlast2 as [Hr2 Hs2].
  destruct (display_current_ad p2) as [dd|]; [|done].
  destruct (is_message dd && negb message_ok); [done|].
  assert (Hstep : forall log,
            (forall since2, ticks since2 <= ticks last2 ->
               spaced d since2 (current_ad_index p2) log) ->
            spaced d since (current_ad_index p)
              ({| at_time := now fr; index := current_ad_index p2; what := dd |}
               :: log)).
  { intros log Hlog. cbn [spaced index at_time].
    destruct (current_ad_index p2 =? current_ad_index p) eqn:Esame.
    - apply Z.eqb_eq in Esame. rewrite <- Esame. by apply Hlog.
    - apply Z.eqb_neq in Esame.
      assert (Hdue : due = true).
      { destruct due eqn:E; [done|]. unfold p2 in Esame. congruence. }
      specialize (Hapart Hdue). fold bound. split; [lia|].
      apply Hlog. unfold last2. rewrite Hdue. lia. }
  destruct (obind _ clock_tick) as [[]|e].
  - assert (Hrest : forall since2, ticks since2 <= ticks last2 ->
              spaced d since2 (current_ad_index p2)
                (fst (run_loop message_ok rest (JInt d) last2 w p2))).
    { intros since2 Hs. by apply IH. }
    destruct (run_loop message_ok rest (JInt d) last2 w p2) as [log r].
    cbn [fst] in *. by apply Hstep.
  - cbn [fst]. apply Hstep. by intros.
Qed.

(** X16. The timer of [run] leaves an ad on the screen for the
    configured duration, up to the rounding of the float subtraction.
    With a duration of [d > 0] whole seconds, readings of the clock that
    are normal floats from 1 up, and as long as no key is pressed that
    moves the index (the keys SPACE, [r] and [s]), the index that a pass
    of the loop shows differs from the index of the pass before only
    when the reading of the pass lies at least [d * (1 - 2^-53)] seconds
    after the reading of the pass in which the index last changed, or
    after the reading at the start of [run].  The clock need not be
    monotone. *)
Theorem timer_keeps_each_ad_for_the_duration
    (can_open : Z -> Z -> display_mode -> bool) (message_ok : bool)
    (start : spec_float) (frames : list frame) (w : world) (p : player)
    (cfg : gmap string json) (d : Z) :
  config p = JDict cfg ->
  cfg !! "display_duration"%string = Some (JInt d) ->
  0 < d ->
  is_reading start = true ->
  Forall (fun fr => is_reading (now fr) = true
                    /\ forallb keeps_index (pending fr) = true) frames ->
  spaced d start (current_ad_index p)
    (fst (run can_open message_ok start frames w p)).
Proof.
  intros Hc Hdd Hd Hstart Hframes. unfold run.
  destruct (setup_display can_open p); [|done].
  replace (config (set_running true p)) with (JDict cfg) by (by rewrite <- Hc).
  cbn [Py.getitem]. rewrite Hdd.
  by apply (run_loop_spaced message_ok frames d start start w
              (set_running true p)).
Qed.

Lemma timer_keeps_each_ad_for_the_duration_witness :
  spaced 10 (at_second 0) 0
    [ {| at_time := at_second 4; index := 0; what := DisplayImage "ads/a.jpg" |};
      {| at_time := at_second 8; index := 0; what := DisplayImage "ads/a.jpg" |};
      {| at_time := at_second 12; index := 1; what := DisplayImage "ads/b.jpg" |};
      {| at_time := at_second 16; index := 1; what := DisplayImage "ads/b.jpg" |} ].
Proof.
  apply (timer_keeps_each_ad_for_the_duration (fun _ _ _ => true) false
           (at_second 0) four_quiet_frames world_one_image
           (player_with three_ads 0) default_config 10); try reflexivity.
  repeat constructor.
Defined.

(** ** Start-up *)

Lemma detect_keeps_index display p :
  current_ad_index (detect_screen_orientation display p) = current_ad_index p
  /\ running (detect_screen_orientation display p) = running p.
Proof.
  unfold detect_screen_orientation. destruct (detect_body display p) eqn:E; [|done].
  unfold detect_body in E. destruct (Py.get _ _) as [forced|]; [|done].
  cbn in E. destruct (Py.truthy forced).
  { destruct (Py.eq_str _ _); injection E as <-; done. }
  destruct display as [[w h]|]; [|done].
  destruct (PyFloat.int_truediv w h); [|done]. cbn in E.
  destruct (PyFloat.gt_int _ _); injection E as <-; done.
Qed.

(** X17. A player that has been constructed satisfies the index
    invariant: whenever [__init__] returns, the index is 0, which is in
    range for every playlist that is not empty; the player is not
    running, and its configuration is the one that [load_config]
    returned. *)
Theorem init_starts_at_the_first_ad
    (f : config_file) (display : option (Z * Z)) (w : world)
    (w1 : world) (p1 : player) (f1 : config_file) :
  init f display w = Ok (w1, p1, f1) ->
  current_ad_index p1 = 0
  /\ index_in_range p1
  /\ running p1 = false
  /\ config p1 = fst (load_config f)
  /\ f1 = snd (load_config f).
Proof.
  unfold init. destruct (load_config f) as [cfg f'].
  set (p0 := {| config := cfg; running := false; current_ad_index := 0;
                ads_list := []; screen_width := 0; screen_height := 0;
                orientation := JStr "16:9" |}).
  destruct (detect_keeps_playlist display p0) as [Hc0 _].
  destruct (detect_keeps_index display p0) as [Hi0 Hr0].
  destruct (load_ads_content w (detect_screen_orientation display p0))
    as [[w2 p2]|] eqn:Eload; [|done].
  cbn [obind fst snd]. intros [= <- <- <-].
  apply load_ads_content_keeps_settings in Eload
    as (Hc & _ & _ & _ & Hr & Hi & _).
  assert (Hindex : current_ad_index p2 = 0) by (by rewrite Hi, Hi0).
  split; [done|]. split.
  { intros Hne. rewrite Hindex. destruct (ads_list p2); [done|cbn; lia]. }
  split; [by rewrite Hr, Hr0|]. split; [by rewrite Hc, Hc0|done].
Qed.

Lemma init_starts_at_the_first_ad_witness :
  let f := file_with (Parsed (JDict ∅)) in
  let p1 := set_running false
              (player_with ["ads/B.PNG"; "ads/a.jpg"; "ads/clip.mp4"]%string 0) in
  current_ad_index p1 = 0
  /\ index_in_range p1
  /\ running p1 = false
  /\ config p1 = fst (load_config f)
  /\ f = snd (load_config f).
Proof.
  apply (init_starts_at_the_first_ad (file_with (Parsed (JDict ∅)))
           (Some (1920, 1080)) world_mixed_directory world_mixed_directory).
  vm_compute. reflexivity.
Defined.

(** ** Two reloads of a missing directory *)

(** X18. The second reload empties the playlist that the first one
    kept.  When the directory of the ads is missing, the key [r] creates
    it and leaves the playlist as it is; pressed again, it scans the
    directory that is now there, and empty, and the playlist becomes
    empty, while the index stays where it was. *)
Theorem second_reload_empties_the_playlist
    (w : world) (p : player) (d : gmap string json) (ads_dir : string)
    (formats flag : json) :
  config p = JDict d ->
  d !! "ads_directory"%string = Some (JStr ads_dir) ->
  Str.is_normal ads_dir = true ->
  d !! "supported_formats"%string = Some formats ->
  d !! "shuffle_ads"%string = Some flag ->
  fs w !! ads_dir = None ->
  handle_events [KEYDOWN K_r] w p = Ok (mkdir w ads_dir, p)
  /\ handle_events [KEYDOWN K_r; KEYDOWN K_r] w p
     = Ok (mkdir w ads_dir, set_ads_list [] p)
  /\ fs (mkdir w ads_dir) !! ads_dir = Some [].
Proof.
  intros Hc Hdir _ Hfmt Hflag Hfs.
  assert (H1 : load_ads_content w p = Ok (mkdir w ads_dir, p)).
  { by apply (load_missing_directory w p d ads_dir). }
  assert (Hfs2 : fs (mkdir w ads_dir) !! ads_dir = Some []).
  { cbn. apply lookup_insert_eq. }
  assert (H2 : load_ads_content (mkdir w ads_dir) p
               = Ok (mkdir w ads_dir, set_ads_list [] p)).
  { unfold load_ads_content. rewrite Hc. cbn [Py.getitem].
    rewrite Hdir. cbn [obind as_path]. rewrite Hfs2, Hfmt. cbn [obind scan_entries].
    rewrite Hflag. cbn [obind]. by destruct (Py.truthy flag). }
  split; [|split; [|done]].
  - cbn [handle_events handle_event]. by rewrite H1.
  - cbn [handle_events handle_event]. rewrite H1. cbn [obind fst snd].
    by rewrite H2.
Qed.

Lemma second_reload_empties_the_playlist_witness :
  handle_events [KEYDOWN K_r] world_no_directory (player_with three_ads 1)
  = Ok (mkdir world_no_directory "ads", player_with three_ads 1)
  /\ handle_events [KEYDOWN K_r; KEYDOWN K_r] world_no_directory
       (player_with three_ads 1)
     = Ok (mkdir world_no_directory "ads",
           set_ads_list [] (player_with three_ads 1))
  /\ fs (mkdir world_no_directory "ads") !! "ads"%string = Some [].
Proof.
  apply (second_reload_empties_the_playlist world_no_directory
           (player_with three_ads 1) default_config "ads"
           (JList [JStr ".jpg"; JStr ".jpeg"; JStr ".png"; JStr ".bmp";
                   JStr ".mp4"; JStr ".avi"; JStr ".mov"])
           (JBool false));
    reflexivity.
Defined.

End SchedulerProofs.

(** * Properties of the renderer *)

Module RendererProofs.
Import Pygame AdsPlayer Samples AdsPlayerProofs.

Lemma half_margin (a : Z) :
  0 <= a -> 0 <= a / 2 /\ 0 <= a - 2 * (a / 2) <= 1.
Proof.
  intros Ha. pose proof (Z.div_mod a 2 ltac:(lia)) as Hdm.
  pose proof (Z.mod_pos_bound a 2 ltac:(lia)) as Hm.
  split; [apply Z.div_pos; lia|lia].
Qed.

(** X19. An image that loads, with sides positive and below [2^24], on
    a screen of such sides and with a background colour that pygame
    accepts, is drawn in three steps: the screen is filled with the
    colour, the scaled image is put on it, the display is flipped.  The
    image lies within the screen, it is centred (the margins left and
    right differ by at most one pixel, and so do the margins above and
    below), and it touches two opposite sides of the screen. *)
Theorem display_image_is_centred
    (R : renderer) (p : player) (cfg : gmap string json)
    (image_path : string) (img_width img_height : Z) (color : json) :
  image_size R image_path = Some (img_width, img_height) ->
  0 < screen_width p < 2 ^ 24 -> 0 < screen_height p < 2 ^ 24 ->
  0 < img_width < 2 ^ 24 -> 0 < img_height < 2 ^ 24 ->
  config p = JDict cfg ->
  cfg !! "background_color"%string = Some color ->
  color_ok R color = true ->
  exists width height x y,
    display_image R p image_path
    = Drawn [Fill color; BlitImage image_path width height x y; Flip]
            ("Displaying image: " +:+ Str.basename image_path)
    /\ 0 <= x /\ 0 <= y
    /\ x + width <= screen_width p /\ y + height <= screen_height p
    /\ 0 <= screen_width p - width - 2 * x <= 1
    /\ 0 <= screen_height p - height - 2 * y <= 1
    /\ ((width = screen_width p /\ x = 0) \/ (height = screen_height p /\ y = 0)).
Proof.
  intros Himg HW HH Hw Hh Hc Hcol Hok.
  destruct (scale_image_to_fit_within_one_pixel p img_width img_height
              HW HH Hw Hh) as (nw & nh & Hscale & Hcase).
  assert (Hsize : 0 <= nw <= screen_width p /\ 0 <= nh <= screen_height p
                  /\ (nw = screen_width p \/ nh = screen_height p)).
  { destruct (screen_width p * img_height <? img_width * screen_height p);
      lia. }
  destruct Hsize as (Hnw & Hnh & Htouch).
  exists nw, nh, ((screen_width p - nw) / 2), ((screen_height p - nh) / 2).
  destruct (half_margin (screen_width p - nw) ltac:(lia)) as [Hx0 Hx1].
  destruct (half_margin (screen_height p - nh) ltac:(lia)) as [Hy0 Hy1].
  split.
  - unfold display_image, display_image_body. rewrite Himg, Hscale.
    cbn [obind fst snd].
    destruct (nw <? 0) eqn:E1; [lia|]. destruct (nh <? 0) eqn:E2; [lia|].
    cbn [orb obind]. rewrite Hc. cbn [Py.getitem]. rewrite Hcol.
    cbn [obind]. by rewrite Hok.
  - split; [done|]. split; [done|]. split; [lia|]. split; [lia|].
    split; [lia|]. split; [lia|].
    destruct Htouch as [-> | ->]; [left|right];
      (split; [done|]); rewrite Z.sub_diag; reflexivity.
Qed.

Lemma display_image_is_centred_witness :
  exists width height x y,
    display_image renderer_with_poster portrait_player "ads/poster.png"
    = Drawn [Fill (JList [JInt 0; JInt 0; JInt 0]);
             BlitImage "ads/poster.png" width height x y; Flip]
            ("Displaying image: " +:+ Str.basename "ads/poster.png")
    /\ 0 <= x /\ 0 <= y
    /\ x + width <= 1080 /\ y + height <= 1920
    /\ 0 <= 1080 - width - 2 * x <= 1
    /\ 0 <= 1920 - height - 2 * y <= 1
    /\ ((width = 1080 /\ x = 0) \/ (height = 1920 /\ y = 0)).
Proof.
  apply (display_image_is_centred renderer_with_poster portrait_player
           default_config "ads/poster.png" 1280 720
           (JList [JInt 0; JInt 0; JInt 0]));
    try reflexivity; cbn; lia.
Defined.

End RendererProofs.

(** * Further properties of the video delegate *)

Module DelegateProofs.
Import Pygame VideoPlayer Samples VideoPlayerProofs.

(** As before, a statement about an environment [E : env] is about a
    run in which no signal arrives. *)

(** ** The frames of the placeholder *)

Lemma handle_keys_escape evs s :
  handle_keys evs s
  = Fin (Ok tt)
        (if escape_in evs then idle (current_process s) else s) [].
Proof.
  revert s. induction evs as [|ev rest IH]; intros s; [done|].
  destruct ev as [|[]|]; cbn [handle_keys escape_in existsb orb];
    try (rewrite IH; reflexivity).
  run_step. rewrite IH. cbn. fold (escape_in rest).
  by destruct (escape_in rest).
Qed.

Lemma frames_snoc E start filename k n :
  frames E start filename k (S n)
  = frames E start filename k n
    ++ [Draw filename (clock E (S (k + n)) - start); Sleep 100].
Proof.
  revert k. induction n as [|n IH]; intros k.
  - cbn. by replace (k + 0)%nat with k by lia.
  - change (frames E start filename k (S (S n)))
      with (Draw filename (clock E (S k) - start) :: Sleep 100
            :: frames E start filename (S k) (S n)).
    rewrite IH. cbn [frames app].
    by replace (S k + n)%nat with (k + S n)%nat by lia.
Qed.

(** The loop draws the frames after which it goes on. *)
Lemma pygame_loop_goes_on (E : env) n fuel k start video_path duration s :
  is_playing s = true ->
  (forall j, (k <= j < k + n)%nat -> goes_on E start duration j) ->
  pygame_loop E (n + fuel) k start video_path duration s
  = after (frames E start (Str.basename video_path) k n)
      (pygame_loop E fuel (k + n) start video_path duration s).
Proof.
  intros Hs. revert k. induction n as [|n IH]; intros k Hgo.
  - cbn [Nat.add frames]. replace (k + 0)%nat with k by lia.
    by rewrite after_nil.
  - destruct (Hgo k ltac:(lia)) as (Hel & Hdraw & Hesc).
    cbn [Nat.add pygame_loop frames]. run_step. rewrite Hs.
    unfold elapsed_at in Hel. rewrite Hel, Hdraw. cbn.
    rewrite handle_keys_escape, Hesc. cbn.
    rewrite IH by (intros j Hj; apply Hgo; lia).
    replace (S k + n)%nat with (k + S n)%nat by lia.
    by destruct (pygame_loop E fuel (k + S n) start video_path duration s).
Qed.

Lemma play_video_pygame_loop (E : env) fuel video_path duration s :
  font_ok E = true ->
  play_video_pygame E fuel video_path duration s
  = match pygame_loop E fuel 0 (clock E 0) video_path duration
            {| is_playing := true; current_process := current_process s |} with
    | Fin (Ok _) s1 tr =>
        Fin (Ok tt) (idle (current_process s1))
          (Log INFO ("Pygame video placeholder for: " +:+ Str.basename video_path)
           :: tr)
    | Fin (Raise _) s1 tr =>
        Fin (Ok tt) (idle (current_process s1))
          (Log INFO ("Pygame video placeholder for: " +:+ Str.basename video_path)
           :: tr ++ [Log ERROR "Error in pygame video player"])
    | Interrupted b s1 tr =>
        Interrupted b s1
          (Log INFO ("Pygame video placeholder for: " +:+ Str.basename video_path)
           :: tr)
    | OutOfFuel => OutOfFuel
    end.
Proof.
  intros Hfont. unfold play_video_pygame. run_step. rewrite Hfont. cbn.
  destruct (pygame_loop _ _ _ _ _ _ _) as [[[]|e] s1 tr|b s1 tr|]; cbn; try done.
  by rewrite app_nil_r.
Qed.

(** X20. The placeholder draws one frame at each reading of the clock
    until the duration has elapsed.  With a font, a duration that is
    given and not zero, no failure of the drawing and no key ESC: if the
    duration has elapsed at the reading of frame [n] and at none before,
    the placeholder draws exactly the [n] frames before it, each
    followed by its pause, and returns with [is_playing] false. *)
Theorem placeholder_draws_until_the_duration
    (E : env) (n fuel : nat) (video_path : string) (duration : option Z)
    (s : vstate) :
  font_ok E = true ->
  (forall j, (j < n)%nat -> goes_on E (clock E 0) duration j) ->
  elapsed_at E (clock E 0) duration n = true ->
  (n < fuel)%nat ->
  play_video_pygame E fuel video_path duration s
  = Fin (Ok tt) (idle (current_process s))
      (Log INFO ("Pygame video placeholder for: " +:+ Str.basename video_path)
       :: frames E (clock E 0) (Str.basename video_path) 0 n).
Proof.
  intros Hfont Hgo Hel Hfuel.
  rewrite play_video_pygame_loop by done.
  replace fuel with (n + S (fuel - S n))%nat by lia.
  rewrite pygame_loop_goes_on by (done || (intros j Hj; apply Hgo; lia)).
  cbn [Nat.add pygame_loop]. run_step. unfold elapsed_at in Hel.
  rewrite Hel. cbn. by rewrite app_nil_r.
Qed.

Lemma placeholder_draws_until_the_duration_witness :
  play_video_pygame env_without_players 5 clip (Some 10) init
  = Fin (Ok tt) init
      [ Log INFO "Pygame video placeholder for: clip.mp4";
        Draw "clip.mp4" 4000; Sleep 100;
        Draw "clip.mp4" 8000; Sleep 100 ].
Proof.
  apply (placeholder_draws_until_the_duration env_without_players 2 5 clip
           (Some 10) init); try reflexivity.
  - intros j Hj. assert (Hj' : j = 0%nat \/ j = 1%nat) by lia.
    destruct Hj' as [-> | ->]; by repeat split.
  - lia.
Defined.

(** X21. The key ESC ends the placeholder, whatever the duration is,
    also when none is given.  If ESC is among the events of frame [n],
    and until then the duration has not elapsed, the drawing has not
    failed and ESC was not pressed, the placeholder draws the frames up
    to and with frame [n], pauses once more, and returns with
    [is_playing] false. *)
Theorem escape_ends_the_placeholder
    (E : env) (n fuel : nat) (video_path : string) (duration : option Z)
    (s : vstate) :
  font_ok E = true ->
  (forall j, (j < n)%nat -> goes_on E (clock E 0) duration j) ->
  elapsed_at E (clock E 0) duration n = false ->
  draw_ok E n = true ->
  escape_in (events E n) = true ->
  (S n < fuel)%nat ->
  play_video_pygame E fuel video_path duration s
  = Fin (Ok tt) (idle (current_process s))
      (Log INFO ("Pygame video placeholder for: " +:+ Str.basename video_path)
       :: frames E (clock E 0) (Str.basename video_path) 0 (S n)).
Proof.
  intros Hfont Hgo Hel Hdraw Hesc Hfuel. rewrite frames_snoc.
  rewrite play_video_pygame_loop by done.
  replace fuel with (n + S (S (fuel - S (S n))))%nat by lia.
  rewrite pygame_loop_goes_on by (done || (intros j Hj; apply Hgo; lia)).
  cbn [Nat.add pygame_loop]. run_step. unfold elapsed_at in Hel.
  rewrite Hel, Hdraw. cbn. rewrite handle_keys_escape, Hesc. cbn.
  done.
Qed.

Lemma escape_ends_the_placeholder_witness :
  play_video_pygame env_with_escape 5 clip None init
  = Fin (Ok tt) init
      [ Log INFO "Pygame video placeholder for: clip.mp4";
        Draw "clip.mp4" 4000; Sleep 100;
        Draw "clip.mp4" 8000; Sleep 100 ].
Proof.
  apply (escape_ends_the_placeholder env_with_escape 1 5 clip None init);
    try reflexivity.
  - intros j Hj. assert (Hj' : j = 0%nat) by lia. subst j. by repeat split.
  - lia.
Defined.

(** X22. A failure of pygame in the placeholder ends it without an
    exception: the error is logged and [is_playing] is false.  When the
    font cannot be made no frame is drawn; when the drawing of frame [n]
    fails, the frames before it have been drawn and nothing is drawn
    after. *)
Theorem placeholder_stops_when_pygame_fails
    (E : env) (fuel : nat) (video_path : string) (duration : option Z)
    (s : vstate) :
  (font_ok E = false ->
   play_video_pygame E fuel video_path duration s
   = Fin (Ok tt) (idle (current_process s))
       [ Log INFO ("Pygame video placeholder for: " +:+ Str.basename video_path);
         Log ERROR "Error in pygame video player" ])
  /\ (forall n,
        font_ok E = true ->
        (forall j, (j < n)%nat -> goes_on E (clock E 0) duration j) ->
        elapsed_at E (clock E 0) duration n = false ->
        draw_ok E n = false ->
        (n < fuel)%nat ->
        play_video_pygame E fuel video_path duration s
        = Fin (Ok tt) (idle (current_process s))
            (Log INFO ("Pygame video placeholder for: " +:+ Str.basename video_path)
             :: frames E (clock E 0) (Str.basename video_path) 0 n
             ++ [Log ERROR "Error in pygame video player"])).
Proof.
  split.
  - intros Hfont. unfold play_video_pygame. run_step. by rewrite Hfont.
  - intros n Hfont Hgo Hel Hdraw Hfuel.
    rewrite play_video_pygame_loop by done.
    replace fuel with (n + S (fuel - S n))%nat by lia.
    rewrite pygame_loop_goes_on by (done || (intros j Hj; apply Hgo; lia)).
    cbn [Nat.add pygame_loop]. run_step. unfold elapsed_at in Hel.
    rewrite Hel, Hdraw. cbn. by rewrite app_nil_r.
Qed.

Lemma placeholder_stops_when_pygame_fails_witness :
  play_video_pygame env_with_broken_screen 5 clip (Some 10) init
  = Fin (Ok tt) init
      [ Log INFO "Pygame video placeholder for: clip.mp4";
        Draw "clip.mp4" 4000; Sleep 100;
        Log ERROR "Error in pygame video player" ].
Proof.
  apply (proj2 (placeholder_stops_when_pygame_fails env_with_broken_screen 5
                  clip (Some 10) init) 1%nat); try reflexivity.
  - intros j Hj. assert (Hj' : j = 0%nat) by lia. subst j. by repeat split.
  - lia.
Defined.

(** ** omxplayer *)

(** X23. When omxplayer starts and runs to its end, [play_video] does
    three things and returns, for every duration, also for none: it logs
    the start, starts omxplayer with the command line for the path and
    the duration, and waits for it.  No frame of the placeholder is
    drawn, [is_playing] is false afterwards, and the process stays
    recorded as the current one. *)
Theorem omxplayer_plays_without_the_placeholder
    (E : env) (fuel : nat) (video_path : string) (duration : option Z)
    (s : vstate) (h : handle) :
  path_exists E video_path = true ->
  popen E (omxplayer_cmd video_path duration) = Spawned h ->
  wait E h = Exited ->
  play_video E fuel video_path duration s
  = Fin (Ok tt) (idle (Some h))
      [ Log INFO ("Starting OMXPlayer for: " +:+ Str.basename video_path);
        Popen (omxplayer_cmd video_path duration);
        Wait h ].
Proof.
  intros Hex Hp Hw. rewrite play_video_is_omxplayer by done.
  unfold play_video_omxplayer, do_popen, do_wait. run_step.
  rewrite Hp. cbn. by rewrite Hw.
Qed.

Lemma omxplayer_plays_without_the_placeholder_witness :
  play_video env_with_omxplayer 0 clip None init
  = Fin (Ok tt) (idle (Some 7%nat))
      [ Log INFO "Starting OMXPlayer for: clip.mp4";
        Popen ["omxplayer"; "--no-osd"; "--no-keys"; "--aspect-mode";
               "letterbox"; "--vol"; "0"; "ads/clip.mp4"]%string;
        Wait 7%nat ].
Proof.
  apply (omxplayer_plays_without_the_placeholder env_with_omxplayer 0 clip
           None init 7%nat); reflexivity.
Defined.

(** X24. What takes [play_video] from omxplayer to another backend.
    An exception of class [Exception] other than [FileNotFoundError],
    raised when omxplayer is started or, with no signal, while it is
    waited for, takes it nowhere: the error is logged and [play_video]
    returns; nothing is drawn, no other player is tried, and
    [is_playing] is false.  A signal that arrives during the wait is an
    interrupt, which the handlers of [play_video_omxplayer] let pass
    and the bare clause of [play_video] catches: the run goes on with
    VLC, in the state in which omxplayer is recorded as playing. *)
Theorem omxplayer_failure_has_no_fallback
    (W : script) (fuel : nat) (video_path : string) (duration : option Z)
    (s : vstate) :
  path_exists (backends (W TryOmxplayer)) video_path = true ->
  (forall e,
     e <> FileNotFoundError ->
     popen (backends (W TryOmxplayer)) (omxplayer_cmd video_path duration)
     = SpawnFails e ->
     play_video W fuel video_path duration s
     = Fin (Ok tt) (idle (current_process s))
         [ Log INFO ("Starting OMXPlayer for: " +:+ Str.basename video_path);
           Popen (omxplayer_cmd video_path duration);
           Log ERROR "Error playing video with OMXPlayer" ])
  /\ (forall e h,
        e <> FileNotFoundError ->
        popen (backends (W TryOmxplayer)) (omxplayer_cmd video_path duration)
        = Spawned h ->
        wait_signal (W TryOmxplayer) h = None ->
        wait (backends (W TryOmxplayer)) h = WaitFails e ->
        play_video W fuel video_path duration s
        = Fin (Ok tt) (idle (Some h))
            [ Log INFO ("Starting OMXPlayer for: " +:+ Str.basename video_path);
              Popen (omxplayer_cmd video_path duration);
              Wait h;
              Log ERROR "Error playing video with OMXPlayer" ])
  /\ (forall b h,
        popen (backends (W TryOmxplayer)) (omxplayer_cmd video_path duration)
        = Spawned h ->
        wait_signal (W TryOmxplayer) h = Some b ->
        play_video W fuel video_path duration s
        = after
            [ Log INFO ("Starting OMXPlayer for: " +:+ Str.basename video_path);
              Popen (omxplayer_cmd video_path duration);
              Wait h ]
            (try_bare
               (play_video_vlc (W TryVlc) fuel video_path duration)
               (play_video_pygame (W TryPygame) fuel video_path duration)
               {| is_playing := true; current_process := Some h |})).
Proof.
  intros Hex. unfold play_video. rewrite Hex.
  unfold play_video_omxplayer, do_popen, do_wait. split; [|split].
  - intros e He Hp. run_step. rewrite Hp. cbn. by destruct e.
  - intros e h He Hp Hs Hw. run_step. rewrite Hp. cbn. rewrite Hs, Hw. cbn.
    by destruct e.
  - intros b h Hp Hs. run_step. rewrite Hp. cbn. by rewrite Hs.
Qed.

Lemma omxplayer_failure_has_no_fallback_witness :
  play_video machine_interrupted_in_wait 5 clip (Some 10) init
  = Fin (Ok tt) init
      [ Log INFO "Starting OMXPlayer for: clip.mp4";
        Popen ["omxplayer"; "--no-osd"; "--no-keys"; "--aspect-mode";
               "letterbox"; "--vol"; "0"; "ads/clip.mp4";
               "--timeout"; "10"]%string;
        Wait 7%nat;
        Log INFO "Starting VLC for: clip.mp4";
        Popen ["cvlc"; "--intf"; "dummy"; "--no-audio"; "--fullscreen";
               "--play-and-exit"; "ads/clip.mp4"]%string;
        Sleep 10000;
        Terminate 7%nat; Wait5 7%nat; Kill 7%nat ].
Proof.
  destruct (omxplayer_failure_has_no_fallback machine_interrupted_in_wait 5
              clip (Some 10) init eq_refl) as (_ & _ & Hsignal).
  rewrite (Hsignal KeyboardInterrupt 7%nat eq_refl eq_refl).
  vm_compute. reflexivity.
Defined.

(** ** VLC *)

(** X25. [play_video_vlc] with a duration of [d > 0] seconds starts
    VLC, sleeps for [d] seconds and then stops the process as
    [stop_video] does: a process that still runs is terminated and
    waited for, and killed when the wait runs out.  Afterwards
    [is_playing] is false and no process is recorded. *)
Theorem vlc_is_stopped_after_the_duration
    (E : env) (fuel : nat) (video_path : string) (d : Z) (s : vstate)
    (h : handle) :
  0 < d ->
  popen E (vlc_cmd video_path) = Spawned h ->
  play_video_vlc E fuel video_path (Some d) s
  = Fin (Ok tt) (idle None)
      ([ Log INFO ("Starting VLC for: " +:+ Str.basename video_path);
         Popen (vlc_cmd video_path);
         Sleep (1000 * d) ]
       ++ stop_trace E (Some h)).
Proof.
  intros Hd Hp. unfold play_video_vlc, do_popen, do_sleep.
  unfold mbind at 1 2 3 4 5. unfold M_bind at 1 2 3 4 5.
  unfold try_except.
  assert (Hg : given (Some d) = true).
  { cbn. destruct (d =? 0) eqn:E0; [lia|done]. }
  rewrite Hg. run_step. rewrite Hp. cbn.
  destruct (d <? 0) eqn:E1; [lia|]. cbn.
  rewrite stop_video_run. cbn. by rewrite app_nil_r.
Qed.

Lemma vlc_is_stopped_after_the_duration_witness :
  play_video_vlc env_with_omxplayer 0 clip (Some 10) init
  = Fin (Ok tt) init
      [ Log INFO "Starting VLC for: clip.mp4";
        Popen ["cvlc"; "--intf"; "dummy"; "--no-audio"; "--fullscreen";
               "--play-and-exit"; "ads/clip.mp4"]%string;
        Sleep 10000;
        Terminate 7%nat; Wait5 7%nat; Kill 7%nat ].
Proof.
  apply (vlc_is_stopped_after_the_duration env_with_omxplayer 0 clip 10 init
           7%nat); [lia|reflexivity].
Defined.

(** X26. A negative duration makes [play_video_vlc] leave VLC
    running: the sleep refuses the negative length, the error is logged,
    and the method returns with [is_playing] false while the process is
    neither waited for nor terminated nor killed, and stays recorded as
    the current one. *)
Theorem vlc_is_left_running_on_a_negative_duration
    (E : env) (fuel : nat) (video_path : string) (d : Z) (s : vstate)
    (h : handle) :
  d < 0 ->
  popen E (vlc_cmd video_path) = Spawned h ->
  play_video_vlc E fuel video_path (Some d) s
  = Fin (Ok tt) (idle (Some h))
      [ Log INFO ("Starting VLC for: " +:+ Str.basename video_path);
        Popen (vlc_cmd video_path);
        Log ERROR "Error playing video with VLC" ].
Proof.
  intros Hd Hp. unfold play_video_vlc, do_popen, do_sleep.
  unfold mbind at 1 2 3 4 5. unfold M_bind at 1 2 3 4 5.
  unfold try_except.
  assert (Hg : given (Some d) = true).
  { cbn. destruct (d =? 0) eqn:E0; [lia|done]. }
  rewrite Hg. run_step. rewrite Hp. cbn.
  destruct (d <? 0) eqn:E1; [|lia]. done.
Qed.

Lemma vlc_is_left_running_on_a_negative_duration_witness :
  play_video_vlc env_with_omxplayer 0 clip (Some (-5)) init
  = Fin (Ok tt) (idle (Some 7%nat))
      [ Log INFO "Starting VLC for: clip.mp4";
        Popen ["cvlc"; "--intf"; "dummy"; "--no-audio"; "--fullscreen";
               "--play-and-exit"; "ads/clip.mp4"]%string;
        Log ERROR "Error playing video with VLC" ].
Proof.
  apply (vlc_is_left_running_on_a_negative_duration env_with_omxplayer 0 clip
           (-5) init 7%nat); [lia|reflexivity].
Defined.

(** X27. [play_video_vlc] never raises, whatever VLC and pygame do
    and whatever the duration is: a run that ends returns normally with
    [is_playing] false.  No frame of the placeholder is drawn unless
    starting VLC, or waiting for it, fails for a missing file. *)
Theorem vlc_never_raises
    (E : env) (fuel : nat) (video_path : string) (duration : option Z)
    (s : vstate) :
  ~ raises (play_video_vlc E fuel video_path duration s)
  /\ (forall o s1 tr,
        play_video_vlc E fuel video_path duration s = Fin o s1 tr ->
        o = Ok tt /\ is_playing s1 = false)
  /\ (popen E (vlc_cmd video_path) <> SpawnFails FileNotFoundError ->
      (forall h, popen E (vlc_cmd video_path) = Spawned h ->
                 wait E h <> WaitFails FileNotFoundError) ->
      Forall (fun a => is_placeholder_frame a = false)
        (trace_of (play_video_vlc E fuel video_path duration s))).
Proof.
  pose proof (play_video_vlc_safe E fuel video_path duration s) as Hsafe.
  split; [|split].
  - intros [(e & s1 & tr & Hr)|(b & s1 & tr & Hr)]; rewrite Hr in Hsafe.
    + by destruct Hsafe as [_ [? _]].
    + destruct Hsafe as [_ Hb]. by apply quiet_not_signalled in Hb.
  - intros o s1 tr Hr. rewrite Hr in Hsafe. by destruct Hsafe as [_ ?].
  - intros Hp Hw. unfold play_video_vlc, do_popen, do_sleep, do_wait.
    unfold mbind at 1 2 3 4 5. unfold M_bind at 1 2 3 4 5.
    unfold try_except. run_step.
    destruct (popen E (vlc_cmd video_path)) as [h|e]; cbn.
    + specialize (Hw h eq_refl). destruct (given duration); cbn.
      * destruct (default 0 duration <? 0); cbn; [by repeat constructor|].
        rewrite stop_video_run. cbn. repeat (constructor; [done|]).
        rewrite app_nil_r. destruct (running E h); [|constructor].
        destruct (wait5 E h) as [|[]]; by repeat constructor.
      * destruct (wait E h) as [|e]; cbn; [by repeat constructor|].
        destruct e; cbn; by repeat constructor.
    + destruct e; cbn; by repeat constructor.
Qed.

End DelegateProofs.

(** * Properties of the manager *)

Module ManagerProofs.
Import Manager Samples.

(** X28. [start] takes the service for running whenever the output of
    [systemctl is-active] holds the word [active], whatever the return
    code is; the answer [inactive] of a stopped service holds it.  Then
    [start] runs no other command, prints that the service is already
    running, and returns [True]. *)
Theorem start_takes_any_active_for_running
    (host : Type) (sh : string -> bool -> host -> completed * host)
    (ads_files : host -> option nat) (has_config : host -> bool)
    (script_dir : string) (h : host)
    (returncode : Z) (stdout stderr : string) (h1 : host) :
  sh "systemctl is-active ads_player.service" true h
  = (Completed returncode stdout stderr, h1) ->
  Str.contains "active" stdout = true ->
  start host sh ads_files has_config script_dir h
  = (true, h1,
     [ Print "🚀 Starting Ads Player...";
       Ran "systemctl is-active ads_player.service" true;
       Print "✅ Ads Player service is already running!" ]).
Proof.
  intros Hsh Hactive.
  unfold start, bind, print, run_command, ret.
  change ("systemctl is-active " +:+ service_name)
    with "systemctl is-active ads_player.service"%string.
  rewrite Hsh. cbn. by rewrite Hactive.
Qed.

Lemma start_takes_any_active_for_running_witness :
  start unit stopped_service (fun _ => None) (fun _ => false) "/home/pi/ads" tt
  = (true, tt,
     [ Print "🚀 Starting Ads Player...";
       Ran "systemctl is-active ads_player.service" true;
       Print "✅ Ads Player service is already running!" ]).
Proof.
  apply (start_takes_any_active_for_running unit stopped_service
           (fun _ => None) (fun _ => false) "/home/pi/ads" tt 3
           ("inactive" +:+ String (ascii_of_nat 10) "") "" tt);
    reflexivity.
Defined.

Lemma stop_commands
    (host : Type) (sh : string -> bool -> host -> completed * host) (h : host) :
  commands (snd (stop host sh h))
  = [ "sudo systemctl stop ads_player.service"; "pkill -f ads_player.py";
      "pkill -f omxplayer"; "pkill -f vlc" ]%string.
Proof.
  unfold stop, bind, print, run_command, ret.
  change ("sudo systemctl stop " +:+ service_name)
    with "sudo systemctl stop ads_player.service"%string.
  destruct (sh _ true h) as [[rc out err|msg] h1]; cbn;
    [destruct (rc =? 0); cbn|];
    destruct (sh _ true h1) as [[] h2]; cbn;
    destruct (sh _ true h2) as [[] h3]; cbn;
    destruct (sh _ true h3) as [[] h4]; cbn; done.
Qed.

(** X29. [stop] reports success whatever happens: it runs the same
    four commands in the same order (the stop of the service, then the
    three [pkill]), whether or not any of them succeeds or can be run at
    all, prints that all processes are stopped, and returns [True]. *)
Theorem stop_always_reports_success
    (host : Type) (sh : string -> bool -> host -> completed * host) (h : host) :
  fst (fst (stop host sh h)) = true
  /\ commands (snd (stop host sh h))
     = [ "sudo systemctl stop ads_player.service"; "pkill -f ads_player.py";
         "pkill -f omxplayer"; "pkill -f vlc" ]%string
  /\ last (snd (stop host sh h))
     = Some (Print "✅ All ads player processes stopped!").
Proof.
  unfold stop, bind, print, run_command, ret.
  change ("sudo systemctl stop " +:+ service_name)
    with "sudo systemctl stop ads_player.service"%string.
  destruct (sh _ true h) as [[rc out err|msg] h1]; cbn;
    [destruct (rc =? 0); cbn|];
    destruct (sh _ true h1) as [[] h2]; cbn;
    destruct (sh _ true h2) as [[] h3]; cbn;
    destruct (sh _ true h3) as [[] h4]; cbn; done.
Qed.

(** X30. [restart] does not start a service that its own [stop] has
    just stopped.  When, after the commands of [stop],
    [systemctl is-active] gives an output that holds the word [active],
    as the answer [inactive] does, [restart] runs the four commands of
    [stop] and this query, and no command that starts the player; it
    returns [True]. *)
Theorem restart_leaves_a_stopped_service_stopped
    (host : Type) (sh : string -> bool -> host -> completed * host)
    (ads_files : host -> option nat) (has_config : host -> bool)
    (script_dir : string) (h : host)
    (returncode : Z) (stdout stderr : string) (h1 : host) :
  sh "systemctl is-active ads_player.service" true (snd (fst (stop host sh h)))
  = (Completed returncode stdout stderr, h1) ->
  Str.contains "active" stdout = true ->
  fst (fst (restart host sh ads_files has_config script_dir h)) = true
  /\ commands (snd (restart host sh ads_files has_config script_dir h))
     = [ "sudo systemctl stop ads_player.service"; "pkill -f ads_player.py";
         "pkill -f omxplayer"; "pkill -f vlc";
         "systemctl is-active ads_player.service" ]%string.
Proof.
  intros Hsh Hactive.
  pose proof (stop_commands host sh h) as Hstop.
  assert (Hstart : start host sh ads_files has_config script_dir
                     (snd (fst (stop host sh h)))
                   = (true, h1,
                      [ Print "🚀 Starting Ads Player...";
                        Ran "systemctl is-active ads_player.service" true;
                        Print "✅ Ads Player service is already running!" ])).
  { unfold start, bind, print, run_command, ret.
    change ("systemctl is-active " +:+ service_name)
      with "systemctl is-active ads_player.service"%string.
    rewrite Hsh. cbn. by rewrite Hactive. }
  assert (Heq : restart host sh ads_files has_config script_dir h
                = (true, h1,
                   Print "🔄 Restarting Ads Player..."
                   :: snd (stop host sh h)
                   ++ [ SleepFor 2;
                        Print "🚀 Starting Ads Player...";
                        Ran "systemctl is-active ads_player.service" true;
                        Print "✅ Ads Player service is already running!" ])).
  { unfold restart, bind, print, sleep.
    destruct (stop host sh h) as [[b h4] t4]. cbn [fst snd] in *.
    by rewrite Hstart. }
  rewrite Heq. cbn [fst snd]. split; [done|].
  unfold commands in *. cbn [flat_map app]. by rewrite flat_map_app, Hstop.
Qed.

Lemma restart_leaves_a_stopped_service_stopped_witness :
  fst (fst (restart unit stopped_service (fun _ => None) (fun _ => false)
              "/home/pi/ads" tt)) = true
  /\ commands (snd (restart unit stopped_service (fun _ => None)
                      (fun _ => false) "/home/pi/ads" tt))
     = [ "sudo systemctl stop ads_player.service"; "pkill -f ads_player.py";
         "pkill -f omxplayer"; "pkill -f vlc";
         "systemctl is-active ads_player.service" ]%string.
Proof.
  apply (restart_leaves_a_stopped_service_stopped unit stopped_service
           (fun _ => None) (fun _ => false) "/home/pi/ads" tt 3
           ("inactive" +:+ String (ascii_of_nat 10) "") "" tt);
    reflexivity.
Defined.

End ManagerProofs.
